(** * MLP speculator (layers/mlp.py): a shallow embedding and its properties

    The development follows server/text_generation_server/layers/mlp.py:
    - [MLPSpeculatorLayerNorm]  the RMS normalizer,
    - [MLPSpeculatorModel]      construction and the N-step forward loop,
    - [MLPSpeculatorHead]       the LM-head wrapper and the checkpoint routing.

    Floating point numbers are read as real numbers ([R]); tensors are kept
    with their shape; Python exceptions are values of an error monad. *)

From Stdlib Require Import Reals Lra Lia.
From stdpp Require Import gmap strings list pretty sorting.

Set Default Proof Using "Type".
Open Scope R_scope.

(** ** Exceptions *)

Module Py.

Inductive exn : Type :=
  | TypeError | KeyError | IndexError | ValueError | AttributeError
  | ZeroDivisionError | AssertionError | RuntimeError.

Inductive result (A : Type) : Type :=
  | Ok (a : A)
  | Raise (e : exn).
Arguments Ok {A} a.
Arguments Raise {A} e.

Definition bind {A B} (r : result A) (k : A -> result B) : result B :=
  match r with
  | Ok a => k a
  | Raise e => Raise e
  end.

Definition is_ok {A} (r : result A) : Prop := exists a, r = Ok a.

(** [mapM f l]: run [f] on every element, left to right, stopping at the
    first exception. *)
Fixpoint mapM {A B} (f : A -> result B) (l : list A) : result (list B) :=
  match l with
  | [] => Ok []
  | x :: l' =>
      bind (f x) (fun y => bind (mapM f l') (fun ys => Ok (y :: ys)))
  end.

End Py.
Import Py.

Notation "'do' x <- e ; k" := (Py.bind e (fun x => k))
  (at level 10, x pattern, e at level 100, k at level 200).

(** ** Scalar mixing weights (mlp.py lines 128-130) *)

Module Weights.

(** [0.5 ** (0.5 / n_predict)]; Python raises [ZeroDivisionError] for
    [n_predict = 0]. *)
Definition state_weight_of (n_predict : nat) : R :=
  Rpower (1 / 2) ((1 / 2) / INR n_predict).

(** [math.sqrt(1 - state_weight ** 2)]. *)
Definition emb_weight_of (state_weight : R) : R :=
  sqrt (1 - state_weight ^ 2).

End Weights.

(** ** Tensors

    A tensor is kept as its leading shape [dims] and the row-major list of
    its innermost [cells].  For a float tensor of shape (..., D) the cells
    are the rows along the last axis ([vec], D reals each) and [dims] is the
    shape without D; for an integer tensor of token ids the cells are the
    ids and [dims] is the whole shape.  A tensor without cells therefore
    carries no last-axis size, and an operator that checks that size checks
    nothing on it.  Cells are real numbers: the rounding and the overflow
    of the floating-point type of the tensor are not modelled. *)

Module Tensor.

Definition vec : Type := list R.

Record tensor (A : Type) : Type := mk { dims : list nat; cells : list A }.
Arguments mk {A} dims cells.
Arguments dims {A} t.
Arguments cells {A} t.

Definition numel (s : list nat) : nat := foldr Nat.mul 1%nat s.

Definition tmap {A B} (f : A -> B) (t : tensor A) : tensor B :=
  mk (dims t) (map f (cells t)).

Definition tmapM {A B} (f : A -> result B) (t : tensor A) : result (tensor B) :=
  do cs <- mapM f (cells t); Ok (mk (dims t) cs).

(** [t.size(0)] of a tensor with at least one leading axis. *)
Definition size0 {A} (t : tensor A) : nat := hd 0%nat (dims t).

(** [t.unsqueeze(0)]. *)
Definition unsqueeze0 {A} (t : tensor A) : tensor A :=
  mk (1%nat :: dims t) (cells t).

(** *** Broadcasting of the leading axes *)

(** The first [m] consecutive blocks of [p] cells. *)
Fixpoint chunks {A} (m p : nat) (xs : list A) : list (list A) :=
  match m with
  | O => []
  | S m' => take p xs :: chunks m' p (drop p xs)
  end.

Definition pad_to (n : nat) (s : list nat) : list nat :=
  replicate (n - length s) 1%nat ++ s.

(** Sizes of two shapes of equal rank, axis by axis: equal, or one is 1. *)
Fixpoint bdims (s1 s2 : list nat) : option (list nat) :=
  match s1, s2 with
  | [], [] => Some []
  | a :: s1', b :: s2' =>
      match bdims s1' s2' with
      | None => None
      | Some s =>
          if (a =? b)%nat then Some (a :: s)
          else if (a =? 1)%nat then Some (b :: s)
          else if (b =? 1)%nat then Some (a :: s)
          else None
      end
  | _, _ => None
  end.

(** Shapes are aligned on the right; the shorter one is padded with 1s. *)
Definition broadcast_shape (s1 s2 : list nat) : option (list nat) :=
  let n := Nat.max (length s1) (length s2) in
  bdims (pad_to n s1) (pad_to n s2).

(** Cells of a tensor of shape [src] read at shape [tgt] (same rank, every
    axis of [src] equal to that of [tgt] or 1). *)
Fixpoint expand_to {A} (src tgt : list nat) (xs : list A) : list A :=
  match src, tgt with
  | m :: src', n :: tgt' =>
      if (m =? n)%nat
      then concat (map (expand_to src' tgt') (chunks m (numel src') xs))
      else concat (replicate n (expand_to src' tgt' xs))
  | _, _ => xs
  end.

(** [mapM] over two lists of the same length. *)
Fixpoint zipM {A B C} (f : A -> B -> result C) (l1 : list A) (l2 : list B)
  : result (list C) :=
  match l1, l2 with
  | x :: l1', y :: l2' =>
      do z <- f x y; do zs <- zipM f l1' l2'; Ok (z :: zs)
  | _, _ => Ok []
  end.

(** A binary operator applied with broadcasting: [f] is the operator on
    the innermost cells. *)
Definition broadcast2 {A B C} (f : A -> B -> result C)
    (t1 : tensor A) (t2 : tensor B) : result (tensor C) :=
  match broadcast_shape (dims t1) (dims t2) with
  | None => Raise RuntimeError
  | Some s =>
      let n := length s in
      do cs <- zipM f (expand_to (pad_to n (dims t1)) s (cells t1))
                      (expand_to (pad_to n (dims t2)) s (cells t2));
      Ok (mk s cs)
  end.

(** *** Operators on the last axis *)

Definition vsum (l : list R) : R := foldr Rplus 0 l.

(** A pointwise operator on two rows, with the broadcasting rule for the
    last axis: equal sizes, or one of them is 1. *)
Definition bvec (op : R -> R -> R) (u v : vec) : result vec :=
  if (length u =? length v)%nat then Ok (zip_with op u v)
  else if (length u =? 1)%nat then Ok (map (op (hd 0 u)) v)
  else if (length v =? 1)%nat then Ok (map (fun a => op a (hd 0 v)) u)
  else Raise RuntimeError.

(** Multiplication of a whole tensor by a Python float. *)
Definition scale (c : R) (t : tensor vec) : tensor vec :=
  tmap (map (fun a => a * c)) t.

(** [F.log_softmax(x, dim=-1)] on one row. *)
Definition log_softmax (row : vec) : vec :=
  let lse := ln (vsum (map exp row)) in
  map (fun a => a - lse) row.

End Tensor.
Import Tensor.

(** ** Selection along the last axis ([torch.topk], [torch.argmax]) *)

Module Select.

(** Cells of a row paired with their index along the last axis. *)
Definition indexed (row : vec) : list (nat * R) :=
  zip (seq 0 (length row)) row.

(** Insertion into a list kept in descending order of value; among equal
    values the inserted entry goes first. *)
Fixpoint insert_desc (p : nat * R) (l : list (nat * R)) : list (nat * R) :=
  match l with
  | [] => [p]
  | q :: l' =>
      if Rlt_dec (snd p) (snd q) then q :: insert_desc p l'
      else p :: q :: l'
  end.

(** Entries in descending order of value; among equal values the lower
    index comes first (torch leaves that order open). *)
Definition sort_desc (l : list (nat * R)) : list (nat * R) :=
  foldr insert_desc [] l.

(** [row.topk(k, dim=-1)[1]]: the indices of the [k] largest cells, largest
    first; torch raises when [k] exceeds the size of the axis.  Among equal
    cells this function lists the lower index first, where torch may list
    any of them: what is proved of the selected indices is stated with
    [is_top_k], which allows every such order, or under
    [is_strict_argmax], which excludes the tie. *)
Definition topk (k : nat) (row : vec) : result (list nat) :=
  if (length row <? k)%nat then Raise RuntimeError
  else Ok (take k (map fst (sort_desc (indexed row)))).

(** [row.argmax(dim=-1)]: the index of the first maximal cell; torch raises
    on an axis of size 0. *)
Definition argmax (row : vec) : result nat :=
  match sort_desc (indexed row) with
  | [] => Raise IndexError
  | p :: _ => Ok (fst p)
  end.

(** Order of the sorted entries. *)
Definition desc (p q : nat * R) : Prop := snd q <= snd p.

(** [l] lists [k] distinct positions of [row], in descending order of the
    cells they point at, and no position left out points at a larger cell
    than a listed one. *)
Definition is_top_k (row : vec) (k : nat) (l : list nat) : Prop :=
  length l = k
  /\ NoDup l
  /\ (forall i, i ∈ l -> is_Some (row !! i))
  /\ (forall a b i j x y,
        (a < b)%nat -> l !! a = Some i -> l !! b = Some j ->
        row !! i = Some x -> row !! j = Some y -> y <= x)
  /\ (forall i j x y,
        i ∈ l -> j ∉ l -> row !! i = Some x -> row !! j = Some y -> y <= x).

(** [i] is the position of a maximal cell of [row]. *)
Definition is_argmax (row : vec) (i : nat) : Prop :=
  exists x, row !! i = Some x /\ forall j y, row !! j = Some y -> y <= x.

(** [i] is the position of the only maximal cell of [row]: no other cell
    ties with it, so every selection of a largest cell returns [i]. *)
Definition is_strict_argmax (row : vec) (i : nat) : Prop :=
  exists x, row !! i = Some x
            /\ forall j y, j <> i -> row !! j = Some y -> y < x.

End Select.
Import Select.

(** ** MLPSpeculatorLayerNorm *)

Module LayerNorm.

(** The constructed module: [ln_id] is the identity of the Python object;
    [weight] and [bias] exist only when [elementwise_scale_and_shift] is set
    (kept as [[]] otherwise, never read). *)
Record t : Type := mk {
  ln_id : nat;
  elementwise_scale_and_shift : bool;
  weight : vec;
  bias : vec;
  eps : R
}.

(** [xf.pow(2).mean(-1, keepdim=True)] on one row. *)
Definition mean_sq (row : vec) : R :=
  vsum (map (fun a => a ^ 2) row) / INR (length row).

(** [torch.rsqrt]. *)
Definition rsqrt (y : R) : R := / sqrt y.

(** Line 47 on one row: [xf * torch.rsqrt(xf.pow(2).mean(-1) + eps)]. *)
Definition normalize (e : R) (row : vec) : vec :=
  map (fun a => a * rsqrt (mean_sq row + e)) row.

(** [MLPSpeculatorLayerNorm.forward] (lines 45-52).  [self.weight * x] and
    [x + self.bias] broadcast the 1-D parameters against every row. *)
Definition forward (l : t) (x : tensor vec) : result (tensor vec) :=
  let xf := tmap (normalize (eps l)) x in
  if elementwise_scale_and_shift l then
    do x1 <- tmapM (fun row => bvec Rmult (weight l) row) xf;
    tmapM (fun row => bvec Rplus row (bias l)) x1
  else Ok xf.

(** The normalizer on one row in the words of the specification:
    y = x * rsqrt(mean(x^2) + epsilon), then y * scale + shift when the
    normalizer has affine parameters. *)
Definition spec_row (l : t) (row : vec) : vec :=
  let r := / sqrt (vsum (map (fun a => a * a) row) / INR (length row)
                   + eps l) in
  let y := map (fun a => a * r) row in
  if elementwise_scale_and_shift l
  then zip_with Rplus (zip_with Rmult y (weight l)) (bias l)
  else y.

End LayerNorm.

(** ** MLPSpeculatorModel *)

Module Speculator.

(** Values found in [config.speculator_config]. *)
Inductive pyval : Type :=
  | PBool (b : bool)
  | PInt (z : Z)
  | PList (l : list Z).

(** Python truthiness, as used by [if self.tie_weights:]. *)
Definition truthy (v : pyval) : bool :=
  match v with
  | PBool b => b
  | PInt z => negb (z =? 0)%Z
  | PList l => negb (bool_decide (l = []))
  end.

(** The value as an operand of [/]: a list raises [TypeError]. *)
Definition as_float (v : pyval) : result R :=
  match v with
  | PBool b => Ok (if b then 1 else 0)
  | PInt z => Ok (IZR z)
  | PList _ => Raise TypeError
  end.

(** [math.sqrt]: a negative argument raises [ValueError]. *)
Definition py_sqrt (x : R) : result R :=
  if Rlt_dec x 0 then Raise ValueError else Ok (sqrt x).

(** [SQRT2 = 2**0.5] (line 10). *)
Definition SQRT2 : R := Rpower 2 (1 / 2).

Record Config : Type := mkConfig {
  hidden_size : nat;
  vocab_size : nat;
  speculator_config : gmap string pyval
}.

(** A [TensorParallelEmbedding] and a [FastLinear] object: the identity of
    the Python object and the checkpoint prefix its weight was read from. *)
Record Embedding : Type := mkEmbedding { emb_id : nat; emb_prefix : string }.
Record Linear : Type := mkLinear { lin_id : nat; lin_prefix : string }.

Record Model : Type := mkModel {
  n_predict : nat;
  m_hidden_size : nat;
  tie_weights : pyval;
  scale_input : pyval;
  emb : list Embedding;
  proj : list Linear;
  head : list Linear;
  ln : list LayerNorm.t;
  ln0 : option LayerNorm.t;
  state_weight : R;
  emb_weight : R;
  vsize : nat;
  inner_dim : pyval;
  top_k_tokens_per_head : list nat
}.

(** *** Construction: objects are allocated with fresh identities *)

Definition Ctor (A : Type) : Type := nat -> result (A * nat).

Definition cret {A} (a : A) : Ctor A := fun n => Ok (a, n).
Definition craise {A} (e : exn) : Ctor A := fun _ => Raise e.
Definition cbind {A B} (c : Ctor A) (k : A -> Ctor B) : Ctor B :=
  fun n => match c n with
           | Ok (a, n') => k a n'
           | Raise e => Raise e
           end.
Definition fresh : Ctor nat := fun n => Ok (n, S n).

Notation "'new' x <- e ; k" := (cbind e (fun x => k))
  (at level 10, x pattern, e at level 100, k at level 200).

(** A list comprehension [[f(i) for i in l]]. *)
Fixpoint forM {A B} (l : list A) (f : A -> Ctor B) : Ctor (list B) :=
  match l with
  | [] => cret []
  | x :: l' => new y <- f x; new ys <- forM l' f; cret (y :: ys)
  end.

(** An argument bound to the [prefix] parameter of the normalizer: the
    callers pass a string, line 126 passes [self.hidden_size]. *)
Inductive pyarg : Type := AStr (s : string) | AInt (n : nat).

(** The argument inside an f-string. *)
Definition fstr (a : pyarg) : string :=
  match a with
  | AStr s => s
  | AInt n => pretty n
  end.

(** Assignment to an attribute of a constructed model:
    [model.top_k_tokens_per_head = l] and [model.tie_weights = v]. *)
Definition set_top_k (l : list nat) (m : Model) : Model :=
  mkModel (n_predict m) (m_hidden_size m) (tie_weights m) (scale_input m)
    (emb m) (proj m) (head m) (ln m) (ln0 m) (state_weight m) (emb_weight m)
    (vsize m) (inner_dim m) l.

Definition set_tie_weights (v : pyval) (m : Model) : Model :=
  mkModel (n_predict m) (m_hidden_size m) v (scale_input m)
    (emb m) (proj m) (head m) (ln m) (ln0 m) (state_weight m) (emb_weight m)
    (vsize m) (inner_dim m) (top_k_tokens_per_head m).

(** The number of distinct Python objects behind a list of identities. *)
Definition distinct (ids : list nat) : nat := length (remove_dups ids).

Section WithCheckpoint.

(** The checkpoint and the layers that are not part of mlp.py:
    [weights.get_tensor], the row gathered by a [TensorParallelEmbedding],
    the product computed by a bias-free [FastLinear] on one row, [nn.GELU]
    on one cell. *)
Variable get_tensor : string -> vec.
Variable embedding : string -> nat -> vec.
Variable linear : string -> vec -> vec.
Variable gelu : R -> R.

Definition Embedding_init (prefix : string) : Ctor Embedding :=
  new id <- fresh; cret (mkEmbedding id prefix).

Definition Linear_load (prefix : string) : Ctor Linear :=
  new id <- fresh; cret (mkLinear id prefix).

(** Modelled from the spec: the forward of [TensorParallelEmbedding] (its
    class is not in mlp.py).  Given a table and integer ids it returns the
    gathered rows, one per id, under the shape of the ids. *)
Definition Embedding_forward (e : Embedding) (ids : tensor nat)
  : tensor vec :=
  tmap (embedding (emb_prefix e)) ids.

(** Modelled from the spec: the forward of a bias-free [FastLinear] (its
    class is not in mlp.py).  Given a weight and an input tensor it returns
    the matrix product along the last axis, row by row. *)
Definition Linear_forward (p : Linear) (x : tensor vec) : tensor vec :=
  tmap (linear (lin_prefix p)) x.

(** [MLPSpeculatorLayerNorm.__init__(self, prefix, config, weights,
    eps=1e-06, elementwise_scale_and_shift=True)] (lines 30-43).  An
    argument is [None] when the call does not supply it; [prefix], [config]
    and [weights] have no default, so a call without them raises
    [TypeError]. *)
Definition LayerNorm_init (prefix : option pyarg) (config : option Config)
    (weights : option unit) (eps : option R)
    (elementwise_scale_and_shift : option bool) : Ctor LayerNorm.t :=
  match prefix, config, weights with
  | Some p, Some _, Some _ =>
      let affine := default true elementwise_scale_and_shift in
      let e := default (1 / 1000000) eps in
      new id <- fresh;
      if affine
      then cret (LayerNorm.mk id true
                   (get_tensor (fstr p +:+ ".weight"))
                   (get_tensor (fstr p +:+ ".bias")) e)
      else cret (LayerNorm.mk id false [] [] e)
  | _, _, _ => craise TypeError
  end.

(** The four module lists (lines 63-123). *)
Definition build_lists (tie : bool) (n : nat) (config : Config)
    (prefix : string)
  : Ctor (list Embedding * list Linear * list Linear * list LayerNorm.t) :=
  if tie then
    new embedding <- Embedding_init (prefix +:+ ".emb.0");
    new proj_first <- Linear_load (prefix +:+ ".proj.0");
    new proj_tied <- Linear_load (prefix +:+ ".proj.1");
    new head <- Linear_load (prefix +:+ ".head.0");
    new ln <- LayerNorm_init (Some (AStr (prefix +:+ ".ln.0"))) (Some config)
                (Some ()) None (Some true);
    cret (replicate n embedding,
          [proj_first] ++ replicate (n - 1) proj_tied,
          replicate n head,
          replicate n ln)
  else
    new embs <- forM (seq 0 n)
                  (fun i => Embedding_init (prefix +:+ ".emb." +:+ pretty i));
    new projs <- forM (seq 0 n)
                   (fun i => Linear_load (prefix +:+ ".proj." +:+ pretty i));
    new heads <- forM (seq 0 n)
                   (fun i => Linear_load (prefix +:+ ".head." +:+ pretty i));
    new lns <- forM (seq 0 n)
                 (fun i => LayerNorm_init
                             (Some (AStr (prefix +:+ ".ln." +:+ pretty i)))
                             (Some config) (Some ()) None (Some true));
    cret (embs, projs, heads, lns).

(** [MLPSpeculatorModel.__init__] (lines 56-135); [n] is the value of
    [get_speculate()]. *)
Definition Model_init (n : nat) (config : Config) (prefix : string)
  : Ctor Model :=
  let sc := speculator_config config in
  let tie := default (PBool false) (sc !! "tie_weights") in
  let scl := default (PBool false) (sc !! "scale_input") in
  new lists <- build_lists (truthy tie) n config prefix;
  let '(embs, projs, heads, lns) := lists in
  new l0 <- (if truthy scl
             then new l <- LayerNorm_init (Some (AInt (hidden_size config)))
                             None None None (Some false);
                  cret (Some l)
             else cret None);
  new sw <- (match n with
             | O => craise ZeroDivisionError
             | S _ => cret (Weights.state_weight_of n)
             end);
  new ew <- (fun s => do r <- py_sqrt (1 - sw ^ 2); Ok (r, s));
  new inner <- (match sc !! "inner_dim" with
                | Some v => cret v
                | None => craise KeyError
                end);
  cret (mkModel n (hidden_size config) tie scl embs projs heads lns l0
          sw ew (vocab_size config) inner (replicate n 1%nat)).

(** *** The forward pass (lines 137-181) *)

(** [l[i]] on a Python list or [ModuleList]. *)
Definition idx {A} (l : list A) (i : nat) : result A :=
  match l !! i with
  | Some a => Ok a
  | None => Raise IndexError
  end.

(** [self.emb_weight * math.sqrt(self.inner_dim / 2)] (line 162). *)
Definition emb_scale (m : Model) : result R :=
  do x <- as_float (inner_dim m);
  do s <- py_sqrt (x / 2);
  Ok (emb_weight m * s).

(** Lines 161-164: the state that is fed to the output projection. *)
Definition mix (m : Model) (i : nat) (state : tensor vec) (ind : tensor nat)
  : result (tensor vec) :=
  do e <- idx (emb m) i;
  let z := Embedding_forward e ind in
  do c <- emb_scale m;
  let z := scale c z in
  do p <- idx (proj m) i;
  do state <- broadcast2 (bvec Rplus)
                (scale (state_weight m) (Linear_forward p state))
                z;
  do l <- idx (ln m) i;
  do normed <- LayerNorm.forward l state;
  Ok (tmap (map gelu) normed).

(** Line 165: [F.log_softmax(self.head[i](state), dim=-1)]. *)
Definition predict (m : Model) (i : nat) (state : tensor vec)
  : result (tensor vec) :=
  do h <- idx (head m) i;
  Ok (tmap log_softmax (Linear_forward h state)).

(** A row of the source of an assignment, read at last-axis size [v]. *)
Definition fit_row (v : nat) (row : vec) : result vec :=
  if (length row =? v)%nat then Ok row
  else if (length row =? 1)%nat then Ok (replicate v (hd 0 row))
  else Raise RuntimeError.

Fixpoint strip_ones (s : list nat) : list nat :=
  match s with
  | 1%nat :: s' => strip_ones s'
  | _ => s
  end.

(** [all_probs[:, i] = src] (line 171), [all_probs] of shape (b, N, v) kept
    as [b] lists of [N] rows.  The indexed assignment drops the leading
    axes of size 1 of [src] and expands what is left to (b, v); it raises
    when the source still has more than two axes or a size that differs. *)
Definition set_head (b v i : nat) (all_probs : list (list vec))
    (src : tensor vec) : result (list (list vec)) :=
  match strip_ones (dims src) with
  | [] =>
      match cells src with
      | [row] =>
          do r <- fit_row v row;
          Ok (map (fun heads => <[i := r]> heads) all_probs)
      | _ => Raise RuntimeError
      end
  | [b'] =>
      if (b' =? b)%nat then
        do rs <- mapM (fit_row v) (cells src);
        Ok (zip_with (fun heads r => <[i := r]> heads) all_probs rs)
      else Raise RuntimeError
  | _ => Raise RuntimeError
  end.

(** [state.unsqueeze(2).expand(-1, -1, k, -1)] (lines 174-176): defined
    on a state of rank 3 only; every row is repeated [k] times. *)
Definition expand_k (k : nat) (state : tensor vec) : result (tensor vec) :=
  match dims state with
  | [c; b0] =>
      Ok (Tensor.mk [c; b0; k] (concat (map (replicate k) (cells state))))
  | _ => Raise RuntimeError
  end.

(** The cells in row-major order under the leading shape (-1, b). *)
Definition regroup {A} (b : nat) (cs : list A) : result (tensor A) :=
  if (b =? 0)%nat then Raise RuntimeError
  else if (length cs mod b =? 0)%nat
       then Ok (Tensor.mk [(length cs / b)%nat; b] cs)
       else Raise RuntimeError.

(** [state.reshape(-1, b, state.size(3))] (line 177); a last axis of size
    0 leaves the -1 undetermined. *)
Definition reshape_state (b : nat) (t : tensor vec) : result (tensor vec) :=
  if existsb (fun row => (length row =? 0)%nat) (cells t)
  then Raise RuntimeError
  else regroup b (cells t).

(** [preds.view(-1, b)] (line 178). *)
Definition view_preds (b : nat) (preds : tensor (list nat))
  : result (tensor nat) :=
  regroup b (concat (cells preds)).

Record loop_state : Type := mkLoop {
  state : tensor vec;
  ind : tensor nat;
  all_probs : list (list vec)
}.

(** The body of the loop (lines 160-178). *)
Definition step (m : Model) (b : nat) (top_k : list nat) (i : nat)
    (st : loop_state) : result loop_state :=
  do fed <- mix m i (state st) (ind st);
  do probs <- predict m i fed;
  do k <- idx top_k i;
  do preds <- tmapM (topk k) probs;
  do ap <- set_head b (vsize m) i (all_probs st) (tmap (map exp) probs);
  do ex <- expand_k k fed;
  do state' <- reshape_state b ex;
  do ind' <- view_preds b preds;
  Ok (mkLoop state' ind' ap).

(** [for i in range(...)] over the remaining indices. *)
Fixpoint loop (m : Model) (b : nat) (top_k : list nat) (range : list nat)
    (st : loop_state) : result loop_state :=
  match range with
  | [] => Ok st
  | i :: rest => do st' <- step m b top_k i st; loop m b top_k rest st'
  end.

(** Lines 146-149: the state that enters the loop. *)
Definition scaled_input (m : Model) (hidden_states : list vec)
  : result (tensor vec) :=
  let state := Tensor.mk [length hidden_states] hidden_states in
  if truthy (scale_input m) then
    match ln0 m with
    | None => Raise AttributeError
    | Some l0 =>
        do s <- LayerNorm.forward l0 state;
        Ok (tmap (map (fun a => a / SQRT2)) s)
    end
  else Ok state.

(** Lines 151-155: the loop state before the first step; [torch.empty]
    is read as a tensor of zeros (every cell is overwritten or the call
    raises). *)
Definition init_loop (m : Model) (state : tensor vec) (input_ids : list nat)
  : loop_state :=
  let b := size0 state in
  mkLoop state
         (unsqueeze0 (Tensor.mk [length input_ids] input_ids))
         (replicate b (replicate (n_predict m) (replicate (vsize m) 0))).

(** [MLPSpeculatorModel.forward] on hidden states of shape (b, hidden) and
    ids of shape (b,). *)
Definition forward (m : Model) (hidden_states : list vec)
    (input_ids : list nat) : result (list (list vec)) :=
  let top_k := top_k_tokens_per_head m in
  do state <- scaled_input m hidden_states;
  let b := size0 state in
  let st0 := init_loop m state input_ids in
  if negb (length top_k =? n_predict m)%nat then Raise AssertionError
  else
    do st <- loop m b top_k (seq 0 (n_predict m)) st0;
    Ok (all_probs st).

(** *** The recurrence in the words of the specification *)

(** One candidate row through the mixing of step i:
    state := GELU(normalizer(stateProjection(state) * stateWeight + z)) with
    z = embeddingTable.lookup(candidate) scaled by [c], the product of
    embedWeight and sqrt(innerDim / 2). *)
Definition row_step (sw c : R) (e : Embedding) (p : Linear)
    (l : LayerNorm.t) (s : vec) (tok : nat) : vec :=
  let z := map (fun a => a * c) (embedding (emb_prefix e) tok) in
  let mixed :=
    zip_with Rplus (map (fun a => a * sw) (linear (lin_prefix p) s)) z in
  map gelu (LayerNorm.spec_row l mixed).

(** The probability distribution of a row of logits. *)
Definition softmax (logits : vec) : vec :=
  map (fun a => exp a / vsum (map exp logits)) logits.

(** The most probable token of a row of log-probabilities, the one [topk 1]
    selects: the first one among equals, where torch may select another
    (see [untied]). *)
Definition top1 (probs : vec) : nat :=
  hd 0%nat (map fst (sort_desc (indexed probs))).

(** The parameters of step i. *)
Record layer : Type := mkLayer {
  L_emb : Embedding;
  L_proj : Linear;
  L_ln : LayerNorm.t;
  L_head : Linear
}.

Definition layer_at (m : Model) (i : nat) : option layer :=
  match emb m !! i, proj m !! i, ln m !! i, head m !! i with
  | Some e, Some p, Some l, Some h => Some (mkLayer e p l h)
  | _, _, _, _ => None
  end.


(** The chain of one batch row with a single candidate per head: the
    distributions recorded for the heads in [layers], from the state [s]
    and the token [tok]. *)
Fixpoint chain (sw c : R) (layers : list layer) (s : vec) (tok : nat)
  : list vec :=
  match layers with
  | [] => []
  | L :: rest =>
      let s' := row_step sw c (L_emb L) (L_proj L) (L_ln L) s tok in
      let logits := linear (lin_prefix (L_head L)) s' in
      softmax logits :: chain sw c rest s' (top1 (log_softmax logits))
  end.

(** The same chain when the token handed to the next head is the one a
    selection [sel] picks in the row of log-probabilities; [torch.topk]
    leaves open which of several equal cells it returns. *)
Fixpoint chain_by (sel : vec -> nat) (sw c : R) (layers : list layer)
    (s : vec) (tok : nat) : list vec :=
  match layers with
  | [] => []
  | L :: rest =>
      let s' := row_step sw c (L_emb L) (L_proj L) (L_ln L) s tok in
      let logits := linear (lin_prefix (L_head L)) s' in
      softmax logits :: chain_by sel sw c rest s' (sel (log_softmax logits))
  end.

(** No head of the chain but the last meets two equally probable best
    tokens: the row of log-probabilities of every head that hands a token
    on has a single largest cell. *)
Fixpoint untied (sw c : R) (layers : list layer) (s : vec) (tok : nat)
  : Prop :=
  match layers with
  | [] => True
  | L :: rest =>
      let s' := row_step sw c (L_emb L) (L_proj L) (L_ln L) s tok in
      let probs := log_softmax (linear (lin_prefix (L_head L)) s') in
      match rest with
      | [] => True
      | _ :: _ =>
          (exists i, is_strict_argmax probs i)
          /\ untied sw c rest s' (top1 probs)
      end
  end.

(** The recorded distributions [ds] written over the entries [j],
    [j+1], ... of one batch row of [all_probs]. *)
Definition fill (j : nat) (ds heads : list vec) : list vec :=
  take j heads ++ ds ++ drop (j + length ds) heads.

(** The parameters of the steps [j], ..., [j + len - 1]. *)
Definition layers_from (m : Model) (j len : nat) : list layer :=
  omap (layer_at m) (seq j len).

(** A model whose lists hold a module for every head and whose layers
    have the configured sizes: embeddings and state projections produce
    [inner] cells, output projections [vsize] cells, the normalizers carry
    [inner] scales and shifts, and the embedding scale [c] is defined. *)
Record ready (m : Model) (inner : nat) (c : R) : Prop := mkReady {
  ready_emb : length (emb m) = n_predict m;
  ready_proj : length (proj m) = n_predict m;
  ready_head : length (head m) = n_predict m;
  ready_ln : length (ln m) = n_predict m;
  ready_emb_width :
    forall e tok, e ∈ emb m -> length (embedding (emb_prefix e) tok) = inner;
  ready_proj_width :
    forall p row, p ∈ proj m -> length (linear (lin_prefix p) row) = inner;
  ready_head_width :
    forall h row, h ∈ head m -> length (linear (lin_prefix h) row) = vsize m;
  ready_ln_width :
    forall l, l ∈ ln m ->
      LayerNorm.elementwise_scale_and_shift l = true ->
      length (LayerNorm.weight l) = inner
      /\ length (LayerNorm.bias l) = inner;
  ready_inner : (1 <= inner)%nat;
  ready_scale : emb_scale m = Ok c
}.

(** The loop state holds [c] candidates for each of the [b] batch rows:
    ids of shape (c, b), a state row for every id, and [b] rows of
    recorded distributions. *)
Definition aligned (b c : nat) (st : loop_state) : Prop :=
  dims (ind st) = [c; b]
  /\ length (cells (ind st)) = (c * b)%nat
  /\ length (cells (state st)) = (c * b)%nat
  /\ (dims (state st) = [c; b] \/ (c = 1%nat /\ dims (state st) = [b]))
  /\ length (all_probs st) = b.

End WithCheckpoint.
End Speculator.

(** ** MLPSpeculatorHead *)

Module Head.

(** The collaborators a call reaches. *)
Inductive event : Type := CallLmHead | CallSpeculator.

Section WithLayers.

(** The product computed by [self.lm_head] on one row of the input, and
    [self.mlp_speculator]. *)
Variable lm_head : vec -> vec.
Variable mlp_speculator : list vec -> list nat -> result (list (list vec)).

(** Modelled from the spec: the forward of [TensorParallelHead] (its class
    is not in mlp.py).  It maps every row of the input to a row of logits
    over the vocabulary. *)
Definition lm_head_forward (input : list vec) : list vec :=
  map lm_head input.

(** [MLPSpeculatorHead.forward] (lines 190-200) on an input of shape
    (B, hidden): the calls made, in order, and the value returned. *)
Definition forward (input : list vec)
  : list event * result (list vec * option (list (list vec))) :=
  let logits := lm_head_forward input in
  if (128 <? length input)%nat then ([CallLmHead], Ok (logits, None))
  else
    match mapM argmax logits with
    | Raise e => ([CallLmHead], Raise e)
    | Ok input_ids =>
        ([CallLmHead; CallSpeculator],
         do speculative_logits <- mlp_speculator input input_ids;
         Ok (logits, Some speculative_logits))
    end.

End WithLayers.

(** *** Checkpoint routing in [MLPSpeculatorHead.load] (lines 207-218) *)

(** Lines 213-218 for the keys of one file. *)
Fixpoint claim_keys (filename : string) (keys : list string)
    (routing : gmap string string) : result (gmap string string) :=
  match keys with
  | [] => Ok routing
  | k :: keys' =>
      match routing !! k with
      | Some owner =>
          if bool_decide (owner = filename)
          then claim_keys filename keys' (<[k := filename]> routing)
          else Raise RuntimeError
      | None => claim_keys filename keys' (<[k := filename]> routing)
      end
  end.

Section WithFiles.

(** [str(Path(speculator_path) / fname)] and the keys [safe_open] lists for
    a file. *)
Variable path_join : string -> string -> string.
Variable keys_of : string -> list string.

(** Lines 209-218: the loop over [config.speculator["model_paths"]].  The
    dictionary is updated in place; the entries written before a raise are
    not kept in this value. *)
Fixpoint route (speculator_path : string) (model_paths : list string)
    (routing : gmap string string) : result (gmap string string) :=
  match model_paths with
  | [] => Ok routing
  | fname :: rest =>
      let filename := path_join speculator_path fname in
      do routing' <- claim_keys filename (keys_of filename) routing;
      route speculator_path rest routing'
  end.

(** Key [k] is claimed by file [f]: the routing table already sends [k] to
    [f], or [f] is one of the speculator files and lists [k]. *)
Definition claimed (speculator_path : string) (model_paths : list string)
    (routing : gmap string string) (k f : string) : Prop :=
  routing !! k = Some f
  \/ exists fname, fname ∈ model_paths
                   /\ f = path_join speculator_path fname
                   /\ k ∈ keys_of f.

Variable get_tensor : string -> vec.

Record t : Type := mk {
  lm_head_prefix : string;
  speculator : Speculator.Model;
  routing_table : gmap string string
}.

(** [MLPSpeculatorHead.load] (lines 202-222): routing first, then the
    speculator model, then the LM head. *)
Definition load (n : nat) (config : Speculator.Config)
    (speculator_path : string) (model_paths : list string) (prefix : string)
    (routing : gmap string string) : Speculator.Ctor t :=
  fun next =>
    do routing' <- route speculator_path model_paths routing;
    do built <- Speculator.Model_init get_tensor n config "speculator" next;
    Ok (mk prefix built.1 routing', built.2).

End WithFiles.
End Head.

(** ** Concrete checkpoints and configurations used in the examples *)

Module Examples.
Import Speculator.

(** A checkpoint whose normalizer parameters are the vector (1, 1), whose
    embedding of token [t] is (t, 0) and whose linear layers keep the first
    two cells of a row; the activation is the identity. *)
Definition ex_get_tensor (_ : string) : vec := [1; 1].
Definition ex_embedding (_ : string) (tok : nat) : vec := [INR tok; 0].
Definition ex_linear (_ : string) (row : vec) : vec :=
  [nth 0 row 0; nth 1 row 0].
Definition ex_gelu (x : R) : R := x.

Definition cfg_plain : Config :=
  mkConfig 2 2 {[ "inner_dim" := PInt 2 ]}.

Definition cfg_tied : Config :=
  mkConfig 2 2 (<[ "tie_weights" := PBool true ]> {[ "inner_dim" := PInt 2 ]}).

Definition cfg_scale_input : Config :=
  mkConfig 2 2 (<[ "scale_input" := PBool true ]> {[ "inner_dim" := PInt 2 ]}).

(** A configuration that carries a per-head top-k list of two entries. *)
Definition cfg_top_k : Config :=
  mkConfig 2 2
    (<[ "top_k_tokens_per_head" := PList [4; 3]%Z ]>
       {[ "inner_dim" := PInt 2 ]}).

(** A normalizer with scale (1, 2) and shift (0, 1), and a tensor of shape
    (1, 2, 2). *)
Definition ex_ln : LayerNorm.t :=
  LayerNorm.mk 0 true [1; 2] [0; 1] (1 / 1000000).
Definition ex_input : tensor vec :=
  Tensor.mk [1; 2]%nat [[3; 4]; [0; 0]].

(** A configuration without [inner_dim], and a normalizer whose scale and
    shift have three cells. *)
Definition cfg_no_inner : Config := mkConfig 2 2 ∅.
Definition ex_ln_wide : LayerNorm.t :=
  LayerNorm.mk 0 true [1; 2; 3] [0; 0; 0] (1 / 1000000).

(** Two speculator files under one directory. *)
Definition ex_path_join (dir fname : string) : string :=
  dir +:+ "/" +:+ fname.

(** Both files list the key of the first embedding table. *)
Definition ex_keys_clash (filename : string) : list string :=
  if bool_decide (filename = "spec/a.safetensors")
  then ["emb.0.weight"; "proj.0.weight"]
  else ["emb.0.weight"].

(** Every file lists one key, twice, named after the file. *)
Definition ex_keys_apart (filename : string) : list string :=
  ["weight:" +:+ filename; "weight:" +:+ filename].

End Examples.

(** * Properties *)

(** ** The mixing weights *)

Section WeightFacts.
Import Weights.

Lemma state_weight_pos n : 0 < state_weight_of n.
Proof. apply exp_pos. Qed.

Lemma state_weight_lt_1 n : (1 <= n)%nat -> state_weight_of n < 1.
Proof.
  intros Hn. unfold state_weight_of, Rpower.
  assert (Hpos : 0 < INR n) by (apply lt_0_INR; lia).
  assert (Hln : ln (1 / 2) < 0).
  { rewrite <- ln_1. apply ln_increasing; lra. }
  assert (Hq : 0 < 1 / 2 / INR n).
  { apply Rdiv_lt_0_compat; lra. }
  assert (Hneg : 1 / 2 / INR n * ln (1 / 2) < 0).
  { rewrite <- (Rmult_0_r (1 / 2 / INR n)).
    apply Rmult_lt_compat_l; assumption. }
  apply exp_increasing in Hneg. rewrite exp_0 in Hneg. exact Hneg.
Qed.

Lemma state_weight_sq_lt_1 n :
  (1 <= n)%nat -> 0 < state_weight_of n ^ 2 < 1.
Proof.
  intros Hn.
  pose proof (state_weight_pos n). pose proof (state_weight_lt_1 n Hn).
  split; nra.
Qed.

Lemma emb_weight_sq n :
  (1 <= n)%nat ->
  emb_weight_of (state_weight_of n) ^ 2 = 1 - state_weight_of n ^ 2.
Proof.
  intros Hn. unfold emb_weight_of.
  pose proof (state_weight_sq_lt_1 n Hn) as [_ Hlt].
  rewrite pow2_sqrt; [reflexivity | lra].
Qed.

Lemma emb_weight_bounds n :
  (1 <= n)%nat -> 0 < emb_weight_of (state_weight_of n) < 1.
Proof.
  intros Hn. unfold emb_weight_of.
  pose proof (state_weight_sq_lt_1 n Hn) as [Hpos Hlt].
  split.
  - apply sqrt_lt_R0. lra.
  - rewrite <- sqrt_1 at 2. apply sqrt_lt_1; lra.
Qed.

End WeightFacts.

(** ** Construction *)

Section CtorFacts.
Import Speculator.
Variable get_tensor : string -> vec.

Lemma forM_alloc {B} (g : nat -> nat -> B) (l : list nat) (next : nat) :
  forM l (fun i => new id <- fresh; cret (g id i)) next
  = Ok (imap (fun j i => g (next + j)%nat i) l, (next + length l)%nat).
Proof.
  revert g next. induction l as [|i l IH]; intros g next; simpl.
  - unfold cret. do 2 f_equal. lia.
  - unfold cbind at 1. simpl. unfold cbind at 1.
    rewrite (IH g (S next)). unfold cret. f_equal. f_equal.
    + f_equal; [f_equal; lia|].
      apply imap_ext. intros j x _. simpl. f_equal. lia.
    + lia.
Qed.

Lemma build_lists_tied (n : nat) (config : Config) (prefix : string)
    (next : nat) :
  build_lists get_tensor true n config prefix next
  = Ok ((replicate n (mkEmbedding next (prefix +:+ ".emb.0")),
         [mkLinear (next + 1) (prefix +:+ ".proj.0")]
           ++ replicate (n - 1) (mkLinear (next + 2) (prefix +:+ ".proj.1")),
         replicate n (mkLinear (next + 3) (prefix +:+ ".head.0")),
         replicate n (LayerNorm.mk (next + 4) true
                        (get_tensor ((prefix +:+ ".ln.0") +:+ ".weight"))
                        (get_tensor ((prefix +:+ ".ln.0") +:+ ".bias"))
                        (1 / 1000000))),
        (next + 5)%nat).
Proof.
  unfold build_lists, Embedding_init, Linear_load, LayerNorm_init, cbind,
    fresh, cret. simpl.
  replace (S next) with (next + 1)%nat by lia.
  replace (S (next + 1)) with (next + 2)%nat by lia.
  replace (S (next + 2)) with (next + 3)%nat by lia.
  replace (S (next + 3)) with (next + 4)%nat by lia.
  replace (S (next + 4)) with (next + 5)%nat by lia.
  reflexivity.
Qed.

Lemma build_lists_untied (n : nat) (config : Config) (prefix : string)
    (next : nat) :
  build_lists get_tensor false n config prefix next
  = Ok ((imap (fun j i => mkEmbedding (next + j)
                            (prefix +:+ ".emb." +:+ pretty i)) (seq 0 n),
         imap (fun j i => mkLinear (next + n + j)
                            (prefix +:+ ".proj." +:+ pretty i)) (seq 0 n),
         imap (fun j i => mkLinear (next + 2 * n + j)
                            (prefix +:+ ".head." +:+ pretty i)) (seq 0 n),
         imap (fun j i =>
                 LayerNorm.mk (next + 3 * n + j) true
                   (get_tensor ((prefix +:+ ".ln." +:+ pretty i) +:+ ".weight"))
                   (get_tensor ((prefix +:+ ".ln." +:+ pretty i) +:+ ".bias"))
                   (1 / 1000000)) (seq 0 n)),
        (next + 4 * n)%nat).
Proof.
  unfold build_lists, Embedding_init, Linear_load, LayerNorm_init. simpl.
  unfold cbind at 1.
  rewrite (forM_alloc (fun id i => mkEmbedding id _)).
  unfold cbind at 1.
  rewrite (forM_alloc (fun id i => mkLinear id _)).
  unfold cbind at 1.
  rewrite (forM_alloc (fun id i => mkLinear id _)).
  unfold cbind at 1.
  rewrite (forM_alloc (fun id i => LayerNorm.mk id true _ _ _)).
  unfold cret. rewrite !length_seq.
  do 2 f_equal; [|lia].
  apply pair_equal_spec; split; [apply pair_equal_spec; split;
    [apply pair_equal_spec; split|]|];
    apply imap_ext; intros; simpl; f_equal; lia.
Qed.

Lemma py_sqrt_nonneg (x : R) : 0 <= x -> py_sqrt x = Ok (sqrt x).
Proof.
  intros Hx. unfold py_sqrt. destruct (Rlt_dec x 0); [lra | reflexivity].
Qed.

(** What a construction that returns has done. *)
Lemma Model_init_inv (n : nat) (config : Config) (prefix : string)
    (next next' : nat) (m : Model) :
  Model_init get_tensor n config prefix next = Ok (m, next') ->
  let sc := speculator_config config in
  let tie := default (PBool false) (sc !! "tie_weights") in
  let scl := default (PBool false) (sc !! "scale_input") in
  exists embs projs heads lns inner,
    build_lists get_tensor (truthy tie) n config prefix next
      = Ok ((embs, projs, heads, lns), next')
    /\ truthy scl = false
    /\ (1 <= n)%nat
    /\ sc !! "inner_dim" = Some inner
    /\ m = mkModel n (hidden_size config) tie scl embs projs heads lns None
             (Weights.state_weight_of n)
             (Weights.emb_weight_of (Weights.state_weight_of n))
             (vocab_size config) inner (replicate n 1%nat).
Proof.
  intros H sc tie scl. unfold Model_init in H. fold sc tie scl in H.
  unfold cbind at 1 in H.
  destruct (build_lists get_tensor (truthy tie) n config prefix next)
    as [[[[[embs projs] heads] lns] n1]|e]; [|discriminate].
  destruct (truthy scl) eqn:Hscl.
  { unfold LayerNorm_init, cbind, craise in H. discriminate. }
  unfold cbind at 1 in H. unfold cret at 1 in H.
  destruct n as [|n0].
  { unfold cbind, craise in H. discriminate. }
  unfold cbind at 1 in H. unfold cret at 1 in H.
  unfold cbind at 1 in H.
  pose proof (state_weight_sq_lt_1 (S n0) ltac:(lia)) as [_ Hlt].
  rewrite py_sqrt_nonneg in H by lra. simpl in H.
  unfold cbind in H.
  destruct (sc !! "inner_dim") as [inner|] eqn:Hin;
    [|unfold craise in H; discriminate].
  unfold cret in H. injection H as <- <-.
  exists embs, projs, heads, lns, inner.
  repeat split; try reflexivity. lia.
Qed.

(** A construction without [scale_input], with at least one head and an
    [inner_dim] returns. *)
Lemma Model_init_ok (n : nat) (config : Config) (prefix : string)
    (next next' : nat) (inner : pyval) embs projs heads lns :
  let sc := speculator_config config in
  let tie := default (PBool false) (sc !! "tie_weights") in
  let scl := default (PBool false) (sc !! "scale_input") in
  truthy scl = false ->
  (1 <= n)%nat ->
  sc !! "inner_dim" = Some inner ->
  build_lists get_tensor (truthy tie) n config prefix next
    = Ok ((embs, projs, heads, lns), next') ->
  Model_init get_tensor n config prefix next
  = Ok (mkModel n (hidden_size config) tie scl embs projs heads lns None
          (Weights.state_weight_of n)
          (Weights.emb_weight_of (Weights.state_weight_of n))
          (vocab_size config) inner (replicate n 1%nat), next').
Proof.
  intros sc tie scl Hscl Hn Hin Hb. unfold Model_init. fold sc tie scl.
  unfold cbind at 1. rewrite Hb, Hscl.
  destruct n as [|n0]; [lia|].
  unfold cbind at 1. unfold cret at 1.
  unfold cbind at 1. unfold cret at 1.
  unfold cbind at 1.
  pose proof (state_weight_sq_lt_1 (S n0) ltac:(lia)) as [_ Hlt].
  rewrite py_sqrt_nonneg by lra. simpl.
  unfold cbind. rewrite Hin. reflexivity.
Qed.

Lemma Model_init_returns (n : nat) (config : Config) (prefix : string)
    (next : nat) (inner : pyval) :
  let sc := speculator_config config in
  truthy (default (PBool false) (sc !! "scale_input")) = false ->
  (1 <= n)%nat ->
  sc !! "inner_dim" = Some inner ->
  exists m next', Model_init get_tensor n config prefix next = Ok (m, next').
Proof.
  intros sc Hscl Hn Hin.
  destruct (truthy (default (PBool false) (sc !! "tie_weights"))) eqn:Htie.
  - eexists _, _. eapply Model_init_ok; eauto.
    fold sc. rewrite Htie. apply build_lists_tied.
  - eexists _, _. eapply Model_init_ok; eauto.
    fold sc. rewrite Htie. apply build_lists_untied.
Qed.

End CtorFacts.

(** ** Object identities in the module lists *)

Section IdentityFacts.
Import Speculator.

Lemma remove_dups_NoDup (l : list nat) : NoDup l -> remove_dups l = l.
Proof.
  induction 1 as [|x l Hx _ IH]; simpl; [reflexivity|].
  destruct (decide_rel elem_of x l); [contradiction | by rewrite IH].
Qed.

Lemma distinct_NoDup (l : list nat) : NoDup l -> distinct l = length l.
Proof. intros H. unfold distinct. by rewrite remove_dups_NoDup. Qed.

Lemma remove_dups_replicate (n : nat) (x : nat) :
  remove_dups (replicate (S n) x) = [x].
Proof.
  induction n as [|n IH]; [reflexivity|].
  change (replicate (S (S n)) x) with (x :: replicate (S n) x).
  cbn [remove_dups].
  destruct (decide_rel elem_of x (replicate (S n) x)) as [_|Hn]; [exact IH|].
  exfalso. apply Hn. apply elem_of_replicate. split; [reflexivity | lia].
Qed.

Lemma distinct_replicate (n x : nat) : (1 <= n)%nat -> distinct (replicate n x) = 1%nat.
Proof.
  intros Hn. destruct n as [|n]; [lia|].
  unfold distinct. by rewrite remove_dups_replicate.
Qed.

Lemma distinct_first_then_tied (n x y : nat) :
  (2 <= n)%nat -> x <> y -> distinct (x :: replicate (n - 1) y) = 2%nat.
Proof.
  intros Hn Hxy. unfold distinct. cbn [remove_dups].
  destruct (decide_rel elem_of x (replicate (n - 1) y)) as [Hin|_].
  - apply elem_of_replicate in Hin as [-> _]. contradiction.
  - destruct n as [|[|n]]; [lia | lia |].
    replace (S (S n) - 1)%nat with (S n) by lia.
    by rewrite remove_dups_replicate.
Qed.

(** Identities handed out by a comprehension are consecutive. *)
Lemma ids_of_comprehension {B} (id_of : B -> nat) (g : nat -> nat -> B)
    (from n : nat) :
  (forall j i, id_of (g j i) = (from + j)%nat) ->
  id_of <$> imap g (seq 0 n) = seq from n.
Proof.
  intros Hid. rewrite fmap_imap.
  rewrite (imap_ext _ (fun j _ => (from + j)%nat)).
  2:{ intros j i _. simpl. apply Hid. }
  rewrite imap_seq_0, length_seq, fmap_add_seq. f_equal. lia.
Qed.

Lemma prefixes_of_comprehension {B} (prefix_of : B -> string)
    (g : nat -> nat -> B) (stem kind : string) (n : nat) :
  (forall j i, prefix_of (g j i) = stem +:+ kind +:+ pretty i) ->
  NoDup (prefix_of <$> imap g (seq 0 n)).
Proof.
  intros Hp. rewrite fmap_imap.
  rewrite (imap_ext _ (const (fun i : nat => stem +:+ kind +:+ pretty i))).
  2:{ intros j i _. simpl. apply Hp. }
  rewrite imap_const.
  apply NoDup_fmap_2_strong; [|apply NoDup_seq].
  intros i j _ _ Heq. apply (inj (String.append stem)) in Heq.
  apply (inj (String.append kind)) in Heq.
  by apply (inj pretty) in Heq.
Qed.

End IdentityFacts.

(** ** The forward pass reads the module lists, not the flags *)

Section ForwardFacts.
Import Speculator.
Variable embedding : string -> nat -> vec.
Variable linear : string -> vec -> vec.
Variable gelu : R -> R.

Lemma loop_set_tie (v : pyval) (m : Model) (b : nat) (top_k range : list nat)
    (st : loop_state) :
  loop embedding linear gelu (set_tie_weights v m) b top_k range st
  = loop embedding linear gelu m b top_k range st.
Proof.
  revert st. induction range as [|i rest IH]; intros st; [reflexivity|].
  cbn [loop].
  change (step embedding linear gelu (set_tie_weights v m) b top_k i st)
    with (step embedding linear gelu m b top_k i st).
  destruct (step embedding linear gelu m b top_k i st); simpl; auto.
Qed.

Lemma forward_set_tie (v : pyval) (m : Model) (hidden_states : list vec)
    (input_ids : list nat) :
  forward embedding linear gelu (set_tie_weights v m) hidden_states input_ids
  = forward embedding linear gelu m hidden_states input_ids.
Proof.
  unfold forward.
  change (scaled_input (set_tie_weights v m) hidden_states)
    with (scaled_input m hidden_states).
  destruct (scaled_input m hidden_states) as [s|e]; [|reflexivity].
  cbn [bind].
  change (top_k_tokens_per_head (set_tie_weights v m))
    with (top_k_tokens_per_head m).
  change (n_predict (set_tie_weights v m)) with (n_predict m).
  change (init_loop (set_tie_weights v m) s input_ids)
    with (init_loop m s input_ids).
  by rewrite loop_set_tie.
Qed.

(** The assertion of lines 156-158. *)
Lemma forward_top_k_mismatch (m : Model) (hidden_states : list vec)
    (input_ids : list nat) :
  length (top_k_tokens_per_head m) <> n_predict m ->
  is_ok (scaled_input m hidden_states) ->
  forward embedding linear gelu m hidden_states input_ids
  = Raise AssertionError.
Proof.
  intros Hlen [s Hs]. unfold forward. rewrite Hs. cbn [bind].
  destruct (length (top_k_tokens_per_head m) =? n_predict m)%nat eqn:E.
  - apply Nat.eqb_eq in E. contradiction.
  - reflexivity.
Qed.

End ForwardFacts.

(** ** Selection: [topk] and [argmax] *)

Section SelectFacts.

Lemma insert_desc_perm (p : nat * R) (l : list (nat * R)) :
  insert_desc p l ≡ₚ p :: l.
Proof.
  induction l as [|q l IH]; simpl; [reflexivity|].
  destruct (Rlt_dec (snd p) (snd q)); [|reflexivity].
  rewrite IH. apply Permutation_swap.
Qed.

Lemma sort_desc_perm (l : list (nat * R)) : sort_desc l ≡ₚ l.
Proof.
  induction l as [|p l IH]; simpl; [reflexivity|].
  by rewrite insert_desc_perm, IH.
Qed.

Lemma insert_desc_sorted (p : nat * R) (l : list (nat * R)) :
  StronglySorted desc l -> StronglySorted desc (insert_desc p l).
Proof.
  induction l as [|q l IH]; intros Hs; simpl.
  - repeat constructor.
  - apply StronglySorted_cons in Hs as [Hq Hl].
    destruct (Rlt_dec (snd p) (snd q)) as [Hlt|Hge].
    + apply StronglySorted_cons. split; [|by apply IH].
      rewrite insert_desc_perm. constructor; [|exact Hq].
      unfold desc. lra.
    + apply StronglySorted_cons. split.
      * assert (Hpq : desc p q) by (unfold desc; lra).
        constructor; [exact Hpq|].
        eapply Forall_impl; [exact Hq|].
        intros r Hr. unfold desc in *. lra.
      * apply StronglySorted_cons. by split.
Qed.

Lemma sort_desc_sorted (l : list (nat * R)) : StronglySorted desc (sort_desc l).
Proof.
  induction l as [|p l IH]; simpl; [constructor | by apply insert_desc_sorted].
Qed.

Lemma elem_of_indexed (row : vec) (i : nat) (x : R) :
  (i, x) ∈ indexed row <-> row !! i = Some x.
Proof.
  unfold indexed. rewrite list_elem_of_lookup. split.
  - intros [a Ha]. apply lookup_zip_Some in Ha as [Hs Hr].
    apply lookup_seq in Hs as [-> _]. exact Hr.
  - intros Hr. exists i. apply lookup_zip_Some. split; [|exact Hr].
    apply lookup_seq. split; [reflexivity|].
    by apply lookup_lt_Some in Hr.
Qed.

Lemma fst_indexed (row : vec) : (indexed row).*1 = seq 0 (length row).
Proof. unfold indexed. apply fst_zip. by rewrite length_seq. Qed.

Lemma elem_of_sort_indexed (row : vec) (i : nat) (x : R) :
  (i, x) ∈ sort_desc (indexed row) <-> row !! i = Some x.
Proof. by rewrite sort_desc_perm, elem_of_indexed. Qed.

Lemma length_sort_indexed (row : vec) :
  length (sort_desc (indexed row)) = length row.
Proof.
  rewrite (Permutation_length (sort_desc_perm _)).
  unfold indexed. rewrite length_zip, length_seq. lia.
Qed.

Lemma NoDup_sort_indexed (row : vec) : NoDup (sort_desc (indexed row)).*1.
Proof.
  rewrite (sort_desc_perm (indexed row)), fst_indexed. apply NoDup_seq.
Qed.

Lemma topk_is_top_k (k : nat) (row : vec) (l : list nat) :
  topk k row = Ok l -> is_top_k row k l.
Proof.
  unfold topk. destruct (length row <? k)%nat eqn:Hk; [discriminate|].
  apply Nat.ltb_ge in Hk. intros [= <-].
  set (s := sort_desc (indexed row)).
  assert (Hlen : length s = length row) by apply length_sort_indexed.
  assert (Hsorted : StronglySorted desc s) by apply sort_desc_sorted.
  assert (Hnd : NoDup s.*1) by apply NoDup_sort_indexed.
  assert (Hval : forall a i x, s !! a = Some (i, x) -> row !! i = Some x).
  { intros a i x Ha. apply elem_of_sort_indexed.
    by eapply list_elem_of_lookup_2. }
  assert (Hfst : forall a i, s.*1 !! a = Some i ->
                             exists x, s !! a = Some (i, x)).
  { intros a i Ha. rewrite list_lookup_fmap in Ha.
    destruct (s !! a) as [[i' x]|]; [|discriminate].
    injection Ha as <-. by exists x. }
  repeat split.
  - rewrite length_take, length_fmap. lia.
  - rewrite <- (take_drop k s.*1) in Hnd. by apply NoDup_app in Hnd as [? _].
  - intros i Hi. apply elem_of_take in Hi as (a & Ha & _).
    destruct (Hfst a i Ha) as [x Hx]. exists x. by eapply Hval.
  - intros a b i j x y Hab Ha Hb Hx Hy.
    apply lookup_take_Some in Ha as [Ha Hak].
    apply lookup_take_Some in Hb as [Hb Hbk].
    destruct (Hfst a i Ha) as [x' Hx'], (Hfst b j Hb) as [y' Hy'].
    rewrite (Hval _ _ _ Hx') in Hx. rewrite (Hval _ _ _ Hy') in Hy.
    injection Hx as ->. injection Hy as ->.
    rewrite <- (take_drop b s) in Hsorted.
    change (desc (i, x) (j, y)).
    eapply StronglySorted_app_1_elem_of; [exact Hsorted | |].
    + apply elem_of_take. exists a. by split.
    + apply list_elem_of_lookup. exists 0%nat.
      rewrite lookup_drop. by rewrite Nat.add_0_r.
  - intros i j x y Hi Hj Hx Hy.
    apply elem_of_take in Hi as (a & Ha & Hak).
    destruct (Hfst a i Ha) as [x' Hx'].
    rewrite (Hval _ _ _ Hx') in Hx. injection Hx as ->.
    assert (Hjs : (j, y) ∈ s) by by apply elem_of_sort_indexed.
    rewrite <- (take_drop k s) in Hsorted, Hjs.
    apply elem_of_app in Hjs as [Hjt|Hjd].
    + exfalso. apply Hj. rewrite <- fmap_take.
      apply list_elem_of_fmap. by exists (j, y).
    + change (desc (i, x) (j, y)).
      eapply StronglySorted_app_1_elem_of; [exact Hsorted | | exact Hjd].
      apply elem_of_take. exists a. by split.
Qed.

Lemma topk_ok (k : nat) (row : vec) :
  (k <= length row)%nat -> is_ok (topk k row).
Proof.
  intros Hk. unfold topk.
  destruct (length row <? k)%nat eqn:E; [apply Nat.ltb_lt in E; lia|].
  eexists. reflexivity.
Qed.

Lemma length_topk (k : nat) (row : vec) (l : list nat) :
  topk k row = Ok l -> length l = k.
Proof. intros H. by apply topk_is_top_k in H as [? _]. Qed.

Lemma argmax_is_argmax (row : vec) (i : nat) :
  argmax row = Ok i -> is_argmax row i.
Proof.
  unfold argmax.
  pose proof (sort_desc_sorted (indexed row)) as Hs.
  pose proof (elem_of_sort_indexed row) as Hel.
  destruct (sort_desc (indexed row)) as [|[i' x] s]; [discriminate|].
  intros [= <-]. exists x. split.
  - apply Hel. left.
  - intros j y Hy. apply Hel in Hy.
    apply StronglySorted_cons in Hs as [Hall _].
    apply elem_of_cons in Hy as [[= -> ->]|Hy]; [simpl; lra|].
    rewrite Forall_forall in Hall. exact (Hall (j, y) Hy).
Qed.

Lemma argmax_ok (row : vec) : row <> [] -> is_ok (argmax row).
Proof.
  intros Hrow. unfold argmax.
  pose proof (length_sort_indexed row) as Hlen.
  destruct (sort_desc (indexed row)) as [|p s].
  - destruct row; [contradiction | discriminate].
  - eexists. reflexivity.
Qed.

Example topk_largest_first : topk 2 [1; 3; 2] = Ok [1; 2]%nat.
Proof.
  unfold topk, sort_desc, indexed. simpl.
  repeat (destruct (Rlt_dec _ _); try lra; simpl). reflexivity.
Qed.

Example topk_equal_cells : topk 1 [2; 2] = Ok [0%nat].
Proof.
  unfold topk, sort_desc, indexed. simpl.
  repeat (destruct (Rlt_dec _ _); try lra; simpl). reflexivity.
Qed.

Example topk_beyond_vocabulary : topk 3 [1; 3] = Raise RuntimeError.
Proof. reflexivity. Qed.

Example argmax_second : argmax [0; 1] = Ok 1%nat.
Proof.
  unfold argmax, sort_desc, indexed. simpl.
  repeat (destruct (Rlt_dec _ _); try lra; simpl). reflexivity.
Qed.

Example argmax_empty : argmax [] = Raise IndexError.
Proof. reflexivity. Qed.

End SelectFacts.

(** ** Claims about construction *)

Section ConstructionClaims.
Import Speculator Examples.

(** C7: for every N >= 1, a construction that returns has set
    state_weight = 0.5^(0.5/N) and emb_weight = sqrt(1 - state_weight^2);
    over the reals state_weight^2 + emb_weight^2 = 1, and both weights lie
    strictly between 0 and 1. *)
Theorem mixing_weights_unit_norm (get_tensor : string -> vec) (n : nat)
    (config : Config) (prefix : string) (next next' : nat) (m : Model) :
  (1 <= n)%nat ->
  Model_init get_tensor n config prefix next = Ok (m, next') ->
  state_weight m = Rpower (1 / 2) ((1 / 2) / INR n)
  /\ emb_weight m = sqrt (1 - state_weight m ^ 2)
  /\ state_weight m ^ 2 + emb_weight m ^ 2 = 1
  /\ 0 < state_weight m < 1
  /\ 0 < emb_weight m < 1.
Proof.
  intros Hn Hinit.
  apply Model_init_inv in Hinit as (embs & projs & heads & lns & inner & _ & _ & _ & _ & ->).
  cbn [state_weight emb_weight].
  pose proof (emb_weight_sq n Hn) as Hsq.
  pose proof (emb_weight_bounds n Hn) as Hew.
  pose proof (state_weight_pos n) as Hpos.
  pose proof (state_weight_lt_1 n Hn) as Hlt.
  repeat split; try tauto; try reflexivity.
  rewrite Hsq. lra.
Qed.

Lemma cfg_plain_init (n next : nat) :
  (1 <= n)%nat ->
  exists m, Model_init ex_get_tensor n cfg_plain "speculator" next
            = Ok (m, (next + 4 * n)%nat)
            /\ top_k_tokens_per_head m = replicate n 1%nat
            /\ n_predict m = n.
Proof.
  intros Hn. eexists. split.
  - eapply Model_init_ok; [reflexivity | exact Hn | reflexivity |].
    apply build_lists_untied.
  - split; reflexivity.
Qed.

Lemma mixing_weights_witness :
  exists m,
    Model_init ex_get_tensor 3 cfg_plain "speculator" 0%nat = Ok (m, 12%nat)
    /\ state_weight m ^ 2 + emb_weight m ^ 2 = 1.
Proof.
  destruct (cfg_plain_init 3 0%nat ltac:(lia)) as (m & Hm & _).
  exists m. split; [exact Hm|].
  apply (mixing_weights_unit_norm ex_get_tensor 3 cfg_plain "speculator"
           0%nat 12%nat m ltac:(lia) Hm).
Defined.

(** C6: with tie_weights set, a construction that returns has created
    five objects: one embedding table, one output projection and one
    normalizer, each repeated N times in its list, and two state
    projections of distinct identity, the first at step 0 and the second at
    steps 1..N-1; without it, it has created 4 N objects, N per list, all
    of distinct identity and read from distinct checkpoint prefixes.  The
    forward pass does not depend on the flag. *)
Theorem weight_tying_layout (get_tensor : string -> vec) (n : nat)
    (config : Config) (prefix : string) (next next' : nat) (m : Model) :
  Model_init get_tensor n config prefix next = Ok (m, next') ->
  (truthy (tie_weights m) = true ->
     exists e p_first p_tied h l,
       emb m = replicate n e
       /\ proj m = p_first :: replicate (n - 1) p_tied
       /\ head m = replicate n h
       /\ ln m = replicate n l
       /\ next' = (next + 5)%nat
       /\ emb_id e = next
       /\ lin_id p_first = (next + 1)%nat
       /\ lin_id p_tied = (next + 2)%nat
       /\ lin_id h = (next + 3)%nat
       /\ LayerNorm.ln_id l = (next + 4)%nat
       /\ lin_id p_first <> lin_id p_tied
       /\ distinct (emb_id <$> emb m) = 1%nat
       /\ ((2 <= n)%nat -> distinct (lin_id <$> proj m) = 2%nat)
       /\ distinct (lin_id <$> head m) = 1%nat
       /\ distinct (LayerNorm.ln_id <$> ln m) = 1%nat)
  /\ (truthy (tie_weights m) = false ->
        next' = (next + 4 * n)%nat
        /\ length (emb m) = n /\ length (proj m) = n
        /\ length (head m) = n /\ length (ln m) = n
        /\ NoDup ((emb_id <$> emb m) ++ (lin_id <$> proj m)
                  ++ (lin_id <$> head m) ++ (LayerNorm.ln_id <$> ln m))
        /\ NoDup (emb_prefix <$> emb m)
        /\ NoDup (lin_prefix <$> proj m)
        /\ NoDup (lin_prefix <$> head m)
        /\ distinct (emb_id <$> emb m) = n
        /\ distinct (lin_id <$> proj m) = n
        /\ distinct (lin_id <$> head m) = n
        /\ distinct (LayerNorm.ln_id <$> ln m) = n)
  /\ (forall embedding linear gelu v hidden_states input_ids,
        forward embedding linear gelu (set_tie_weights v m)
          hidden_states input_ids
        = forward embedding linear gelu m hidden_states input_ids).
Proof.
  intros Hinit.
  apply Model_init_inv in Hinit
    as (embs & projs & heads & lns & inner & Hb & _ & Hn & _ & ->).
  cbn [tie_weights emb proj head ln].
  split; [|split].
  - intros Htie. rewrite Htie, build_lists_tied in Hb.
    injection Hb as <- <- <- <- <-.
    eexists _, _, _, _, _.
    do 10 (split; [reflexivity|]).
    split; [simpl; lia|].
    rewrite !fmap_replicate.
    split; [by apply distinct_replicate|].
    split; [|split; by apply distinct_replicate].
    intros Hn2. simpl. rewrite fmap_replicate.
    apply distinct_first_then_tied; simpl; lia.
  - intros Htie. rewrite Htie, build_lists_untied in Hb.
    injection Hb as <- <- <- <- <-.
    rewrite !length_imap, !length_seq.
    rewrite (ids_of_comprehension emb_id _ next n) by reflexivity.
    rewrite (ids_of_comprehension lin_id _ (next + n) n) by reflexivity.
    rewrite (ids_of_comprehension lin_id _ (next + 2 * n) n) by reflexivity.
    rewrite (ids_of_comprehension LayerNorm.ln_id _ (next + 3 * n) n)
      by reflexivity.
    repeat split; try reflexivity.
    + replace (next + 2 * n)%nat with (next + n + n)%nat by lia.
      replace (next + 3 * n)%nat with (next + n + n + n)%nat by lia.
      rewrite <- !seq_app. apply NoDup_seq.
    + by apply (prefixes_of_comprehension emb_prefix _ prefix ".emb.").
    + by apply (prefixes_of_comprehension lin_prefix _ prefix ".proj.").
    + by apply (prefixes_of_comprehension lin_prefix _ prefix ".head.").
    + rewrite distinct_NoDup by apply NoDup_seq. apply length_seq.
    + rewrite distinct_NoDup by apply NoDup_seq. apply length_seq.
    + rewrite distinct_NoDup by apply NoDup_seq. apply length_seq.
    + rewrite distinct_NoDup by apply NoDup_seq. apply length_seq.
  - intros. apply forward_set_tie.
Qed.

Lemma cfg_tied_init :
  exists m, Model_init ex_get_tensor 3 cfg_tied "speculator" 0%nat
            = Ok (m, 5%nat)
            /\ truthy (tie_weights m) = true.
Proof.
  eexists. split.
  - eapply Model_init_ok; [reflexivity | lia | reflexivity |].
    apply build_lists_tied.
  - reflexivity.
Qed.

Lemma weight_tying_layout_witness :
  exists m,
    Model_init ex_get_tensor 3 cfg_tied "speculator" 0%nat = Ok (m, 5%nat)
    /\ distinct (emb_id <$> emb m) = 1%nat
    /\ distinct (lin_id <$> proj m) = 2%nat.
Proof.
  destruct cfg_tied_init as (m & Hm & Htie).
  exists m. split; [exact Hm|].
  destruct (weight_tying_layout ex_get_tensor 3 cfg_tied "speculator"
              0%nat 5%nat m Hm) as (Htied & _ & _).
  destruct (Htied Htie) as (e & p0 & p1 & h & l & _ & _ & _ & _ & _ & _
                            & _ & _ & _ & _ & _ & Hemb & Hproj & _).
  split; [exact Hemb | apply Hproj; lia].
Defined.

(** With [scale_input] set, line 126 calls the normalizer's constructor
    without [config] and [weights]: the construction raises. *)
Lemma Model_init_scale_input (get_tensor : string -> vec) (n : nat)
    (config : Config) (prefix : string) (next : nat) :
  truthy (default (PBool false) (speculator_config config !! "scale_input"))
    = true ->
  Model_init get_tensor n config prefix next = Raise TypeError.
Proof.
  intros Hscl. unfold Model_init. unfold cbind at 1.
  destruct (truthy (default (PBool false)
                      (speculator_config config !! "tie_weights"))).
  - rewrite build_lists_tied, Hscl. reflexivity.
  - rewrite build_lists_untied, Hscl. reflexivity.
Qed.

(** C5: with scale_input set the construction should succeed and create
    one more normalizer without affine parameters; here it is run on a
    configuration with scale_input = True and three heads, and raises
    [TypeError]. *)
Theorem scale_input_construction_raises :
  Model_init ex_get_tensor 3 cfg_scale_input "speculator" 0%nat
  = Raise TypeError.
Proof. apply Model_init_scale_input. reflexivity. Qed.

(** The forward half of the same claim, on a model that holds [ln0]: the
    hidden state is normalized without affine parameters and divided by
    [SQRT2] before the loop; without [scale_input] it is passed as it is. *)
Lemma scaled_input_cases (m : Model) (hidden_states : list vec) :
  (truthy (scale_input m) = false ->
     scaled_input m hidden_states
     = Ok (Tensor.mk [length hidden_states] hidden_states))
  /\ (forall l0,
        truthy (scale_input m) = true -> ln0 m = Some l0 ->
        LayerNorm.elementwise_scale_and_shift l0 = false ->
        scaled_input m hidden_states
        = Ok (Tensor.mk [length hidden_states]
                (map (fun row =>
                        map (fun a => a / SQRT2)
                          (LayerNorm.normalize (LayerNorm.eps l0) row))
                   hidden_states))).
Proof.
  split.
  - intros H. unfold scaled_input. by rewrite H.
  - intros l0 H Hl0 Haff. unfold scaled_input, LayerNorm.forward.
    rewrite H, Hl0, Haff. cbn [bind]. unfold tmap. cbn [dims cells].
    by rewrite map_map.
Qed.

(** C4, as stated, fails: a configuration that carries a top-k list of two
    entries is constructed with three heads, and the construction returns
    a model whose top-k list is three ones. *)
Lemma construction_ignores_configured_top_k :
  speculator_config cfg_top_k !! "top_k_tokens_per_head"
    = Some (PList [4; 3]%Z)
  /\ exists m,
       Model_init ex_get_tensor 3 cfg_top_k "speculator" 0%nat
         = Ok (m, 12%nat)
       /\ top_k_tokens_per_head m = [1; 1; 1]%nat.
Proof.
  split; [reflexivity|].
  eexists. split.
  - eapply Model_init_ok; [reflexivity | lia | reflexivity |].
    apply build_lists_untied.
  - reflexivity.
Qed.

(** C4, amended: the construction takes no top-k list; it sets the list to
    N ones, so its length is N after every construction that returns.  A
    forward call on a model whose list has since been given another length
    raises the assertion error of lines 156-158 once the input has been
    rescaled, before any step of the loop. *)
Theorem top_k_length_checked_at_forward :
  (forall get_tensor n config prefix next next' m,
     Model_init get_tensor n config prefix next = Ok (m, next') ->
     top_k_tokens_per_head m = replicate n 1%nat
     /\ length (top_k_tokens_per_head m) = n_predict m)
  /\ (forall embedding linear gelu m hidden_states input_ids,
        length (top_k_tokens_per_head m) <> n_predict m ->
        is_ok (scaled_input m hidden_states) ->
        forward embedding linear gelu m hidden_states input_ids
        = Raise AssertionError).
Proof.
  split.
  - intros get_tensor n config prefix next next' m Hinit.
    apply Model_init_inv in Hinit
      as (embs & projs & heads & lns & inner & _ & _ & _ & _ & ->).
    cbn [top_k_tokens_per_head n_predict].
    split; [reflexivity | apply length_replicate].
  - intros. by apply forward_top_k_mismatch.
Qed.

Lemma top_k_length_checked_at_forward_witness :
  exists m,
    Model_init ex_get_tensor 3 cfg_plain "speculator" 0%nat = Ok (m, 12%nat)
    /\ length (top_k_tokens_per_head m) = n_predict m
    /\ forward ex_embedding ex_linear ex_gelu (set_top_k [1; 1]%nat m)
         [[1; 0]] [0%nat]
       = Raise AssertionError.
Proof.
  destruct (cfg_plain_init 3 0%nat ltac:(lia)) as (m & Hm & Htop & Hn).
  destruct top_k_length_checked_at_forward as [Hctor Hfwd].
  exists m. split; [exact Hm|]. split.
  - exact (proj2 (Hctor ex_get_tensor 3%nat cfg_plain "speculator"
                    0%nat 12%nat m Hm)).
  - apply Hfwd.
    + cbn [set_top_k top_k_tokens_per_head n_predict]. rewrite Hn.
      simpl. lia.
    + apply Model_init_inv in Hm
        as (embs & projs & heads & lns & inner & _ & _ & _ & _ & ->).
      eexists. reflexivity.
Defined.

End ConstructionClaims.

(** ** The error monad on lists *)

Section MapMFacts.
Context {A B : Type}.
Implicit Types (f : A -> result B) (l : list A) (ys : list B).

Lemma mapM_Ok f l ys :
  mapM f l = Ok ys <-> Forall2 (fun x y => f x = Ok y) l ys.
Proof.
  revert ys. induction l as [|x l IH]; intros ys; simpl.
  - split; [intros [= <-]; constructor | by inversion 1].
  - destruct (f x) as [y|e] eqn:Hx; simpl.
    + destruct (mapM f l) as [ys'|e] eqn:Hl; simpl.
      * split.
        -- intros [= <-]. constructor; [done | by apply IH].
        -- inversion 1 as [|? y' ? ys'' Hy Hrest]; subst.
           apply IH in Hrest. congruence.
      * split; [discriminate|].
        inversion 1 as [|? y' ? ys'' Hy Hrest]; subst.
        apply IH in Hrest. discriminate.
    + split; [discriminate|].
      inversion 1 as [|? y' ? ys'' Hy Hrest]; subst. congruence.
Qed.

Lemma mapM_total f l : (forall x, x ∈ l -> is_ok (f x)) -> is_ok (mapM f l).
Proof.
  induction l as [|x l IH]; intros Hall; simpl.
  - by eexists.
  - destruct (Hall x) as [y Hy]; [left|]. rewrite Hy. simpl.
    destruct IH as [ys Hys].
    { intros x' Hx'. apply Hall. by right. }
    rewrite Hys. by eexists.
Qed.

Lemma mapM_pure (g : A -> B) l : mapM (fun x => Ok (g x)) l = Ok (map g l).
Proof. induction l as [|x l IH]; simpl; [done | by rewrite IH]. Qed.

Lemma length_mapM f l ys : mapM f l = Ok ys -> length ys = length l.
Proof. intros H. apply mapM_Ok in H. symmetry. by eapply Forall2_length. Qed.

Lemma mapM_ext f (g : A -> result B) l :
  (forall x, x ∈ l -> f x = g x) -> mapM f l = mapM g l.
Proof.
  induction l as [|x l IH]; intros Hall; simpl; [done|].
  rewrite (Hall x) by left. rewrite IH; [done|].
  intros x' Hx'. apply Hall. by right.
Qed.

End MapMFacts.

(** ** Claims about the head wrapper *)

Section HeadClaims.
Import Speculator Examples.

Lemma mapM_argmax (rows : list vec) :
  (forall row, row ∈ rows -> row <> []) ->
  exists ids, mapM argmax rows = Ok ids /\ Forall2 is_argmax rows ids.
Proof.
  intros Hne.
  destruct (mapM_total argmax rows) as [ids Hids].
  { intros row Hrow. apply argmax_ok. by apply Hne. }
  exists ids. split; [exact Hids|].
  apply mapM_Ok in Hids.
  eapply Forall2_impl; [exact Hids|].
  intros row i. apply argmax_is_argmax.
Qed.

(** C3: the wrapper always calls the LM head; above 128 rows it returns
    (logits, None) and the speculator is not called; with at most 128 rows
    it takes the arg-max of every row of the logits, calls the speculator
    on the input and those ids, and returns the logits with its result. *)
Theorem head_forward_threshold (lm_head : vec -> vec)
    (mlp_speculator : list vec -> list nat -> result (list (list vec)))
    (input : list vec) :
  let logits := map lm_head input in
  ((128 < length input)%nat ->
     Head.forward lm_head mlp_speculator input
     = ([Head.CallLmHead], Ok (logits, None)))
  /\ ((length input <= 128)%nat ->
      (forall row, row ∈ logits -> row <> []) ->
      exists input_ids,
        Forall2 is_argmax logits input_ids
        /\ Head.forward lm_head mlp_speculator input
           = ([Head.CallLmHead; Head.CallSpeculator],
              do all_probs <- mlp_speculator input input_ids;
              Ok (logits, Some all_probs))).
Proof.
  intros logits. unfold Head.forward, Head.lm_head_forward. fold logits.
  split.
  - intros HB. apply Nat.ltb_lt in HB. by rewrite HB.
  - intros HB Hne. apply Nat.ltb_ge in HB. rewrite HB.
    destruct (mapM_argmax logits Hne) as (ids & Hids & Harg).
    exists ids. split; [exact Harg|]. by rewrite Hids.
Qed.

Lemma head_forward_threshold_witness :
  exists m,
    Model_init ex_get_tensor 3 cfg_plain "speculator" 0%nat = Ok (m, 12%nat)
    /\ Head.forward (ex_linear "lm_head")
         (forward ex_embedding ex_linear ex_gelu m) (replicate 129 [1; 0])
       = ([Head.CallLmHead],
          Ok (map (ex_linear "lm_head") (replicate 129 [1; 0]), None))
    /\ fst (Head.forward (ex_linear "lm_head")
              (forward ex_embedding ex_linear ex_gelu m)
              (replicate 128 [0; 1]))
       = [Head.CallLmHead; Head.CallSpeculator]
    /\ exists input_ids,
         Forall2 is_argmax (map (ex_linear "lm_head") [[0; 1]]) input_ids
         /\ Head.forward (ex_linear "lm_head")
              (forward ex_embedding ex_linear ex_gelu m) [[0; 1]]
            = ([Head.CallLmHead; Head.CallSpeculator],
               do all_probs <- forward ex_embedding ex_linear ex_gelu m
                                 [[0; 1]] input_ids;
               Ok (map (ex_linear "lm_head") [[0; 1]], Some all_probs)).
Proof.
  destruct (cfg_plain_init 3 0%nat ltac:(lia)) as (m & Hm & _).
  exists m. split; [exact Hm|]. split; [|split].
  - apply (head_forward_threshold (ex_linear "lm_head")
             (forward ex_embedding ex_linear ex_gelu m)
             (replicate 129 [1; 0])).
    rewrite length_replicate. lia.
  - destruct (proj2 (head_forward_threshold (ex_linear "lm_head")
                       (forward ex_embedding ex_linear ex_gelu m)
                       (replicate 128 [0; 1]))) as (ids & _ & Heq).
    + rewrite length_replicate. lia.
    + intros row Hrow.
      apply list_elem_of_fmap in Hrow as (r & -> & _). discriminate.
    + by rewrite Heq.
  - apply (head_forward_threshold (ex_linear "lm_head")
             (forward ex_embedding ex_linear ex_gelu m) [[0; 1]]).
    + simpl. lia.
    + intros row Hrow. simpl in Hrow.
      apply list_elem_of_singleton in Hrow. subst row. discriminate.
Defined.

End HeadClaims.

(** ** Claims about checkpoint routing *)

Section RoutingClaims.
Import Examples.

Lemma claim_keys_spec (filename : string) (keys : list string)
    (routing : gmap string string) :
  match Head.claim_keys filename keys routing with
  | Ok routing' =>
      (forall k owner,
         k ∈ keys -> routing !! k = Some owner -> owner = filename)
      /\ (forall k f,
            routing' !! k = Some f
            <-> (k ∈ keys /\ f = filename) \/ routing !! k = Some f)
  | Raise e =>
      e = RuntimeError
      /\ exists k owner,
           k ∈ keys /\ routing !! k = Some owner /\ owner <> filename
  end.
Proof.
  revert routing. induction keys as [|k0 keys IH]; intros routing; simpl.
  - split; [intros k owner Hk; by apply elem_of_nil in Hk|].
    intros k f. split; [by right|].
    intros [[Hk _]|H]; [by apply elem_of_nil in Hk | exact H].
  - destruct (routing !! k0) as [owner0|] eqn:Hk0.
    + destruct (bool_decide (owner0 = filename)) eqn:Hown.
      * apply bool_decide_eq_true in Hown as ->.
        rewrite (insert_id routing k0 filename Hk0).
        specialize (IH routing).
        destruct (Head.claim_keys filename keys routing) as [r'|e].
        -- destruct IH as [Hfree Hlook]. split.
           ++ intros k owner Hk Hr. apply elem_of_cons in Hk as [->|Hk].
              ** congruence.
              ** by eapply Hfree.
           ++ intros k f. rewrite Hlook. rewrite elem_of_cons. split.
              ** intros [[Hk ->]|H]; [left; by auto | by right].
              ** intros [[[->|Hk] ->]|H]; [by right | left; by auto | by right].
        -- destruct IH as [-> (k & owner & Hk & Hr & Hne)]. split; [done|].
           exists k, owner. split; [by right | by split].
      * apply bool_decide_eq_false in Hown. split; [done|].
        exists k0, owner0. split; [by left | by split].
    + specialize (IH (<[k0 := filename]> routing)).
      destruct (Head.claim_keys filename keys (<[k0 := filename]> routing))
        as [r'|e].
      * destruct IH as [Hfree Hlook]. split.
        -- intros k owner Hk Hr. apply elem_of_cons in Hk as [->|Hk].
           ++ congruence.
           ++ apply (Hfree k owner Hk). rewrite lookup_insert_ne; [done|].
              intros <-. congruence.
        -- intros k f. rewrite Hlook, elem_of_cons.
           destruct (decide (k0 = k)) as [<-|Hne].
           ++ rewrite lookup_insert_eq, Hk0. split.
              ** intros [[_ ->]|[= <-]]; left; by auto.
              ** intros [[_ ->]|?]; [right; done | done].
           ++ rewrite lookup_insert_ne by done. split.
              ** intros [[Hk ->]|H]; [left; by auto | by right].
              ** intros [[[->|Hk] ->]|H]; [done | left; by auto | by right].
      * destruct IH as [-> (k & owner & Hk & Hr & Hne)]. split; [done|].
        destruct (decide (k0 = k)) as [<-|Hne0].
        -- rewrite lookup_insert_eq in Hr. congruence.
        -- rewrite lookup_insert_ne in Hr by done.
           exists k, owner. split; [by right | by split].
Qed.

Section Route.
Variable path_join : string -> string -> string.
Variable keys_of : string -> list string.
Variable get_tensor : string -> vec.

Local Abbreviation claimed := (Head.claimed path_join keys_of).
Local Abbreviation route := (Head.route path_join keys_of).

Lemma claimed_cons (dir fname : string) (rest : list string)
    (routing r1 : gmap string string) :
  (forall k f,
     r1 !! k = Some f
     <-> (k ∈ keys_of (path_join dir fname) /\ f = path_join dir fname)
         \/ routing !! k = Some f) ->
  forall k f, claimed dir rest r1 k f <-> claimed dir (fname :: rest) routing k f.
Proof.
  intros Hr1 k f. unfold Head.claimed. rewrite Hr1. split.
  - intros [[[Hk ->]|H]|(fn & Hin & -> & Hk)].
    + right. exists fname. split; [by left | by split].
    + by left.
    + right. exists fn. split; [by right | by split].
  - intros [H|(fn & Hin & -> & Hk)].
    + left. by right.
    + apply elem_of_cons in Hin as [->|Hin].
      * left. left. by split.
      * right. exists fn. by split.
Qed.

Lemma route_spec (dir : string) (model_paths : list string)
    (routing : gmap string string) :
  match route dir model_paths routing with
  | Ok routing' =>
      (forall k f1 f2,
         claimed dir model_paths routing k f1 ->
         claimed dir model_paths routing k f2 -> f1 = f2)
      /\ (forall k f,
            routing' !! k = Some f <-> claimed dir model_paths routing k f)
  | Raise e =>
      e = RuntimeError
      /\ exists k f1 f2,
           claimed dir model_paths routing k f1
           /\ claimed dir model_paths routing k f2
           /\ f1 <> f2
  end.
Proof.
  revert routing. induction model_paths as [|fname rest IH]; intros routing.
  - simpl. split.
    + intros k f1 f2 [H1|(fn & Hin & _)] [H2|(fn' & Hin' & _)];
        try (by apply elem_of_nil in Hin);
        try (by apply elem_of_nil in Hin'). congruence.
    + intros k f. split; [by left|].
      intros [H|(fn & Hin & _)]; [done | by apply elem_of_nil in Hin].
  - cbn [Head.route].
    pose proof (claim_keys_spec (path_join dir fname)
                  (keys_of (path_join dir fname)) routing) as Hck.
    destruct (Head.claim_keys (path_join dir fname)
                (keys_of (path_join dir fname)) routing) as [r1|e];
      cbn [bind].
    + destruct Hck as [_ Hlook].
      pose proof (claimed_cons dir fname rest routing r1 Hlook) as Heq.
      specialize (IH r1).
      destruct (route dir rest r1) as [r'|e].
      * destruct IH as [Hfree Hr']. split.
        -- intros k f1 f2 H1 H2. apply (Hfree k); by apply Heq.
        -- intros k f. by rewrite Hr', Heq.
      * destruct IH as [-> (k & f1 & f2 & H1 & H2 & Hne)]. split; [done|].
        exists k, f1, f2. split; [by apply Heq|]. split; [by apply Heq|done].
    + destruct Hck as [-> (k & owner & Hk & Hr & Hne)]. split; [done|].
      exists k, owner, (path_join dir fname).
      split; [by left|]. split; [|done].
      right. exists fname. split; [by left | by split].
Qed.

End Route.

(** C9: when some key is claimed by two different files (a file of the
    speculator, or the file the routing table already names), the routing
    loop raises and [load] raises before the model is constructed; when
    no key is claimed by two different files the loop returns, the table
    it returns sends every claimed key to the file that claims it, and
    [load] proceeds to the construction of the speculator: it raises what
    the constructor raises and otherwise returns a head that holds the
    constructed model, that table and the prefix of the LM head, which it
    does for every configuration the constructor accepts. *)
Theorem routing_conflict_detected (path_join : string -> string -> string)
    (keys_of : string -> list string) (dir : string)
    (model_paths : list string) (routing : gmap string string) :
  ((exists k f1 f2,
      Head.claimed path_join keys_of dir model_paths routing k f1
      /\ Head.claimed path_join keys_of dir model_paths routing k f2
      /\ f1 <> f2) ->
   Head.route path_join keys_of dir model_paths routing = Raise RuntimeError
   /\ forall get_tensor n config prefix next,
        Head.load path_join keys_of get_tensor n config dir model_paths
          prefix routing next
        = Raise RuntimeError)
  /\ ((forall k f1 f2,
         Head.claimed path_join keys_of dir model_paths routing k f1 ->
         Head.claimed path_join keys_of dir model_paths routing k f2 ->
         f1 = f2) ->
      exists routing',
        Head.route path_join keys_of dir model_paths routing = Ok routing'
        /\ (forall k f,
              Head.claimed path_join keys_of dir model_paths routing k f ->
              routing' !! k = Some f)
        /\ (forall get_tensor n config prefix next,
              Head.load path_join keys_of get_tensor n config dir
                model_paths prefix routing next
              = match Speculator.Model_init get_tensor n config
                        "speculator" next with
                | Ok (m, next') => Ok (Head.mk prefix m routing', next')
                | Raise e => Raise e
                end)
        /\ (forall get_tensor n config prefix next inner,
              Speculator.truthy
                (default (Speculator.PBool false)
                   (Speculator.speculator_config config !! "scale_input"))
              = false ->
              (1 <= n)%nat ->
              Speculator.speculator_config config !! "inner_dim"
              = Some inner ->
              exists h next',
                Head.load path_join keys_of get_tensor n config dir
                  model_paths prefix routing next
                = Ok (h, next')
                /\ Head.routing_table h = routing'
                /\ Head.lm_head_prefix h = prefix
                /\ Speculator.Model_init get_tensor n config "speculator"
                     next
                   = Ok (Head.speculator h, next'))).
Proof.
  pose proof (route_spec path_join keys_of dir model_paths routing) as Hspec.
  split.
  - intros (k & f1 & f2 & H1 & H2 & Hne). unfold Head.load.
    destruct (Head.route path_join keys_of dir model_paths routing)
      as [r'|e].
    + destruct Hspec as [Hfree _]. destruct Hne. by apply (Hfree k).
    + destruct Hspec as [-> _]. split; [done|]. intros. reflexivity.
  - intros Hfree. unfold Head.load.
    destruct (Head.route path_join keys_of dir model_paths routing)
      as [r'|e].
    + destruct Hspec as [_ Hlook]. exists r'. split; [done|].
      split; [intros k f; apply Hlook|]. split.
      * intros get_tensor n config prefix next. cbn [bind].
        by destruct (Speculator.Model_init get_tensor n config
                       "speculator" next) as [[m next']|e].
      * intros get_tensor n config prefix next inner Hscl Hn Hin.
        destruct (Model_init_returns get_tensor n config "speculator" next
                    inner Hscl Hn Hin) as (m & next' & Hm).
        exists (Head.mk prefix m r'), next'. cbn [bind].
        rewrite Hm. cbn [bind fst snd]. by repeat split.
    + destruct Hspec as [_ (k & f1 & f2 & H1 & H2 & Hne)].
      destruct Hne. by apply (Hfree k).
Qed.

Lemma routing_conflict_detected_witness :
  Head.route ex_path_join ex_keys_clash "spec"
    ["a.safetensors"; "b.safetensors"] ∅
  = Raise RuntimeError
  /\ exists routing' h next',
       Head.route ex_path_join ex_keys_apart "spec"
         ["a.safetensors"; "b.safetensors"; "a.safetensors"] ∅
       = Ok routing'
       /\ routing' !! "weight:spec/b.safetensors" = Some "spec/b.safetensors"
       /\ Head.load ex_path_join ex_keys_apart ex_get_tensor 3 cfg_plain
            "spec" ["a.safetensors"; "b.safetensors"; "a.safetensors"]
            "lm_head" ∅ 0%nat
          = Ok (h, next')
       /\ Head.routing_table h = routing'
       /\ Speculator.n_predict (Head.speculator h) = 3%nat.
Proof.
  split.
  - apply (routing_conflict_detected ex_path_join ex_keys_clash "spec"
             ["a.safetensors"; "b.safetensors"] ∅).
    exists "emb.0.weight", "spec/a.safetensors", "spec/b.safetensors".
    split; [|split; [|discriminate]].
    + right. exists "a.safetensors".
      split; [by left|]. split; [reflexivity|]. by left.
    + right. exists "b.safetensors".
      split; [right; by left|]. split; [reflexivity|]. by left.
  - destruct (routing_conflict_detected ex_path_join ex_keys_apart "spec"
                ["a.safetensors"; "b.safetensors"; "a.safetensors"] ∅)
      as [_ Hfree].
    destruct Hfree as (routing' & Hroute & Hlook & _ & Hload).
    + assert (Hown : forall k f,
                Head.claimed ex_path_join ex_keys_apart "spec"
                  ["a.safetensors"; "b.safetensors"; "a.safetensors"] ∅ k f ->
                k = "weight:" +:+ f).
      { intros k f [H|(fn & _ & _ & Hk)]; [by rewrite lookup_empty in H|].
        unfold ex_keys_apart in Hk.
        apply elem_of_cons in Hk as [->|Hk]; [done|].
        by apply list_elem_of_singleton in Hk. }
      intros k f1 f2 H1 H2.
      pose proof (Hown k f1 H1) as E1. pose proof (Hown k f2 H2) as E2.
      rewrite E1 in E2. by apply (inj (String.append "weight:")) in E2.
    + destruct (Hload ex_get_tensor 3%nat cfg_plain "lm_head" 0%nat
                  (Speculator.PInt 2) eq_refl ltac:(lia) eq_refl)
        as (h & next' & Hh & Htable & _ & Hmodel).
      exists routing', h, next'. split; [exact Hroute|]. split.
      * apply Hlook. right. exists "b.safetensors".
        split; [right; by left|]. split; [reflexivity|]. by left.
      * split; [exact Hh|]. split; [exact Htable|].
        destruct (Model_init_inv ex_get_tensor 3 cfg_plain "speculator"
                    0%nat next' (Head.speculator h) Hmodel)
          as (embs & projs & heads & lns & inner & _ & _ & _ & _ & Heq).
        by rewrite Heq.
Defined.

End RoutingClaims.

(** ** Tensors: broadcasting between equal shapes *)

Section TensorFacts.

Lemma concat_chunks {A} (m p : nat) (xs : list A) :
  length xs = (m * p)%nat -> concat (chunks m p xs) = xs.
Proof.
  revert xs. induction m as [|m IH]; intros xs Hlen; simpl.
  - simpl in Hlen. by destruct xs.
  - rewrite IH; [apply take_drop|].
    rewrite length_drop. lia.
Qed.

Lemma Forall_chunks_length {A} (m p : nat) (xs : list A) :
  length xs = (m * p)%nat -> Forall (fun ch => length ch = p) (chunks m p xs).
Proof.
  revert xs. induction m as [|m IH]; intros xs Hlen; simpl; constructor.
  - rewrite length_take. lia.
  - apply IH. rewrite length_drop. lia.
Qed.

Lemma expand_to_same {A} (s : list nat) (xs : list A) :
  length xs = numel s -> expand_to s s xs = xs.
Proof.
  revert xs. induction s as [|m s IH]; intros xs Hlen; [reflexivity|].
  cbn [expand_to]. rewrite Nat.eqb_refl.
  simpl in Hlen.
  rewrite <- (concat_chunks m (numel s) xs Hlen) at 2.
  f_equal.
  pose proof (Forall_chunks_length m (numel s) xs Hlen) as Hall.
  induction Hall as [|ch chs Hch _ IHchs]; simpl; [reflexivity|].
  by rewrite IH, IHchs.
Qed.

Lemma bdims_same (s : list nat) : bdims s s = Some s.
Proof.
  induction s as [|a s IH]; simpl; [reflexivity|].
  by rewrite IH, Nat.eqb_refl.
Qed.

Lemma pad_to_same (s : list nat) : pad_to (length s) s = s.
Proof. unfold pad_to. by rewrite Nat.sub_diag. Qed.

(** A tensor whose shape, padded with leading 1s, is the shape of the other
    operand is combined with it cell by cell. *)
Lemma broadcast2_padded {A B C} (f : A -> B -> result C)
    (t1 : tensor A) (t2 : tensor B) :
  pad_to (length (dims t2)) (dims t1) = dims t2 ->
  (length (dims t1) <= length (dims t2))%nat ->
  length (cells t1) = numel (dims t2) ->
  length (cells t2) = numel (dims t2) ->
  broadcast2 f t1 t2
  = do cs <- zipM f (cells t1) (cells t2); Ok (Tensor.mk (dims t2) cs).
Proof.
  intros Hpad Hle H1 H2. unfold broadcast2, broadcast_shape.
  rewrite Nat.max_r by exact Hle.
  rewrite Hpad, pad_to_same, bdims_same, Hpad, pad_to_same.
  by rewrite !expand_to_same.
Qed.

Lemma zipM_pure {A B C} (f : A -> B -> result C) (g : A -> B -> C)
    (l1 : list A) (l2 : list B) :
  (forall x y, x ∈ l1 -> y ∈ l2 -> f x y = Ok (g x y)) ->
  zipM f l1 l2 = Ok (zip_with g l1 l2).
Proof.
  revert l2. induction l1 as [|x l1 IH]; intros l2 Hf; [reflexivity|].
  destruct l2 as [|y l2]; [reflexivity|]. simpl.
  rewrite Hf by left. simpl. rewrite IH; [reflexivity|].
  intros x' y' Hx Hy. apply Hf; by right.
Qed.

Lemma bvec_same_length (op : R -> R -> R) (u v : vec) :
  length u = length v -> bvec op u v = Ok (zip_with op u v).
Proof. intros H. unfold bvec. by rewrite H, Nat.eqb_refl. Qed.

(** Small shapes, as checks of the definitions. *)
Example broadcast_shape_row :
  broadcast_shape [3%nat] [1%nat; 3%nat] = Some [1%nat; 3%nat].
Proof. reflexivity. Qed.

Example broadcast_shape_clash :
  broadcast_shape [2%nat; 3%nat] [4%nat; 3%nat] = None.
Proof. reflexivity. Qed.

Example expand_to_leading :
  expand_to [1%nat; 2%nat] [3%nat; 2%nat] [7%nat; 8%nat]
  = [7; 8; 7; 8; 7; 8]%nat.
Proof. reflexivity. Qed.

Example expand_to_inner :
  expand_to [2%nat; 1%nat] [2%nat; 3%nat] [7%nat; 8%nat]
  = [7; 7; 7; 8; 8; 8]%nat.
Proof. reflexivity. Qed.

Example broadcast2_row_against_candidates :
  broadcast2 (fun x y => Ok (x + y)%nat)
    (Tensor.mk [2%nat] [1%nat; 2%nat])
    (Tensor.mk [1%nat; 2%nat] [10%nat; 20%nat])
  = Ok (Tensor.mk [1%nat; 2%nat] [11%nat; 22%nat]).
Proof. reflexivity. Qed.

Example broadcast2_clash :
  broadcast2 (fun x y => Ok (x + y)%nat)
    (Tensor.mk [2%nat] [1%nat; 2%nat])
    (Tensor.mk [1%nat; 3%nat] [10%nat; 20%nat; 30%nat])
  = Raise RuntimeError.
Proof. reflexivity. Qed.

Example regroup_candidates :
  Speculator.regroup 2 [1; 2; 3; 4; 5; 6]%nat
  = Ok (Tensor.mk [3%nat; 2%nat] [1; 2; 3; 4; 5; 6]%nat).
Proof. reflexivity. Qed.

Example regroup_ragged :
  Speculator.regroup 2 [1; 2; 3]%nat = Raise RuntimeError.
Proof. reflexivity. Qed.

Example regroup_empty_batch :
  Speculator.regroup 0 ([] : list nat) = Raise RuntimeError.
Proof. reflexivity. Qed.

Example strip_ones_leading :
  Speculator.strip_ones [1; 1; 4; 1]%nat = [4; 1]%nat.
Proof. reflexivity. Qed.

End TensorFacts.

(** ** Claims about the normalizer *)

Section LayerNormClaims.
Import Examples.

Lemma mean_sq_spec (row : vec) :
  LayerNorm.mean_sq row
  = vsum (map (fun a => a * a) row) / INR (length row).
Proof.
  unfold LayerNorm.mean_sq. do 2 f_equal.
  apply map_ext. intros a. ring.
Qed.

Lemma normalize_spec (e : R) (row : vec) :
  LayerNorm.normalize e row
  = map (fun a => a * / sqrt (vsum (map (fun a => a * a) row)
                              / INR (length row) + e)) row.
Proof.
  unfold LayerNorm.normalize, LayerNorm.rsqrt. by rewrite mean_sq_spec.
Qed.

Lemma zip_with_Rmult_comm (u v : vec) :
  zip_with Rmult u v = zip_with Rmult v u.
Proof.
  revert v. induction u as [|a u IH]; intros [|c v]; simpl; try reflexivity.
  rewrite IH. f_equal. ring.
Qed.

Lemma length_spec_row (l : LayerNorm.t) (row : vec) :
  (LayerNorm.elementwise_scale_and_shift l = true ->
   length (LayerNorm.weight l) = length row
   /\ length (LayerNorm.bias l) = length row) ->
  length (LayerNorm.spec_row l row) = length row.
Proof.
  intros Hw. unfold LayerNorm.spec_row.
  destruct (LayerNorm.elementwise_scale_and_shift l).
  - destruct (Hw eq_refl) as [Hlw Hlb].
    rewrite !length_zip_with, length_map. lia.
  - by rewrite length_map.
Qed.

Lemma forward_rows (l : LayerNorm.t) (x : tensor vec) (D : nat) :
  Forall (fun row => length row = D) (cells x) ->
  (LayerNorm.elementwise_scale_and_shift l = true ->
   length (LayerNorm.weight l) = D /\ length (LayerNorm.bias l) = D) ->
  LayerNorm.forward l x = Ok (tmap (LayerNorm.spec_row l) x).
Proof.
  intros Hrows Hw. unfold LayerNorm.forward, tmapM, tmap.
  cbn [dims cells].
  rewrite Forall_forall in Hrows.
  assert (Hrow : forall row, row ∈ cells x ->
            (LayerNorm.elementwise_scale_and_shift l = true ->
             length (LayerNorm.weight l) = length row
             /\ length (LayerNorm.bias l) = length row)).
  { intros row Hin Haff. rewrite (Hrows row Hin). by apply Hw. }
  destruct (LayerNorm.elementwise_scale_and_shift l) eqn:Haff.
  - rewrite (mapM_ext _ (fun y => Ok (zip_with Rmult (LayerNorm.weight l) y))).
    2:{ intros y Hy. apply list_elem_of_fmap in Hy as (row & -> & Hin).
        apply bvec_same_length.
        unfold LayerNorm.normalize. rewrite length_map.
        by destruct (Hrow row Hin eq_refl). }
    rewrite mapM_pure. cbn [bind dims cells].
    rewrite (mapM_ext _ (fun y => Ok (zip_with Rplus y (LayerNorm.bias l)))).
    2:{ intros y Hy. apply list_elem_of_fmap in Hy as (y' & -> & Hy').
        apply list_elem_of_fmap in Hy' as (row & -> & Hin).
        apply bvec_same_length.
        unfold LayerNorm.normalize. rewrite length_zip_with, length_map.
        destruct (Hrow row Hin eq_refl). lia. }
    rewrite mapM_pure. cbn [bind]. do 2 f_equal.
    rewrite <- !list_fmap_compose. apply list_fmap_ext.
    intros i row Hin. simpl.
    unfold LayerNorm.spec_row. rewrite Haff, normalize_spec.
    by rewrite zip_with_Rmult_comm.
  - do 2 f_equal. apply list_fmap_ext. intros i row Hin.
    unfold LayerNorm.spec_row. by rewrite Haff, normalize_spec.
Qed.

(** C8: on a tensor of shape (..., D) the normalizer returns, without
    raising, a tensor of the same shape whose cell j of every row is
    x_j * rsqrt(mean(x^2) + eps), multiplied by the learned scale and
    shifted by the learned shift exactly when the normalizer has affine
    parameters (of size D). *)
Theorem layer_norm_forward_spec (l : LayerNorm.t) (x : tensor vec)
    (D : nat) :
  Forall (fun row => length row = D) (cells x) ->
  (LayerNorm.elementwise_scale_and_shift l = true ->
   length (LayerNorm.weight l) = D /\ length (LayerNorm.bias l) = D) ->
  exists y,
    LayerNorm.forward l x = Ok y
    /\ dims y = dims x
    /\ length (cells y) = length (cells x)
    /\ forall r row,
         cells x !! r = Some row ->
         exists out,
           cells y !! r = Some out
           /\ length out = D
           /\ forall j a,
                row !! j = Some a ->
                out !! j
                = Some (let n := a * / sqrt (vsum (map (fun c => c * c) row)
                                              / INR D + LayerNorm.eps l) in
                        if LayerNorm.elementwise_scale_and_shift l
                        then n * nth j (LayerNorm.weight l) 0
                             + nth j (LayerNorm.bias l) 0
                        else n).
Proof.
  intros Hrows Hw. exists (tmap (LayerNorm.spec_row l) x).
  split; [by apply (forward_rows l x D)|].
  split; [reflexivity|]. split; [apply length_map|].
  intros r row Hr. exists (LayerNorm.spec_row l row).
  rewrite Forall_forall in Hrows.
  assert (HD : length row = D).
  { apply Hrows. by eapply list_elem_of_lookup_2. }
  split; [|split].
  - unfold tmap. cbn [cells].
    change (map (LayerNorm.spec_row l) (cells x))
      with (LayerNorm.spec_row l <$> cells x).
    rewrite list_lookup_fmap. unfold vec in *. by rewrite Hr.
  - rewrite length_spec_row; [exact HD|]. rewrite HD. exact Hw.
  - intros j a Hj. unfold LayerNorm.spec_row. rewrite HD. cbv zeta.
    assert (Hjn : forall c, (fun a0 : R => a0 * c) <$> row !! j
                            = Some (a * c)).
    { intros c. by rewrite Hj. }
    destruct (LayerNorm.elementwise_scale_and_shift l).
    + destruct (Hw eq_refl) as [Hlw Hlb].
      assert (HjD : (j < D)%nat).
      { rewrite <- HD. by eapply lookup_lt_Some. }
      destruct (lookup_lt_is_Some_2 (LayerNorm.weight l) j) as [w Hwj];
        [lia|].
      destruct (lookup_lt_is_Some_2 (LayerNorm.bias l) j) as [s Hsj]; [lia|].
      rewrite !lookup_zip_with.
      change (map ?f row) with (f <$> row).
      rewrite list_lookup_fmap, Hjn, Hwj, Hsj. simpl.
      rewrite !nth_lookup, Hwj, Hsj. reflexivity.
    + change (map ?f row) with (f <$> row).
      by rewrite list_lookup_fmap, Hjn.
Qed.

Lemma layer_norm_forward_spec_witness :
  exists y,
    LayerNorm.forward ex_ln ex_input = Ok y
    /\ dims y = [1; 2]%nat
    /\ exists out, cells y !! 0%nat = Some out /\ length out = 2%nat.
Proof.
  destruct (layer_norm_forward_spec ex_ln ex_input 2)
    as (y & Hy & Hdims & _ & Hcells).
  - repeat constructor.
  - intros _. split; reflexivity.
  - exists y. split; [exact Hy|]. split; [exact Hdims|].
    destruct (Hcells 0%nat [3; 4] eq_refl) as (out & Hout & Hlen & _).
    exists out. by split.
Defined.

End LayerNormClaims.

(** ** The loop of the forward pass *)

Section ListFacts.

Lemma map_zip_with {A B C D} (g : C -> D) (f : A -> B -> C)
    (l : list A) (k : list B) :
  map g (zip_with f l k) = zip_with (fun x y => g (f x y)) l k.
Proof.
  revert k. induction l as [|x l IH]; intros [|y k]; simpl; try reflexivity.
  by rewrite IH.
Qed.

Lemma zip_with_map {A A' B B' C} (f : A' -> B' -> C) (g : A -> A')
    (h : B -> B') (l : list A) (k : list B) :
  zip_with f (map g l) (map h k) = zip_with (fun x y => f (g x) (h y)) l k.
Proof.
  revert k. induction l as [|x l IH]; intros [|y k]; simpl; try reflexivity.
  by rewrite IH.
Qed.

Lemma Forall_zip_with_all {A B C} (P : C -> Prop) (f : A -> B -> C)
    (l : list A) (k : list B) :
  (forall x y, x ∈ l -> y ∈ k -> P (f x y)) -> Forall P (zip_with f l k).
Proof.
  revert k. induction l as [|x l IH]; intros [|y k] Hf; simpl;
    try constructor.
  - apply Hf; left.
  - apply IH. intros x' y' Hx Hy. apply Hf; by right.
Qed.

Lemma concat_replicate_1 {A} (l : list A) :
  concat (map (replicate 1) l) = l.
Proof.
  induction l as [|x l IH]; [reflexivity|].
  change (x :: concat (map (replicate 1) l) = x :: l). by rewrite IH.
Qed.

Lemma length_concat_replicate {A} (k : nat) (l : list A) :
  length (concat (map (replicate k) l)) = (length l * k)%nat.
Proof.
  induction l as [|x l IH]; [reflexivity|].
  change (length (replicate k x ++ concat (map (replicate k) l))
          = (S (length l) * k)%nat).
  rewrite length_app, length_replicate, IH. lia.
Qed.

Lemma length_concat_uniform {A} (k : nat) (ls : list (list A)) :
  Forall (fun l => length l = k) ls ->
  length (concat ls) = (length ls * k)%nat.
Proof.
  induction 1 as [|l ls Hl _ IH]; simpl; [reflexivity|].
  rewrite length_app, Hl, IH. lia.
Qed.

End ListFacts.

Section LoopFacts.
Import Speculator.
Variable embedding : string -> nat -> vec.
Variable linear : string -> vec -> vec.
Variable gelu : R -> R.

Local Abbreviation row_step := (Speculator.row_step embedding linear gelu).
Local Abbreviation mix := (Speculator.mix embedding linear gelu).
Local Abbreviation predict := (Speculator.predict linear).
Local Abbreviation step := (Speculator.step embedding linear gelu).
Local Abbreviation loop := (Speculator.loop embedding linear gelu).
Local Abbreviation ready := (Speculator.ready embedding linear).

Lemma idx_Some {A} (l : list A) (i : nat) (a : A) :
  l !! i = Some a -> idx l i = Ok a.
Proof. intros H. unfold idx. by rewrite H. Qed.

Lemma layer_at_Some (m : Model) (i : nat) (L : layer) :
  layer_at m i = Some L ->
  emb m !! i = Some (L_emb L) /\ proj m !! i = Some (L_proj L)
  /\ ln m !! i = Some (L_ln L) /\ head m !! i = Some (L_head L).
Proof.
  unfold layer_at.
  destruct (emb m !! i), (proj m !! i), (ln m !! i), (head m !! i);
    try discriminate.
  by intros [= <-].
Qed.

Lemma layer_at_ready (m : Model) (inner : nat) (c : R) (i : nat) :
  ready m inner c -> (i < n_predict m)%nat -> is_Some (layer_at m i).
Proof.
  intros Hr Hi. unfold layer_at.
  destruct (lookup_lt_is_Some_2 (emb m) i) as [e ->];
    [rewrite (ready_emb _ _ _ _ _ Hr); lia|].
  destruct (lookup_lt_is_Some_2 (proj m) i) as [p ->];
    [rewrite (ready_proj _ _ _ _ _ Hr); lia|].
  destruct (lookup_lt_is_Some_2 (ln m) i) as [l ->];
    [rewrite (ready_ln _ _ _ _ _ Hr); lia|].
  destruct (lookup_lt_is_Some_2 (head m) i) as [h ->];
    [rewrite (ready_head _ _ _ _ _ Hr); lia|].
  by eexists.
Qed.

(** Lines 161-164 on an aligned loop state: every candidate row is mixed
    with the embedding of its own id. *)
Lemma mix_spec (m : Model) (inner : nat) (c : R) (b cnum i : nat)
    (st : loop_state) (L : layer) :
  ready m inner c ->
  aligned b cnum st ->
  layer_at m i = Some L ->
  mix m i (state st) (ind st)
  = Ok (Tensor.mk [cnum; b]
          (zip_with (row_step (state_weight m) c (L_emb L) (L_proj L) (L_ln L))
             (cells (state st)) (cells (ind st)))).
Proof.
  intros Hr (Hdi & Hli & Hls & Hds & _) HL.
  apply layer_at_Some in HL as (He & Hp & Hl & _).
  unfold Speculator.mix.
  rewrite (idx_Some _ _ _ He). cbn [bind].
  rewrite (ready_scale _ _ _ _ _ Hr). cbn [bind].
  rewrite (idx_Some _ _ _ Hp). cbn [bind].
  rewrite broadcast2_padded;
    unfold scale, Linear_forward, Embedding_forward, tmap; cbn [dims cells].
  - rewrite !map_map.
    rewrite (zipM_pure _ (zip_with Rplus)).
    2:{ intros x y Hx Hy.
        apply list_elem_of_fmap in Hx as (s & -> & _).
        apply list_elem_of_fmap in Hy as (tok & -> & _).
        apply bvec_same_length. rewrite !length_map.
        rewrite (ready_proj_width _ _ _ _ _ Hr)
          by by eapply list_elem_of_lookup_2.
        rewrite (ready_emb_width _ _ _ _ _ Hr)
          by by eapply list_elem_of_lookup_2.
        reflexivity. }
    cbn [bind]. rewrite (idx_Some _ _ _ Hl). cbn [bind].
    rewrite (forward_rows _ _ inner); cbn [dims cells].
    + cbn [bind]. unfold tmap. cbn [dims cells].
      rewrite Hdi. do 2 f_equal.
      rewrite zip_with_map, !map_zip_with. reflexivity.
    + rewrite zip_with_map. apply Forall_zip_with_all.
      intros s tok _ _. rewrite length_zip_with, !length_map.
      rewrite (ready_proj_width _ _ _ _ _ Hr)
        by by eapply list_elem_of_lookup_2.
      rewrite (ready_emb_width _ _ _ _ _ Hr)
        by by eapply list_elem_of_lookup_2.
      lia.
    + apply (ready_ln_width _ _ _ _ _ Hr). by eapply list_elem_of_lookup_2.
  - rewrite Hdi. destruct Hds as [->|[-> ->]]; reflexivity.
  - rewrite Hdi. destruct Hds as [->|[-> ->]]; simpl; lia.
  - rewrite Hdi, !length_map. simpl. by rewrite Nat.mul_1_r.
  - rewrite Hdi, !length_map. simpl. by rewrite Nat.mul_1_r.
Qed.

Lemma predict_spec (m : Model) (i : nat) (fed : tensor vec) (h : Linear) :
  head m !! i = Some h ->
  predict m i fed
  = Ok (Tensor.mk (dims fed)
          (map (fun s => log_softmax (linear (lin_prefix h) s)) (cells fed))).
Proof.
  intros Hh. unfold Speculator.predict. rewrite (idx_Some _ _ _ Hh).
  cbn [bind]. unfold Linear_forward, tmap. cbn [dims cells].
  by rewrite map_map.
Qed.

Lemma length_row_step (m : Model) (inner : nat) (c : R) (i : nat) (L : layer)
    (s : vec) (tok : nat) :
  ready m inner c ->
  layer_at m i = Some L ->
  length (row_step (state_weight m) c (L_emb L) (L_proj L) (L_ln L) s tok)
  = inner.
Proof.
  intros Hr HL. apply layer_at_Some in HL as (He & Hp & Hl & _).
  unfold Speculator.row_step. rewrite length_map.
  assert (Hmixed :
    length (zip_with Rplus
              (map (fun a => a * state_weight m)
                 (linear (lin_prefix (L_proj L)) s))
              (map (fun a => a * c) (embedding (emb_prefix (L_emb L)) tok)))
    = inner).
  { rewrite length_zip_with, !length_map.
    rewrite (ready_proj_width _ _ _ _ _ Hr)
      by by eapply list_elem_of_lookup_2.
    rewrite (ready_emb_width _ _ _ _ _ Hr)
      by by eapply list_elem_of_lookup_2.
    lia. }
  rewrite length_spec_row; [exact Hmixed|].
  rewrite Hmixed. apply (ready_ln_width _ _ _ _ _ Hr).
  by eapply list_elem_of_lookup_2.
Qed.

Lemma length_log_softmax (row : vec) : length (log_softmax row) = length row.
Proof. unfold log_softmax. apply length_map. Qed.

Lemma fit_row_same (v : nat) (row : vec) :
  length row = v -> fit_row v row = Ok row.
Proof. intros H. unfold fit_row. by rewrite H, Nat.eqb_refl. Qed.

(** The assignment of line 171 with a source of shape (1, b, v). *)
Lemma set_head_single (b v i : nat) (ap : list (list vec))
    (rows : list vec) :
  (1 <= b)%nat -> length ap = b -> length rows = b ->
  Forall (fun row => length row = v) rows ->
  set_head b v i ap (Tensor.mk [1%nat; b] rows)
  = Ok (zip_with (fun heads r => <[i := r]> heads) ap rows).
Proof.
  intros Hb Hap Hrows Hw. unfold set_head. cbn [dims cells].
  assert (HM : mapM (fit_row v) rows = Ok rows).
  { clear Hrows. induction Hw as [|row rows Hrow _ IH]; [reflexivity|].
    simpl. rewrite (fit_row_same v row Hrow). simpl. by rewrite IH. }
  destruct b as [|[|b']]; [lia| |].
  - cbn [strip_ones].
    destruct rows as [|row [|]]; try discriminate.
    destruct ap as [|heads [|]]; try discriminate.
    simpl in HM. destruct (fit_row v row) as [r|]; [|discriminate].
    simpl in HM. injection HM as ->. reflexivity.
  - cbn [strip_ones]. rewrite Nat.eqb_refl, HM. reflexivity.
Qed.

(** With more than one candidate, or none, the source of the assignment
    keeps three axes and the assignment raises. *)
Lemma set_head_branching (b v i cnum : nat) (ap : list (list vec))
    (rows : list vec) :
  cnum <> 1%nat ->
  set_head b v i ap (Tensor.mk [cnum; b] rows) = Raise RuntimeError.
Proof.
  intros Hc. unfold set_head. cbn [dims cells].
  destruct cnum as [|[|c']]; [| contradiction |]; cbn [strip_ones].
  - reflexivity.
  - reflexivity.
Qed.

Lemma regroup_multiple {A} (b k : nat) (cs : list A) :
  (1 <= b)%nat -> length cs = (k * b)%nat ->
  regroup b cs = Ok (Tensor.mk [k; b] cs).
Proof.
  intros Hb Hlen. unfold regroup.
  destruct (b =? 0)%nat eqn:E; [apply Nat.eqb_eq in E; lia|].
  rewrite Hlen, Nat.Div0.mod_mul, Nat.eqb_refl, Nat.div_mul by lia.
  reflexivity.
Qed.

Lemma existsb_empty_rows (rows : list vec) :
  Forall (fun row => (1 <= length row)%nat) rows ->
  existsb (fun row => (length row =? 0)%nat) rows = false.
Proof.
  induction 1 as [|row rows Hrow _ IH]; [reflexivity|]. simpl.
  rewrite IH. destruct (length row =? 0)%nat eqn:E; [|reflexivity].
  apply Nat.eqb_eq in E. lia.
Qed.

Lemma Forall_concat_replicate {A} (P : A -> Prop) (k : nat) (l : list A) :
  Forall P l -> Forall P (concat (map (replicate k) l)).
Proof.
  induction 1 as [|x l Hx _ IH]; [constructor|].
  change (Forall P (replicate k x ++ concat (map (replicate k) l))).
  apply Forall_app. split; [|exact IH].
  apply Forall_forall. intros y Hy. by apply elem_of_replicate in Hy as [-> _].
Qed.

(** A step on a state with one candidate per batch row. *)
Lemma step_ok (m : Model) (inner : nat) (c : R) (b i k : nat)
    (top_k : list nat) (st : loop_state) (L : layer) :
  ready m inner c ->
  (1 <= b)%nat ->
  aligned b 1 st ->
  layer_at m i = Some L ->
  top_k !! i = Some k ->
  (k <= vsize m)%nat ->
  let fed := zip_with (row_step (state_weight m) c (L_emb L) (L_proj L)
                         (L_ln L)) (cells (state st)) (cells (ind st)) in
  let probs := map (fun s => log_softmax (linear (lin_prefix (L_head L)) s))
                 fed in
  exists lists,
    Forall2 (fun row l => topk k row = Ok l) probs lists
    /\ step m b top_k i st
       = Ok (mkLoop (Tensor.mk [k; b] (concat (map (replicate k) fed)))
               (Tensor.mk [k; b] (concat lists))
               (zip_with (fun heads r => <[i := map exp r]> heads)
                  (all_probs st) probs)).
Proof.
  intros Hr Hb Hal HL Hk Hkv fed probs.
  pose proof Hal as (Hdi & Hli & Hls & Hds & Hap).
  pose proof (layer_at_Some _ _ _ HL) as (He & Hp & Hl & Hh).
  assert (Hfedlen : length fed = b).
  { unfold fed. rewrite length_zip_with, Hls, Hli. lia. }
  assert (Hprobslen : length probs = b).
  { unfold probs. by rewrite length_map. }
  assert (Hfedw : Forall (fun row => (1 <= length row)%nat) fed).
  { unfold fed. apply Forall_zip_with_all. intros s tok _ _.
    rewrite (length_row_step m inner c i L s tok Hr HL).
    apply (ready_inner _ _ _ _ _ Hr). }
  assert (Hprobsw : Forall (fun row => length row = vsize m) probs).
  { unfold probs. apply Forall_forall. intros row Hrow.
    apply list_elem_of_fmap in Hrow as (s & -> & _).
    rewrite length_log_softmax.
    apply (ready_head_width _ _ _ _ _ Hr). by eapply list_elem_of_lookup_2. }
  destruct (mapM_total (topk k) probs) as [lists Hlists].
  { intros row Hrow. apply topk_ok. rewrite Forall_forall in Hprobsw.
    by rewrite (Hprobsw row Hrow). }
  exists lists. split; [by apply mapM_Ok|].
  assert (Hlistsw : Forall (fun l => length l = k) lists).
  { apply mapM_Ok in Hlists. apply Forall_forall. intros l Hl'.
    apply list_elem_of_lookup in Hl' as [j Hj].
    destruct (Forall2_lookup_r _ _ _ _ _ Hlists Hj) as (row & _ & Hrow).
    by apply length_topk in Hrow. }
  assert (Hlistslen : length lists = b).
  { by rewrite (length_mapM _ _ _ Hlists). }
  unfold Speculator.step.
  rewrite (mix_spec m inner c b 1 i st L Hr Hal HL). cbn [bind].
  rewrite (predict_spec m i _ (L_head L) Hh). cbn [bind dims cells].
  fold fed. fold probs.
  rewrite (idx_Some _ _ _ Hk). cbn [bind].
  unfold tmapM. cbn [dims cells]. rewrite Hlists. cbn [bind].
  unfold tmap. cbn [dims cells].
  rewrite set_head_single; [| exact Hb | exact Hap | by rewrite length_map |].
  2:{ apply Forall_forall. intros row Hrow.
      apply list_elem_of_fmap in Hrow as (r & -> & Hr').
      rewrite length_map. rewrite Forall_forall in Hprobsw.
      by apply Hprobsw. }
  cbn [bind]. unfold expand_k. cbn [dims cells bind].
  unfold reshape_state. cbn [cells].
  rewrite existsb_empty_rows by by apply Forall_concat_replicate.
  rewrite (regroup_multiple b k).
  2: exact Hb.
  2:{ rewrite length_concat_replicate, Hfedlen. lia. }
  cbn [bind]. unfold view_preds. cbn [cells].
  rewrite (regroup_multiple b k).
  2: exact Hb.
  2:{ rewrite (length_concat_uniform k) by exact Hlistsw.
      rewrite Hlistslen. lia. }
  cbn [bind]. do 2 f_equal.
  rewrite zip_with_fmap_r. reflexivity.
Qed.

(** A step that returns started from a single candidate per batch row and
    selected no more tokens than the vocabulary holds. *)
Lemma step_Ok_inv (m : Model) (inner : nat) (c : R) (b cnum i k : nat)
    (top_k : list nat) (st st' : loop_state) (L : layer) :
  ready m inner c ->
  (1 <= b)%nat ->
  aligned b cnum st ->
  layer_at m i = Some L ->
  top_k !! i = Some k ->
  step m b top_k i st = Ok st' ->
  cnum = 1%nat /\ (k <= vsize m)%nat.
Proof.
  intros Hr Hb Hal HL Hk Hstep.
  pose proof Hal as (Hdi & Hli & Hls & Hds & Hap).
  pose proof (layer_at_Some _ _ _ HL) as (He & Hp & Hl & Hh).
  unfold Speculator.step in Hstep.
  rewrite (mix_spec m inner c b cnum i st L Hr Hal HL) in Hstep.
  cbn [bind] in Hstep.
  rewrite (predict_spec m i _ (L_head L) Hh) in Hstep.
  cbn [bind dims cells] in Hstep.
  rewrite (idx_Some _ _ _ Hk) in Hstep. cbn [bind] in Hstep.
  unfold tmapM in Hstep. cbn [dims cells] in Hstep.
  destruct (mapM (topk k) _) as [lists|] eqn:Hlists; [|discriminate].
  cbn [bind] in Hstep. unfold tmap in Hstep. cbn [dims cells] in Hstep.
  destruct (decide (cnum = 1%nat)) as [->|Hne].
  - split; [reflexivity|].
    apply mapM_Ok in Hlists.
    destruct (cells (state st)) as [|s S]; [simpl in Hls; lia|].
    destruct (cells (ind st)) as [|tok T]; [simpl in Hli; lia|].
    simpl in Hlists. inversion Hlists as [|row l ? ? Hrow _]; subst.
    unfold topk in Hrow.
    destruct (length _ <? k)%nat eqn:E; [discriminate|].
    apply Nat.ltb_ge in E. rewrite length_log_softmax in E.
    rewrite (ready_head_width _ _ _ _ _ Hr) in E
      by by eapply list_elem_of_lookup_2.
    exact E.
  - rewrite set_head_branching in Hstep by exact Hne. discriminate.
Qed.

Lemma loop_app (m : Model) (b : nat) (top_k r1 r2 : list nat)
    (st : loop_state) :
  loop m b top_k (r1 ++ r2) st
  = do st1 <- loop m b top_k r1 st; loop m b top_k r2 st1.
Proof.
  revert st. induction r1 as [|i r1 IH]; intros st; [reflexivity|].
  simpl. destruct (step m b top_k i st) as [st1|e]; simpl; [apply IH | done].
Qed.

Lemma loop_snoc (m : Model) (b : nat) (top_k : list nat) (i : nat)
    (st0 : loop_state) :
  loop m b top_k (seq 0 (S i)) st0
  = do st <- loop m b top_k (seq 0 i) st0; step m b top_k i st.
Proof.
  rewrite seq_S, loop_app. simpl.
  destruct (loop m b top_k (seq 0 i) st0) as [st|e]; simpl; [|done].
  by destruct (step m b top_k i st).
Qed.

Lemma aligned_unique (b c c' : nat) (st : loop_state) :
  aligned b c st -> aligned b c' st -> c = c'.
Proof. intros [H _] [H' _]. congruence. Qed.

Lemma step_ok_aligned (m : Model) (inner : nat) (c : R) (b i k : nat)
    (top_k : list nat) (st st' : loop_state) (L : layer) :
  ready m inner c ->
  (1 <= b)%nat ->
  aligned b 1 st ->
  layer_at m i = Some L ->
  top_k !! i = Some k ->
  step m b top_k i st = Ok st' ->
  aligned b k st'.
Proof.
  intros Hr Hb Hal HL Hk Hstep.
  destruct (step_Ok_inv m inner c b 1 i k top_k st st' L) as [_ Hkv];
    try done.
  destruct (step_ok m inner c b i k top_k st L Hr Hb Hal HL Hk Hkv)
    as (lists & Hlists & Heq).
  rewrite Heq in Hstep. injection Hstep as <-.
  destruct Hal as (Hdi & Hli & Hls & Hds & Hap).
  assert (Hfed : length (zip_with
                   (row_step (state_weight m) c (L_emb L) (L_proj L) (L_ln L))
                   (cells (state st)) (cells (ind st))) = b).
  { rewrite length_zip_with, Hls, Hli. lia. }
  unfold aligned. cbn [Speculator.ind Speculator.state Speculator.all_probs
                       dims cells].
  split; [reflexivity|]. split; [|split; [|split]].
  - rewrite (length_concat_uniform k).
    + rewrite <- (Forall2_length _ _ _ Hlists), length_map, Hfed. lia.
    + apply Forall_forall. intros l Hl.
      apply list_elem_of_lookup in Hl as [j Hj].
      destruct (Forall2_lookup_r _ _ _ _ _ Hlists Hj) as (row & _ & Hrow).
      by apply length_topk in Hrow.
  - rewrite length_concat_replicate, Hfed. lia.
  - by left.
  - rewrite length_zip_with, length_map, Hfed, Hap. lia.
Qed.

(** Every state the loop reaches is aligned. *)
Lemma loop_aligned (m : Model) (inner : nat) (c : R) (b : nat)
    (top_k : list nat) (len j c0 : nat) (st0 st : loop_state) :
  ready m inner c ->
  (1 <= b)%nat ->
  (j + len <= n_predict m)%nat ->
  aligned b c0 st0 ->
  loop m b top_k (seq j len) st0 = Ok st ->
  exists c1, aligned b c1 st.
Proof.
  intros Hr Hb. revert j c0 st0.
  induction len as [|len IH]; intros j c0 st0 Hj Hal Hloop.
  - injection Hloop as <-. by exists c0.
  - cbn [seq Speculator.loop] in Hloop.
    destruct (step m b top_k j st0) as [st1|e] eqn:Hstep; [|discriminate].
    cbn [bind] in Hloop.
    destruct (layer_at_ready m inner c j Hr ltac:(lia)) as [L HL].
    assert (Hk : exists k, top_k !! j = Some k).
    { unfold Speculator.step in Hstep.
      rewrite (mix_spec m inner c b c0 j st0 L Hr Hal HL) in Hstep.
      cbn [bind] in Hstep.
      destruct (layer_at_Some _ _ _ HL) as (_ & _ & _ & Hh).
      rewrite (predict_spec m j _ (L_head L) Hh) in Hstep.
      cbn [bind] in Hstep. unfold idx in Hstep.
      destruct (top_k !! j) as [k|]; [by exists k | discriminate]. }
    destruct Hk as [k Hk].
    destruct (step_Ok_inv m inner c b c0 j k top_k st0 st1 L) as [-> Hkv];
      try done.
    apply (IH (S j) k st1); [lia | | exact Hloop].
    by eapply step_ok_aligned.
Qed.

Lemma forward_LayerNorm_shape (l : LayerNorm.t) (x y : tensor vec) :
  LayerNorm.forward l x = Ok y ->
  dims y = dims x /\ length (cells y) = length (cells x).
Proof.
  unfold LayerNorm.forward, tmapM, tmap. cbn [dims cells].
  destruct (LayerNorm.elementwise_scale_and_shift l).
  - destruct (mapM _ _) as [x1|] eqn:H1; [|discriminate]. cbn [bind dims cells].
    destruct (mapM _ x1) as [x2|] eqn:H2; [|discriminate]. cbn [bind].
    intros [= <-]. cbn [dims cells]. split; [reflexivity|].
    by rewrite (length_mapM _ _ _ H2), (length_mapM _ _ _ H1), length_map.
  - intros [= <-]. cbn [dims cells]. split; [reflexivity | apply length_map].
Qed.

Lemma scaled_input_shape (m : Model) (hidden_states : list vec)
    (s0 : tensor vec) :
  scaled_input m hidden_states = Ok s0 ->
  dims s0 = [length hidden_states]
  /\ length (cells s0) = length hidden_states.
Proof.
  unfold scaled_input. destruct (truthy (scale_input m)).
  - destruct (ln0 m) as [l0|]; [|discriminate].
    destruct (LayerNorm.forward l0 _) as [s|] eqn:Hs; [|discriminate].
    cbn [bind]. intros [= <-].
    apply forward_LayerNorm_shape in Hs as [Hd Hl].
    unfold tmap. cbn [dims cells] in *. by rewrite length_map.
  - intros [= <-]. by split.
Qed.

Lemma init_loop_aligned (m : Model) (s0 : tensor vec) (input_ids : list nat)
    (b : nat) :
  dims s0 = [b] -> length (cells s0) = b -> length input_ids = b ->
  aligned b 1 (init_loop m s0 input_ids).
Proof.
  intros Hd Hl Hi. unfold aligned, init_loop, unsqueeze0, size0.
  cbn [Speculator.ind Speculator.state Speculator.all_probs dims cells].
  rewrite Hd, Hi, Hl, length_replicate. simpl.
  repeat split; try lia. right. by split.
Qed.

Lemma emb_scale_value (m : Model) (c : R) :
  emb_scale m = Ok c ->
  exists x, as_float (inner_dim m) = Ok x /\ 0 <= x / 2
            /\ c = emb_weight m * sqrt (x / 2).
Proof.
  unfold emb_scale. destruct (as_float (inner_dim m)) as [x|]; [|discriminate].
  cbn [bind]. unfold py_sqrt. destruct (Rlt_dec (x / 2) 0); [discriminate|].
  cbn [bind]. intros [= <-]. exists x. repeat split. lra.
Qed.

(** With a single candidate selected at every step, the loop returns and
    keeps one candidate per batch row. *)
Lemma loop_ones_returns (m : Model) (inner : nat) (c : R) (b : nat)
    (top_k : list nat) (len j : nat) (st0 : loop_state) :
  ready m inner c ->
  (1 <= b)%nat ->
  (1 <= vsize m)%nat ->
  (j + len <= n_predict m)%nat ->
  (forall u, (u < len)%nat -> top_k !! (j + u)%nat = Some 1%nat) ->
  aligned b 1 st0 ->
  exists st, loop m b top_k (seq j len) st0 = Ok st /\ aligned b 1 st.
Proof.
  intros Hr Hb Hv. revert j st0.
  induction len as [|len IH]; intros j st0 Hj Htop Hal.
  - exists st0. by split.
  - destruct (layer_at_ready m inner c j Hr ltac:(lia)) as [L HL].
    assert (Hk : top_k !! j = Some 1%nat).
    { specialize (Htop 0%nat ltac:(lia)). by rewrite Nat.add_0_r in Htop. }
    destruct (step_ok m inner c b j 1 top_k st0 L Hr Hb Hal HL Hk Hv)
      as (lists & _ & Hstep).
    assert (Hal1 : aligned b 1
              (mkLoop
                 (Tensor.mk [1%nat; b]
                    (concat (map (replicate 1)
                       (zip_with (row_step (state_weight m) c (L_emb L)
                                    (L_proj L) (L_ln L))
                          (cells (state st0)) (cells (ind st0))))))
                 (Tensor.mk [1%nat; b] (concat lists))
                 (zip_with (fun heads r => <[j := map exp r]> heads)
                    (all_probs st0)
                    (map (fun s => log_softmax
                                     (linear (lin_prefix (L_head L)) s))
                       (zip_with (row_step (state_weight m) c (L_emb L)
                                    (L_proj L) (L_ln L))
                          (cells (state st0)) (cells (ind st0))))))).
    { by apply (step_ok_aligned m inner c b j 1 top_k st0 _ L Hr Hb Hal HL
                  Hk). }
    assert (Htop' : forall u, (u < len)%nat ->
                      top_k !! (S j + u)%nat = Some 1%nat).
    { intros u Hu. replace (S j + u)%nat with (j + S u)%nat by lia.
      apply Htop. lia. }
    destruct (IH (S j) _ ltac:(lia) Htop' Hal1) as (st & Hloop & Hal').
    exists st. split; [|exact Hal'].
    cbn [seq Speculator.loop]. rewrite Hstep. exact Hloop.
Qed.

(** C1: in every forward call, at every step i the loop reaches, the state
    fed to the output projection holds, for every candidate row,
    GELU(normalizer[i](stateProjection[i](state) * stateWeight + z)) with
    z the embedding of the row's candidate id scaled by
    embedWeight * sqrt(innerDim / 2), and the output projection of step i
    is applied to that state; step 0 reads the (rescaled) hidden state and
    the initial ids under a leading axis of size 1, and a step that returns
    records the distributions of that state and hands it, repeated per
    selected candidate, to the next step.  With a single candidate at the
    steps before i the loop does reach step i, and step i returns for every
    top-k up to the vocabulary size. *)
Theorem recurrence_at_every_step (m : Model) (inner : nat) (c : R)
    (hidden_states : list vec) (input_ids : list nat) (s0 : tensor vec)
    (i : nat) :
  let b := length hidden_states in
  let top_k := top_k_tokens_per_head m in
  let st0 := init_loop m s0 input_ids in
  ready m inner c ->
  (1 <= b)%nat ->
  length input_ids = b ->
  scaled_input m hidden_states = Ok s0 ->
  (i < n_predict m)%nat ->
  (forall st,
     loop m b top_k (seq 0 i) st0 = Ok st ->
     exists L fed probs x,
       layer_at m i = Some L
       /\ as_float (inner_dim m) = Ok x
       /\ c = emb_weight m * sqrt (x / 2)
       /\ mix m i (state st) (ind st) = Ok fed
       /\ length (cells (state st)) = length (cells (ind st))
       /\ cells fed
          = zip_with
              (fun s tok =>
                 map gelu
                   (LayerNorm.spec_row (L_ln L)
                      (zip_with Rplus
                         (map (fun a => a * state_weight m)
                            (linear (lin_prefix (L_proj L)) s))
                         (map (fun a => a * c)
                            (embedding (emb_prefix (L_emb L)) tok)))))
              (cells (state st)) (cells (ind st))
       /\ predict m i fed = Ok probs
       /\ cells probs
          = map (fun s => log_softmax (linear (lin_prefix (L_head L)) s))
              (cells fed)
       /\ (i = 0%nat ->
           state st = s0 /\ ind st = Tensor.mk [1%nat; b] input_ids)
       /\ (forall st',
             step m b top_k i st = Ok st' ->
             loop m b top_k (seq 0 (S i)) st0 = Ok st'
             /\ all_probs st'
                = zip_with (fun heads r => <[i := map exp r]> heads)
                    (all_probs st) (cells probs)
             /\ exists k,
                  top_k !! i = Some k
                  /\ cells (state st')
                     = concat (map (replicate k) (cells fed))))
  /\ ((forall j, (j < i)%nat -> top_k !! j = Some 1%nat) ->
      (1 <= vsize m)%nat ->
      exists st,
        loop m b top_k (seq 0 i) st0 = Ok st
        /\ dims (ind st) = [1%nat; b]
        /\ length (cells (state st)) = b
        /\ forall k,
             top_k !! i = Some k -> (k <= vsize m)%nat ->
             exists st', step m b top_k i st = Ok st').
Proof.
  intros b top_k st0 Hr Hb Hids Hs0 Hi.
  destruct (scaled_input_shape m hidden_states s0 Hs0) as [Hd Hl].
  pose proof (init_loop_aligned m s0 input_ids b Hd Hl Hids) as Hal0.
  destruct (layer_at_ready m inner c i Hr Hi) as [L HL].
  destruct (layer_at_Some _ _ _ HL) as (_ & _ & _ & Hh).
  split.
  - intros st Hloop.
    destruct (loop_aligned m inner c b top_k i 0 1 _ st Hr Hb ltac:(lia)
                Hal0 Hloop) as [cnum Hal].
    destruct (emb_scale_value m c (ready_scale _ _ _ _ _ Hr))
      as (x & Hx & _ & Hc).
    pose proof (mix_spec m inner c b cnum i st L Hr Hal HL) as Hmix.
    eexists L, _, _, x. split; [exact HL|]. split; [exact Hx|].
    split; [exact Hc|]. split; [exact Hmix|].
    pose proof Hal as (Hdi & Hli & Hls & Hds & Hap).
    split; [by rewrite Hls, Hli|]. split; [reflexivity|].
    split; [exact (predict_spec m i _ (L_head L) Hh)|].
    split; [reflexivity|]. split.
    + intros ->. injection Hloop as <-. split; [reflexivity|].
      unfold st0, init_loop, unsqueeze0. cbn [Speculator.ind dims cells].
      by rewrite Hids.
    + intros st' Hstep. split.
      * rewrite loop_snoc. fold st0. rewrite Hloop. exact Hstep.
      * assert (Hk : exists k, top_k !! i = Some k).
        { unfold Speculator.step in Hstep. rewrite Hmix in Hstep.
          cbn [bind] in Hstep.
          rewrite (predict_spec m i _ (L_head L) Hh) in Hstep.
          cbn [bind] in Hstep. unfold idx in Hstep.
          destruct (top_k !! i) as [k|]; [by exists k | discriminate]. }
        destruct Hk as [k Hk].
        destruct (step_Ok_inv m inner c b cnum i k top_k st st' L)
          as [-> Hkv]; try done.
        destruct (step_ok m inner c b i k top_k st L Hr Hb Hal HL Hk Hkv)
          as (lists & _ & Heq).
        rewrite Heq in Hstep. injection Hstep as <-.
        split; [reflexivity|]. exists k. by split.
  - intros Hones Hv.
    destruct (loop_ones_returns m inner c b top_k i 0 st0 Hr Hb Hv
                ltac:(lia) Hones Hal0) as (st & Hloop & Hal).
    exists st. split; [exact Hloop|].
    pose proof Hal as (Hdi & Hli & Hls & _).
    split; [exact Hdi|]. split; [lia|].
    intros k Hk Hkv.
    destruct (step_ok m inner c b i k top_k st L Hr Hb Hal HL Hk Hkv)
      as (lists & _ & Heq).
    eexists. exact Heq.
Qed.

(** C10: when step i of a forward call returns, the ids it hands to step
    i+1 are, for every candidate row in order, topK[i] distinct vocabulary
    indices in descending order of the row's log-probability, none of the
    indices left out being more probable than a selected one; the step
    returns whenever the state holds one candidate per batch row and
    topK[i] does not exceed the vocabulary size. *)
Theorem top_k_candidates_propagated (m : Model) (inner : nat) (c : R)
    (hidden_states : list vec) (input_ids : list nat) (s0 : tensor vec)
    (i k : nat) (st : loop_state) :
  let b := length hidden_states in
  let top_k := top_k_tokens_per_head m in
  ready m inner c ->
  (1 <= b)%nat ->
  length input_ids = b ->
  scaled_input m hidden_states = Ok s0 ->
  (i < n_predict m)%nat ->
  top_k !! i = Some k ->
  loop m b top_k (seq 0 i) (init_loop m s0 input_ids) = Ok st ->
  (forall st',
     step m b top_k i st = Ok st' ->
     exists fed probs lists,
       mix m i (state st) (ind st) = Ok fed
       /\ predict m i fed = Ok probs
       /\ Forall2 (fun row l => is_top_k row k l) (cells probs) lists
       /\ ind st' = Tensor.mk [k; b] (concat lists))
  /\ (dims (ind st) = [1%nat; b] -> (k <= vsize m)%nat ->
      exists st', step m b top_k i st = Ok st').
Proof.
  intros b top_k Hr Hb Hids Hs0 Hi Hk Hloop.
  destruct (scaled_input_shape m hidden_states s0 Hs0) as [Hd Hl].
  pose proof (init_loop_aligned m s0 input_ids b Hd Hl Hids) as Hal0.
  destruct (loop_aligned m inner c b top_k i 0 1 _ st Hr Hb ltac:(lia)
              Hal0 Hloop) as [cnum Hal].
  destruct (layer_at_ready m inner c i Hr Hi) as [L HL].
  destruct (layer_at_Some _ _ _ HL) as (_ & _ & _ & Hh).
  split.
  - intros st' Hstep.
    destruct (step_Ok_inv m inner c b cnum i k top_k st st' L)
      as [-> Hkv]; try done.
    destruct (step_ok m inner c b i k top_k st L Hr Hb Hal HL Hk Hkv)
      as (lists & Hlists & Heq).
    rewrite Heq in Hstep. injection Hstep as <-.
    eexists _, _, lists.
    split; [exact (mix_spec m inner c b 1 i st L Hr Hal HL)|].
    split; [exact (predict_spec m i _ (L_head L) Hh)|].
    split; [|reflexivity].
    cbn [cells]. eapply Forall2_impl; [exact Hlists|].
    intros row l. apply topk_is_top_k.
  - intros Hdims Hkv.
    assert (cnum = 1%nat) as ->.
    { destruct Hal as [Hdi _]. congruence. }
    destruct (step_ok m inner c b i k top_k st L Hr Hb Hal HL Hk Hkv)
      as (lists & _ & Heq).
    eexists. exact Heq.
Qed.

End LoopFacts.

(** ** One candidate per head: the chain of a batch row *)

Section SoftmaxFacts.
Import Speculator.

Lemma vsum_exp_pos (row : vec) : row <> [] -> 0 < vsum (map exp row).
Proof.
  destruct row as [|a row]; [done|]. intros _. simpl.
  assert (Hnn : 0 <= vsum (map exp row)).
  { induction row as [|x row IH]; simpl; [lra|].
    pose proof (exp_pos x). lra. }
  pose proof (exp_pos a). lra.
Qed.

Lemma exp_log_softmax (row : vec) : map exp (log_softmax row) = softmax row.
Proof.
  unfold log_softmax, softmax. rewrite map_map.
  destruct row as [|a0 row0] eqn:E; [reflexivity|]. rewrite <- E.
  assert (Hpos : 0 < vsum (map exp row)) by (apply vsum_exp_pos; by subst).
  apply map_ext. intros a.
  unfold Rminus. rewrite exp_plus, exp_Ropp, exp_ln by exact Hpos.
  reflexivity.
Qed.

Lemma vsum_map_div (f : R -> R) (d : R) (l : vec) :
  vsum (map (fun a => f a / d) l) = vsum (map f l) / d.
Proof.
  induction l as [|a l IH]; simpl; [lra|]. rewrite IH. lra.
Qed.

Lemma vsum_softmax (row : vec) : row <> [] -> vsum (softmax row) = 1.
Proof.
  intros Hne. unfold softmax.
  rewrite (vsum_map_div exp (vsum (map exp row)) row).
  pose proof (vsum_exp_pos row Hne). field. lra.
Qed.

Lemma length_softmax (row : vec) : length (softmax row) = length row.
Proof. unfold softmax. apply length_map. Qed.

Lemma topk_1 (row : vec) : row <> [] -> topk 1 row = Ok [top1 row].
Proof.
  intros Hne. unfold topk, top1.
  pose proof (length_sort_indexed row) as Hlen.
  destruct row as [|a row]; [done|].
  destruct (sort_desc (indexed (a :: row))) as [|p s]; [discriminate|].
  reflexivity.
Qed.

Lemma fill_step (j : nat) (d : vec) (ds heads : list vec) :
  (j < length heads)%nat ->
  fill (S j) ds (<[j := d]> heads) = fill j (d :: ds) heads.
Proof.
  intros Hj. unfold fill.
  rewrite take_insert_lt by lia.
  rewrite drop_insert_lt by lia.
  rewrite (take_S_r heads j (default d (heads !! j))).
  2:{ destruct (lookup_lt_is_Some_2 heads j Hj) as [y ->]. reflexivity. }
  rewrite insert_app_r_alt by (rewrite length_take; lia).
  rewrite length_take, Nat.min_l, Nat.sub_diag by lia.
  cbn [length]. replace (j + S (length ds))%nat with (S j + length ds)%nat by lia.
  simpl. by rewrite <- app_assoc.
Qed.

Lemma fill_all (ds heads : list vec) :
  length ds = length heads -> fill 0 ds heads = ds.
Proof.
  intros H. unfold fill. simpl. rewrite drop_ge by lia. apply app_nil_r.
Qed.

End SoftmaxFacts.

Section SingleCandidate.
Import Speculator.
Variable embedding : string -> nat -> vec.
Variable linear : string -> vec -> vec.
Variable gelu : R -> R.

Local Abbreviation row_step := (Speculator.row_step embedding linear gelu).
Local Abbreviation chain := (Speculator.chain embedding linear gelu).
Local Abbreviation step := (Speculator.step embedding linear gelu).
Local Abbreviation loop := (Speculator.loop embedding linear gelu).
Local Abbreviation ready := (Speculator.ready embedding linear).

Lemma zip_with_same_index {X A B C} (f : A -> B -> C) (g : X -> A)
    (h : X -> B) (xs : list X) :
  zip_with f (map g xs) (map h xs) = map (fun x => f (g x) (h x)) xs.
Proof. induction xs as [|x xs IH]; simpl; [reflexivity | by rewrite IH]. Qed.

Lemma top1_lists (probs : list vec) (lists : list (list nat)) :
  Forall (fun row => row <> []) probs ->
  Forall2 (fun row l => topk 1 row = Ok l) probs lists ->
  concat lists = map top1 probs.
Proof.
  intros Hne H. induction H as [|row l probs lists Hrow _ IH]; [reflexivity|].
  apply Forall_cons in Hne as [Hrne Hne].
  rewrite (topk_1 row Hrne) in Hrow. injection Hrow as <-.
  simpl. by rewrite IH.
Qed.

Lemma layers_from_cons (m : Model) (j len : nat) (L : layer) :
  layer_at m j = Some L ->
  layers_from m j (S len) = L :: layers_from m (S j) len.
Proof. intros HL. unfold layers_from. simpl. by rewrite HL. Qed.

Lemma length_chain (sw c : R) (layers : list layer) (s : vec) (tok : nat) :
  length (chain sw c layers s tok) = length layers.
Proof.
  revert s tok. induction layers as [|L rest IH]; intros s tok; simpl;
    [reflexivity | by rewrite IH].
Qed.

Lemma length_layers_from (m : Model) (inner : nat) (c : R) (j len : nat) :
  ready m inner c -> (j + len <= n_predict m)%nat ->
  length (layers_from m j len) = len.
Proof.
  intros Hr. revert j. induction len as [|len IH]; intros j Hj;
    [reflexivity|].
  destruct (layer_at_ready embedding linear m inner c j Hr ltac:(lia))
    as [L HL].
  rewrite (layers_from_cons m j len L HL). simpl. rewrite IH; [done | lia].
Qed.

(** The loop over the steps [j .. j+len-1] with top-k 1 at each of them:
    every batch row runs its own chain. *)
Lemma loop_single (m : Model) (inner : nat) (c : R) (b : nat)
    (top_k : list nat) {X : Type} (xs : list X) :
  ready m inner c ->
  (1 <= b)%nat ->
  (1 <= vsize m)%nat ->
  length xs = b ->
  forall (len j : nat) (sigma : X -> vec) (tau : X -> nat)
         (alpha : X -> list vec) (d : list nat),
    (j + len <= n_predict m)%nat ->
    (forall u, (u < len)%nat -> top_k !! (j + u)%nat = Some 1%nat) ->
    (forall x, x ∈ xs -> length (alpha x) = n_predict m) ->
    d = [1%nat; b] \/ d = [b] ->
    exists st',
      loop m b top_k (seq j len)
        (mkLoop (Tensor.mk d (map sigma xs)) (Tensor.mk [1%nat; b] (map tau xs))
           (map alpha xs))
      = Ok st'
      /\ all_probs st'
         = map (fun x =>
                  fill j (chain (state_weight m) c (layers_from m j len)
                            (sigma x) (tau x)) (alpha x)) xs.
Proof.
  intros Hr Hb Hv Hxs. induction len as [|len IH];
    intros j sigma tau alpha d Hj Htop Halpha Hd.
  - eexists. split; [reflexivity|]. cbn [Speculator.all_probs].
    apply map_ext. intros x. unfold fill, layers_from. simpl.
    by rewrite Nat.add_0_r, take_drop.
  - destruct (layer_at_ready embedding linear m inner c j Hr ltac:(lia))
      as [L HL].
    pose proof (layer_at_Some _ _ _ HL) as (_ & _ & _ & Hh).
    set (st := mkLoop (Tensor.mk d (map sigma xs))
                 (Tensor.mk [1%nat; b] (map tau xs)) (map alpha xs)).
    assert (Hal : aligned b 1 st).
    { unfold aligned, st.
      cbn [Speculator.ind Speculator.state Speculator.all_probs dims cells].
      rewrite !length_map, Hxs.
      repeat split; try lia.
      destruct Hd as [->| ->]; [by left | right; by split]. }
    assert (Hk : top_k !! j = Some 1%nat).
    { specialize (Htop 0%nat ltac:(lia)). by rewrite Nat.add_0_r in Htop. }
    destruct (step_ok embedding linear gelu m inner c b j 1 top_k st L
                Hr Hb Hal HL Hk Hv) as (lists & Hlists & Hstep).
    cbn [seq Speculator.loop]. fold st. rewrite Hstep. cbn [bind].
    unfold st in Hlists |- *.
    cbn [Speculator.ind Speculator.state Speculator.all_probs dims cells]
      in Hlists |- *.
    rewrite zip_with_same_index in Hlists |- *.
    rewrite concat_replicate_1.
    rewrite map_map in Hlists |- *.
    assert (Hne : Forall (fun row : vec => row <> [])
              (map (fun x =>
                      log_softmax
                        (linear (lin_prefix (L_head L))
                           (row_step (state_weight m) c (L_emb L) (L_proj L)
                              (L_ln L) (sigma x) (tau x)))) xs)).
    { apply Forall_forall. intros row Hrow.
      apply list_elem_of_fmap in Hrow as (x & -> & _).
      intros Hnil. apply (f_equal length) in Hnil.
      rewrite length_log_softmax in Hnil.
      rewrite (ready_head_width _ _ _ _ _ Hr) in Hnil
        by by eapply list_elem_of_lookup_2.
      simpl in Hnil. lia. }
    rewrite (top1_lists _ _ Hne Hlists).
    rewrite map_map, zip_with_same_index.
    destruct (IH (S j)
      (fun x => row_step (state_weight m) c (L_emb L) (L_proj L)
                  (L_ln L) (sigma x) (tau x))
      (fun x => top1 (log_softmax
                (linear (lin_prefix (L_head L))
                   (row_step (state_weight m) c (L_emb L) (L_proj L)
                      (L_ln L) (sigma x) (tau x)))))
      (fun x => <[j := map exp (log_softmax
                (linear (lin_prefix (L_head L))
                   (row_step (state_weight m) c (L_emb L) (L_proj L)
                      (L_ln L) (sigma x) (tau x))))]> (alpha x))
      [1%nat; b])
      as (st' & Hloop & Hap).
    + lia.
    + intros u Hu. replace (S j + u)%nat with (j + S u)%nat by lia.
      apply Htop. lia.
    + intros x Hx. rewrite length_insert. by apply Halpha.
    + by left.
    + exists st'. split; [exact Hloop|]. rewrite Hap.
      apply list_fmap_ext. intros r x Hx.
      rewrite (layers_from_cons m j len L HL). cbn [Speculator.chain].
      rewrite exp_log_softmax. apply fill_step.
      rewrite Halpha by by eapply list_elem_of_lookup_2. lia.
Qed.

Lemma chain_distributions (m : Model) (inner : nat) (c : R) (len j : nat)
    (s : vec) (tok : nat) :
  ready m inner c -> (1 <= vsize m)%nat -> (j + len <= n_predict m)%nat ->
  Forall (fun d => length d = vsize m /\ vsum d = 1)
    (chain (state_weight m) c (layers_from m j len) s tok).
Proof.
  intros Hr Hv. revert j s tok.
  induction len as [|len IH]; intros j s tok Hj; [constructor|].
  destruct (layer_at_ready embedding linear m inner c j Hr ltac:(lia))
    as [L HL].
  pose proof (layer_at_Some _ _ _ HL) as (_ & _ & _ & Hh).
  rewrite (layers_from_cons m j len L HL). cbn [Speculator.chain].
  constructor; [|apply IH; lia].
  assert (Hw : forall row,
             length (linear (lin_prefix (L_head L)) row) = vsize m).
  { intros row. apply (ready_head_width _ _ _ _ _ Hr).
    by eapply list_elem_of_lookup_2. }
  split.
  - by rewrite length_softmax, Hw.
  - apply vsum_softmax. intros Hnil. apply (f_equal length) in Hnil.
    rewrite Hw in Hnil. simpl in Hnil. lia.
Qed.

(** With the top-k list of ones that the construction sets, the forward
    pass returns, for every batch row, the distributions of the row's own
    chain: a tensor of shape (b, N, vsize) whose rows sum to 1. *)
Lemma forward_single_candidate (m : Model) (inner : nat) (c : R)
    (hidden_states : list vec) (input_ids : list nat) (s0 : tensor vec) :
  ready m inner c ->
  (1 <= length hidden_states)%nat ->
  length input_ids = length hidden_states ->
  (1 <= vsize m)%nat ->
  scaled_input m hidden_states = Ok s0 ->
  top_k_tokens_per_head m = replicate (n_predict m) 1%nat ->
  let ap := zip_with (chain (state_weight m) c
                        (layers_from m 0 (n_predict m)))
              (cells s0) input_ids in
  forward embedding linear gelu m hidden_states input_ids = Ok ap
  /\ length ap = length hidden_states
  /\ Forall (fun heads =>
               length heads = n_predict m
               /\ Forall (fun d => length d = vsize m /\ vsum d = 1) heads)
       ap.
Proof.
  intros Hr Hb Hids Hv Hs0 Htop ap.
  destruct (scaled_input_shape m hidden_states s0 Hs0) as [Hd Hl].
  split; [|split].
  - unfold forward. rewrite Hs0. cbn [bind].
    rewrite Htop, length_replicate, Nat.eqb_refl. cbn [negb].
    set (xs := zip (cells s0) input_ids).
    assert (Hxs : length xs = length hidden_states).
    { unfold xs. rewrite length_zip. lia. }
    destruct (loop_single m inner c (length hidden_states)
                (replicate (n_predict m) 1%nat) xs Hr Hb Hv Hxs
                (n_predict m) 0 fst snd
                (fun _ => replicate (n_predict m) (replicate (vsize m) 0))
                [length hidden_states])
      as (st' & Hloop & Hap).
    + lia.
    + intros u Hu. apply lookup_replicate_2. lia.
    + intros x _. apply length_replicate.
    + by right.
    + assert (Hinit : init_loop m s0 input_ids
                = mkLoop (Tensor.mk [length hidden_states] (map fst xs))
                    (Tensor.mk [1%nat; length hidden_states] (map snd xs))
                    (map (fun _ => replicate (n_predict m)
                                     (replicate (vsize m) 0)) xs)).
      { unfold init_loop, unsqueeze0, size0, xs. cbn [dims cells].
        destruct s0 as [d0 S]. cbn [dims cells] in *. subst d0.
        cbn [hd]. rewrite Hids.
        change (map fst (zip S input_ids)) with (zip S input_ids).*1.
        change (map snd (zip S input_ids)) with (zip S input_ids).*2.
        rewrite fst_zip, snd_zip by lia.
        f_equal. rewrite <- Hxs. unfold xs. cbn [cells].
        generalize (zip S input_ids). intros l.
        induction l as [|x l IH]; simpl; [reflexivity | by rewrite IH]. }
      unfold size0. rewrite Hd. cbn [hd]. rewrite Hinit.
      match goal with
      | |- context [Speculator.loop ?e ?l ?g ?m' ?b' ?k ?r ?s] =>
          replace (Speculator.loop e l g m' b' k r s) with (Ok st')
            by (symmetry; exact Hloop)
      end.
      cbn [bind].
      rewrite Hap. unfold ap. rewrite zip_with_zip. fold xs. f_equal.
      apply list_fmap_ext. intros r [s tok] _. cbn [fst snd uncurry].
      apply fill_all. rewrite length_chain, length_replicate.
      by rewrite (length_layers_from m inner c 0 (n_predict m) Hr).
  - unfold ap. rewrite length_zip_with. lia.
  - unfold ap. apply Forall_zip_with_all. intros s tok _ _. split.
    + rewrite length_chain.
      by rewrite (length_layers_from m inner c 0 (n_predict m) Hr).
    + by apply (chain_distributions m inner c).
Qed.

End SingleCandidate.

(** ** More than one candidate: the forward pass raises *)

Section Branching.
Import Speculator.
Variable embedding : string -> nat -> vec.
Variable linear : string -> vec -> vec.
Variable gelu : R -> R.

Local Abbreviation step := (Speculator.step embedding linear gelu).
Local Abbreviation loop := (Speculator.loop embedding linear gelu).
Local Abbreviation ready := (Speculator.ready embedding linear).

Lemma mapM_topk_Raise (k : nat) (rows : list vec) (e : exn) :
  mapM (topk k) rows = Raise e -> e = RuntimeError.
Proof.
  induction rows as [|row rows IH]; simpl; [discriminate|].
  unfold topk at 1. destruct (length row <? k)%nat; simpl.
  - by intros [= <-].
  - destruct (mapM (topk k) rows) as [ls|e']; simpl; [discriminate|].
    intros [= <-]. by apply IH.
Qed.

Lemma step_Raise_inv (m : Model) (inner : nat) (c : R) (b cnum i k : nat)
    (top_k : list nat) (st : loop_state) (L : layer) (e : exn) :
  ready m inner c ->
  (1 <= b)%nat ->
  aligned b cnum st ->
  layer_at m i = Some L ->
  top_k !! i = Some k ->
  step m b top_k i st = Raise e ->
  e = RuntimeError.
Proof.
  intros Hr Hb Hal HL Hk Hstep.
  destruct (decide (cnum = 1%nat /\ (k <= vsize m)%nat)) as [[-> Hkv]|Hno].
  { destruct (step_ok embedding linear gelu m inner c b i k top_k st L
                Hr Hb Hal HL Hk Hkv) as (lists & _ & Heq).
    rewrite Heq in Hstep. discriminate. }
  pose proof Hal as (Hdi & Hli & Hls & Hds & Hap).
  pose proof (layer_at_Some _ _ _ HL) as (He & Hp & Hl & Hh).
  unfold Speculator.step in Hstep.
  rewrite (mix_spec embedding linear gelu m inner c b cnum i st L Hr Hal HL)
    in Hstep.
  cbn [bind] in Hstep.
  rewrite (predict_spec linear m i _ (L_head L) Hh) in Hstep.
  cbn [bind dims cells] in Hstep.
  rewrite (idx_Some _ _ _ Hk) in Hstep. cbn [bind] in Hstep.
  unfold tmapM in Hstep. cbn [dims cells] in Hstep.
  destruct (mapM (topk k) _) as [lists|e'] eqn:Hlists.
  - cbn [bind] in Hstep. unfold tmap in Hstep. cbn [dims cells] in Hstep.
    destruct (decide (cnum = 1%nat)) as [->|Hne].
    + exfalso. apply Hno. split; [reflexivity|].
      apply mapM_Ok in Hlists.
      destruct (cells (state st)) as [|s S]; [simpl in Hls; lia|].
      destruct (cells (ind st)) as [|tok T]; [simpl in Hli; lia|].
      simpl in Hlists. inversion Hlists as [|row l ? ? Hrow _]; subst.
      unfold topk in Hrow.
      destruct (length _ <? k)%nat eqn:E; [discriminate|].
      apply Nat.ltb_ge in E. rewrite length_log_softmax in E.
      rewrite (ready_head_width _ _ _ _ _ Hr) in E
        by by eapply list_elem_of_lookup_2.
      exact E.
    + rewrite set_head_branching in Hstep by exact Hne.
      cbn [bind] in Hstep. by injection Hstep as <-.
  - cbn [bind] in Hstep. injection Hstep as <-.
    by apply mapM_topk_Raise in Hlists.
Qed.

Lemma loop_Raise_inv (m : Model) (inner : nat) (c : R) (b : nat)
    (top_k : list nat) (len j c0 : nat) (st0 : loop_state) (e : exn) :
  ready m inner c ->
  (1 <= b)%nat ->
  length top_k = n_predict m ->
  (j + len <= n_predict m)%nat ->
  aligned b c0 st0 ->
  loop m b top_k (seq j len) st0 = Raise e ->
  e = RuntimeError.
Proof.
  intros Hr Hb Htop. revert j c0 st0.
  induction len as [|len IH]; intros j c0 st0 Hj Hal Hloop; [discriminate|].
  cbn [seq Speculator.loop] in Hloop.
  destruct (layer_at_ready embedding linear m inner c j Hr ltac:(lia))
    as [L HL].
  destruct (lookup_lt_is_Some_2 top_k j ltac:(lia)) as [k Hk].
  destruct (step m b top_k j st0) as [st1|e1] eqn:Hstep; cbn [bind] in Hloop.
  - destruct (step_Ok_inv embedding linear gelu m inner c b c0 j k top_k
                st0 st1 L) as [-> Hkv]; try done.
    apply (IH (S j) k st1); [lia | | exact Hloop].
    by eapply step_ok_aligned.
  - injection Hloop as <-. by eapply step_Raise_inv.
Qed.

(** A loop that returns has selected a single candidate at every step but
    the last. *)
Lemma loop_Ok_ones (m : Model) (inner : nat) (c : R) (b : nat)
    (top_k : list nat) (len j c0 : nat) (st0 st : loop_state) :
  ready m inner c ->
  (1 <= b)%nat ->
  length top_k = n_predict m ->
  (j + len <= n_predict m)%nat ->
  aligned b c0 st0 ->
  loop m b top_k (seq j len) st0 = Ok st ->
  (len <> 0%nat -> c0 = 1%nat)
  /\ forall u, (S u < len)%nat -> top_k !! (j + u)%nat = Some 1%nat.
Proof.
  intros Hr Hb Htop. revert j c0 st0.
  induction len as [|len IH]; intros j c0 st0 Hj Hal Hloop.
  - split; [done | intros u Hu; lia].
  - cbn [seq Speculator.loop] in Hloop.
    destruct (layer_at_ready embedding linear m inner c j Hr ltac:(lia))
      as [L HL].
    destruct (lookup_lt_is_Some_2 top_k j ltac:(lia)) as [k Hk].
    destruct (step m b top_k j st0) as [st1|e1] eqn:Hstep; [|discriminate].
    cbn [bind] in Hloop.
    destruct (step_Ok_inv embedding linear gelu m inner c b c0 j k top_k
                st0 st1 L) as [-> Hkv]; try done.
    assert (Hal1 : aligned b k st1) by by eapply step_ok_aligned.
    destruct (IH (S j) k st1 ltac:(lia) Hal1 Hloop) as [Hk1 Hrest].
    split; [done|]. intros [|u] Hu.
    + rewrite Nat.add_0_r, Hk. f_equal. apply Hk1. lia.
    + replace (j + S u)%nat with (S j + u)%nat by lia. apply Hrest. lia.
Qed.

(** A top-k other than 1 at a head that is not the last one makes the
    forward pass raise: the next step holds that many candidates per batch
    row and cannot store its distributions in [all_probs[:, i]]. *)
Lemma forward_branching_raises (m : Model) (inner : nat) (c : R)
    (hidden_states : list vec) (input_ids : list nat) (j k : nat) :
  ready m inner c ->
  (1 <= length hidden_states)%nat ->
  length input_ids = length hidden_states ->
  is_ok (scaled_input m hidden_states) ->
  length (top_k_tokens_per_head m) = n_predict m ->
  (S j < n_predict m)%nat ->
  top_k_tokens_per_head m !! j = Some k ->
  k <> 1%nat ->
  forward embedding linear gelu m hidden_states input_ids
  = Raise RuntimeError.
Proof.
  intros Hr Hb Hids [s0 Hs0] Htop Hj Hk Hne.
  destruct (scaled_input_shape m hidden_states s0 Hs0) as [Hd Hl].
  pose proof (init_loop_aligned m s0 input_ids _ Hd Hl Hids) as Hal0.
  unfold forward. rewrite Hs0. cbn [bind].
  rewrite Htop, Nat.eqb_refl. cbn [negb].
  unfold size0. rewrite Hd. cbn [hd].
  destruct (Speculator.loop _ _ _ _ _ _ _ _) as [st|e] eqn:Hloop.
  - exfalso.
    destruct (loop_Ok_ones m inner c _ _ (n_predict m) 0 1 _ st Hr Hb Htop
                ltac:(lia) Hal0 Hloop) as [_ Hones].
    specialize (Hones j Hj). simpl in Hones. congruence.
  - cbn [bind].
    by rewrite (loop_Raise_inv m inner c _ _ (n_predict m) 0 1 _ e Hr Hb
                  Htop ltac:(lia) Hal0 Hloop).
Qed.

End Branching.

(** ** The forward pass on a constructed model *)

Section ForwardExamples.
Import Speculator Examples.

(** The assignment [all_probs[:, i] = src] on small shapes. *)
Example set_head_one_candidate :
  set_head 2 1 0 [[[0]]; [[0]]] (Tensor.mk [1%nat; 2%nat] [[5]; [6]])
  = Ok [[[5]]; [[6]]].
Proof. reflexivity. Qed.

Example set_head_two_candidates :
  set_head 1 1 1 [[[0]; [0]]] (Tensor.mk [2%nat; 1%nat] [[5]; [6]])
  = Raise RuntimeError.
Proof. reflexivity. Qed.

Example set_head_single_row :
  set_head 2 2 0 [[[0; 0]]; [[0; 0]]] (Tensor.mk [1%nat; 1%nat] [[5]])
  = Ok [[[5; 5]]; [[5; 5]]].
Proof. reflexivity. Qed.

Example expand_then_reshape :
  (do ex <- expand_k 2 (Tensor.mk [1%nat; 2%nat] [[5]; [6]]);
   reshape_state 2 ex)
  = Ok (Tensor.mk [2%nat; 2%nat] [[5]; [5]; [6]; [6]]).
Proof. reflexivity. Qed.

Lemma cfg_plain_ready (n next next' : nat) (m : Model) :
  Model_init ex_get_tensor n cfg_plain "speculator" next = Ok (m, next') ->
  ready ex_embedding ex_linear m 2 (emb_weight m * sqrt (2 / 2))
  /\ n_predict m = n
  /\ vsize m = 2%nat
  /\ top_k_tokens_per_head m = replicate n 1%nat
  /\ truthy (scale_input m) = false.
Proof.
  intros Hinit.
  apply Model_init_inv in Hinit
    as (embs & projs & heads & lns & inner & Hb & _ & Hn & Hin & ->).
  change (truthy (default (PBool false)
                    (speculator_config cfg_plain !! "tie_weights")))
    with false in Hb.
  rewrite build_lists_untied in Hb. injection Hb as <- <- <- <- _.
  assert (inner = PInt 2) as ->.
  { assert (H2 : speculator_config cfg_plain !! "inner_dim" = Some (PInt 2))
      by reflexivity.
    congruence. }
  split; [|repeat split; reflexivity].
  constructor; cbn [emb proj head ln n_predict vsize vocab_size cfg_plain].
  - by rewrite length_imap, length_seq.
  - by rewrite length_imap, length_seq.
  - by rewrite length_imap, length_seq.
  - by rewrite length_imap, length_seq.
  - reflexivity.
  - reflexivity.
  - reflexivity.
  - intros l Hl _. apply list_elem_of_lookup in Hl as [j Hj].
    rewrite list_lookup_imap in Hj.
    destruct (seq 0 n !! j) as [i|]; [|discriminate].
    injection Hj as <-. split; reflexivity.
  - lia.
  - unfold emb_scale. cbn [inner_dim as_float bind].
    rewrite py_sqrt_nonneg by lra. reflexivity.
Qed.

Lemma ready_set_top_k (embedding : string -> nat -> vec)
    (linear : string -> vec -> vec) (m : Model) (inner : nat) (c : R)
    (l : list nat) :
  ready embedding linear m inner c ->
  ready embedding linear (set_top_k l m) inner c.
Proof. intros [? ? ? ? ? ? ? ? ? ?]. by constructor. Qed.

Lemma recurrence_at_every_step_witness :
  exists m st L fed probs st',
    Model_init ex_get_tensor 3 cfg_plain "speculator" 0%nat = Ok (m, 12%nat)
    /\ loop ex_embedding ex_linear ex_gelu m 1 (top_k_tokens_per_head m)
         (seq 0 1) (init_loop m (Tensor.mk [1%nat] [[1; 0]]) [0%nat])
       = Ok st
    /\ layer_at m 1 = Some L
    /\ mix ex_embedding ex_linear ex_gelu m 1 (state st) (ind st) = Ok fed
    /\ cells fed
       = zip_with
           (row_step ex_embedding ex_linear ex_gelu (state_weight m)
              (emb_weight m * sqrt (2 / 2)) (L_emb L) (L_proj L) (L_ln L))
           (cells (state st)) (cells (ind st))
    /\ predict ex_linear m 1 fed = Ok probs
    /\ cells probs
       = map (fun s => log_softmax (ex_linear (lin_prefix (L_head L)) s))
           (cells fed)
    /\ step ex_embedding ex_linear ex_gelu m 1 (top_k_tokens_per_head m) 1 st
       = Ok st'
    /\ all_probs st'
       = zip_with (fun heads r => <[1%nat := map exp r]> heads)
           (all_probs st) (cells probs).
Proof.
  destruct (cfg_plain_init 3 0%nat ltac:(lia)) as (m & Hm & _).
  destruct (cfg_plain_ready 3 0 12 m Hm) as (Hr & Hn & Hv & Htop & Hscl).
  assert (Hs0 : scaled_input m [[1; 0]] = Ok (Tensor.mk [1%nat] [[1; 0]])).
  { unfold scaled_input. by rewrite Hscl. }
  destruct (recurrence_at_every_step ex_embedding ex_linear ex_gelu m 2
              (emb_weight m * sqrt (2 / 2)) [[1; 0]] [0%nat]
              (Tensor.mk [1%nat] [[1; 0]]) 1)
    as [Hrec Hreach].
  - exact Hr.
  - simpl. lia.
  - reflexivity.
  - exact Hs0.
  - rewrite Hn. lia.
  - destruct Hreach as (st & Hloop & _ & _ & Hstep).
    + intros j Hj. rewrite Htop. apply lookup_replicate_2. lia.
    + rewrite Hv. lia.
    + destruct (Hrec st Hloop)
        as (L & fed & probs & x & HL & _ & _ & Hmix & _ & Hcells & Hpred
            & Hprobs & _ & Hnext).
      destruct (Hstep 1%nat) as [st' Hst'].
      { rewrite Htop. reflexivity. }
      { rewrite Hv. lia. }
      destruct (Hnext st' Hst') as (_ & Hap & _).
      exists m, st, L, fed, probs, st'.
      split; [exact Hm|]. split; [exact Hloop|]. split; [exact HL|].
      split; [exact Hmix|]. split; [exact Hcells|]. split; [exact Hpred|].
      split; [exact Hprobs|]. split; [exact Hst' | exact Hap].
Defined.

Lemma top_k_candidates_propagated_witness :
  exists m st' lists,
    Model_init ex_get_tensor 3 cfg_plain "speculator" 0%nat = Ok (m, 12%nat)
    /\ step ex_embedding ex_linear ex_gelu m 1 (top_k_tokens_per_head m) 0
         (init_loop m (Tensor.mk [1%nat] [[1; 0]]) [0%nat])
       = Ok st'
    /\ ind st' = Tensor.mk [1%nat; 1%nat] (concat lists)
    /\ Forall (fun l => length l = 1%nat) lists.
Proof.
  destruct (cfg_plain_init 3 0%nat ltac:(lia)) as (m & Hm & _).
  destruct (cfg_plain_ready 3 0 12 m Hm) as (Hr & Hn & Hv & Htop & Hscl).
  assert (Hs0 : scaled_input m [[1; 0]] = Ok (Tensor.mk [1%nat] [[1; 0]])).
  { unfold scaled_input. by rewrite Hscl. }
  destruct (top_k_candidates_propagated ex_embedding ex_linear ex_gelu m 2
              (emb_weight m * sqrt (2 / 2)) [[1; 0]] [0%nat]
              (Tensor.mk [1%nat] [[1; 0]]) 0 1
              (init_loop m (Tensor.mk [1%nat] [[1; 0]]) [0%nat]))
    as [Hsel Hret].
  - exact Hr.
  - simpl. lia.
  - reflexivity.
  - exact Hs0.
  - rewrite Hn. lia.
  - rewrite Htop. reflexivity.
  - reflexivity.
  - destruct Hret as [st' Hst']; [reflexivity | rewrite Hv; lia |].
    destruct (Hsel st' Hst') as (fed & probs & lists & _ & _ & Hlists & Hind).
    exists m, st', lists. split; [exact Hm|]. split; [exact Hst'|].
    split; [exact Hind|].
    apply Forall_forall. intros l Hl.
    apply list_elem_of_lookup in Hl as [j Hj].
    destruct (Forall2_lookup_r _ _ _ _ _ Hlists Hj) as (row & _ & Htk).
    by destruct Htk as [Hlen _].
Defined.

(** C2: the claim covers every top-k list; on a model of two heads whose
    top-k list has been set to [2; 1], one batch row and a vocabulary of two
    tokens, the forward pass does not return a tensor of shape (1, 2, 2): it
    raises at step 1, whose two candidate rows cannot be stored in
    all_probs[:, 1]. *)
Theorem branching_forward_raises :
  exists m,
    Model_init ex_get_tensor 2 cfg_plain "speculator" 0%nat = Ok (m, 8%nat)
    /\ forward ex_embedding ex_linear ex_gelu (set_top_k [2; 1]%nat m)
         [[1; 0]] [0%nat]
       = Raise RuntimeError.
Proof.
  destruct (cfg_plain_init 2 0%nat ltac:(lia)) as (m & Hm & _).
  destruct (cfg_plain_ready 2 0 8 m Hm) as (Hr & Hn & _ & _ & Hscl).
  exists m. split; [exact Hm|].
  apply (forward_branching_raises ex_embedding ex_linear ex_gelu
           (set_top_k [2; 1]%nat m) 2 (emb_weight m * sqrt (2 / 2))
           [[1; 0]] [0%nat] 0 2).
  - by apply ready_set_top_k.
  - simpl. lia.
  - reflexivity.
  - eexists. unfold scaled_input. cbn [set_top_k scale_input].
    rewrite Hscl. reflexivity.
  - cbn [set_top_k top_k_tokens_per_head n_predict]. by rewrite Hn.
  - cbn [set_top_k n_predict]. rewrite Hn. lia.
  - reflexivity.
  - lia.
Qed.

(** The same model with the top-k list of ones that the construction set
    returns a tensor of shape (1, 2, 2) whose rows sum to 1. *)
Lemma single_candidate_forward_returns :
  exists m ap,
    Model_init ex_get_tensor 2 cfg_plain "speculator" 0%nat = Ok (m, 8%nat)
    /\ forward ex_embedding ex_linear ex_gelu m [[1; 0]] [0%nat] = Ok ap
    /\ length ap = 1%nat
    /\ n_predict m = 2%nat
    /\ vsize m = 2%nat
    /\ Forall (fun heads =>
                 length heads = n_predict m
                 /\ Forall (fun d => length d = vsize m /\ vsum d = 1) heads)
         ap.
Proof.
  destruct (cfg_plain_init 2 0%nat ltac:(lia)) as (m & Hm & _).
  destruct (cfg_plain_ready 2 0 8 m Hm) as (Hr & Hn & Hv & Htop & Hscl).
  destruct (forward_single_candidate ex_embedding ex_linear ex_gelu m 2
              (emb_weight m * sqrt (2 / 2)) [[1; 0]] [0%nat]
              (Tensor.mk [1%nat] [[1; 0]]))
    as (Hfwd & Hlen & Hall).
  - exact Hr.
  - simpl. lia.
  - reflexivity.
  - rewrite Hv. lia.
  - unfold scaled_input. by rewrite Hscl.
  - by rewrite Htop, Hn.
  - eexists m, _. split; [exact Hm|]. split; [exact Hfwd|].
    split; [exact Hlen|]. split; [exact Hn|]. split; [exact Hv | exact Hall].
Qed.

End ForwardExamples.

(** * Further properties of the code *)

(** ** The weight schedule (lines 128-130) *)

Section WeightSchedule.
Import Speculator Examples.

Lemma state_weight_power (n : nat) :
  (1 <= n)%nat -> Weights.state_weight_of n ^ (2 * n) = 1 / 2.
Proof.
  intros Hn. unfold Weights.state_weight_of.
  assert (Hpos : 0 < INR n) by (apply lt_0_INR; lia).
  rewrite <- Rpower_pow by apply exp_pos.
  rewrite Rpower_mult, mult_INR.
  replace (1 / 2 / INR n * (INR 2 * INR n)) with 1.
  - apply Rpower_1. lra.
  - simpl. field. lra.
Qed.

(** X1: the comment of line 128 in closed form: after the N steps of a
    constructed model the square of the coefficient of the first state,
    state_weight^(2 N), is one half. *)
Theorem state_weight_half_after_all_heads (get_tensor : string -> vec)
    (n : nat) (config : Config) (prefix : string) (next next' : nat)
    (m : Model) :
  Model_init get_tensor n config prefix next = Ok (m, next') ->
  state_weight m ^ (2 * n_predict m) = 1 / 2.
Proof.
  intros Hinit.
  apply Model_init_inv in Hinit
    as (embs & projs & heads & lns & inner & _ & _ & Hn & _ & ->).
  cbn [state_weight n_predict]. by apply state_weight_power.
Qed.

Lemma state_weight_half_after_all_heads_witness :
  exists m,
    Model_init ex_get_tensor 3 cfg_plain "speculator" 0%nat = Ok (m, 12%nat)
    /\ state_weight m ^ (2 * n_predict m) = 1 / 2.
Proof.
  destruct (cfg_plain_init 3 0%nat ltac:(lia)) as (m & Hm & _).
  exists m. split; [exact Hm|].
  exact (state_weight_half_after_all_heads ex_get_tensor 3 cfg_plain
           "speculator" 0%nat 12%nat m Hm).
Defined.

End WeightSchedule.

(** ** The normalizer (lines 45-52) *)

Section NormalizerProperties.
Import Examples.

(** X3: the learned scale and shift are combined with every row under the
    broadcasting rule of the last axis: on a tensor with at least one row of
    D cells, D other than 1, an affine normalizer whose scale has neither D
    cells nor 1, or whose scale has D cells and whose shift has neither D
    nor 1, raises. *)
Theorem normalizer_size_mismatch_raises (l : LayerNorm.t) (x : tensor vec)
    (D : nat) :
  LayerNorm.elementwise_scale_and_shift l = true ->
  cells x <> [] ->
  Forall (fun row => length row = D) (cells x) ->
  D <> 1%nat ->
  (length (LayerNorm.weight l) <> D /\ length (LayerNorm.weight l) <> 1%nat)
  \/ (length (LayerNorm.weight l) = D
      /\ length (LayerNorm.bias l) <> D
      /\ length (LayerNorm.bias l) <> 1%nat) ->
  LayerNorm.forward l x = Raise RuntimeError.
Proof.
  intros Haff Hne Hrows HD Hsz. unfold LayerNorm.forward, tmapM, tmap.
  rewrite Haff. cbn [dims cells].
  destruct (cells x) as [|row rows]; [done|].
  apply Forall_cons in Hrows as [Hrow Hrows].
  assert (Hn : length (LayerNorm.normalize (LayerNorm.eps l) row) = D).
  { unfold LayerNorm.normalize. by rewrite length_map. }
  destruct Hsz as [[Hw HwD]|(Hw & Hb & Hb1)].
  - cbn [map mapM]. unfold bvec at 1. rewrite Hn.
    destruct (length (LayerNorm.weight l) =? D)%nat eqn:E1;
      [apply Nat.eqb_eq in E1; contradiction|].
    destruct (length (LayerNorm.weight l) =? 1)%nat eqn:E2;
      [apply Nat.eqb_eq in E2; contradiction|].
    destruct (D =? 1)%nat eqn:E3; [apply Nat.eqb_eq in E3; contradiction|].
    reflexivity.
  - destruct (mapM (fun row0 => bvec Rmult (LayerNorm.weight l) row0)
                (map (LayerNorm.normalize (LayerNorm.eps l)) (row :: rows)))
      as [x1|e] eqn:Hx1.
    + cbn [bind dims cells]. cbn [map mapM] in Hx1.
      rewrite bvec_same_length in Hx1 by congruence. cbn [bind] in Hx1.
      destruct (mapM _ (map _ rows)) as [x1'|]; [|discriminate].
      cbn [bind] in Hx1. injection Hx1 as <-.
      cbn [mapM]. unfold bvec at 1.
      rewrite length_zip_with, Hn, Hw, Nat.min_id.
      destruct (D =? length (LayerNorm.bias l))%nat eqn:E1;
        [apply Nat.eqb_eq in E1; congruence|].
      destruct (D =? 1)%nat eqn:E3; [apply Nat.eqb_eq in E3; contradiction|].
      destruct (length (LayerNorm.bias l) =? 1)%nat eqn:E2;
        [apply Nat.eqb_eq in E2; contradiction|].
      reflexivity.
    + cbn [bind]. cbn [map mapM] in Hx1.
      rewrite bvec_same_length in Hx1 by congruence. cbn [bind] in Hx1.
      destruct (mapM _ (map _ rows)) as [x1'|e'] eqn:Hrest;
        [discriminate|].
      cbn [bind] in Hx1. injection Hx1 as <-.
      exfalso. clear -Hrest Hrows Hw.
      induction Hrows as [|r rs Hr _ IH]; [discriminate|].
      cbn [map mapM] in Hrest.
      rewrite bvec_same_length in Hrest.
      2:{ unfold LayerNorm.normalize. rewrite length_map. congruence. }
      cbn [bind] in Hrest.
      destruct (mapM (fun row0 : vec => bvec Rmult (LayerNorm.weight l) row0)
                  (map (LayerNorm.normalize (LayerNorm.eps l)) rs))
        as [|e'']; [discriminate|].
      cbn [bind] in Hrest. injection Hrest as ->. by apply IH.
Qed.

Lemma normalizer_size_mismatch_raises_witness :
  LayerNorm.forward ex_ln_wide ex_input = Raise RuntimeError.
Proof.
  apply (normalizer_size_mismatch_raises ex_ln_wide ex_input 2).
  - reflexivity.
  - discriminate.
  - repeat constructor.
  - lia.
  - left. simpl. lia.
Defined.

End NormalizerProperties.

(** ** Construction (lines 56-135) *)

Section ConstructionProperties.
Import Speculator Examples.

Lemma build_lists_returns (get_tensor : string -> vec) (tie : bool)
    (n : nat) (config : Config) (prefix : string) (next : nat) :
  exists lists next',
    build_lists get_tensor tie n config prefix next = Ok (lists, next').
Proof.
  destruct tie.
  - rewrite build_lists_tied. by eexists _, _.
  - rewrite build_lists_untied. by eexists _, _.
Qed.

(** Without input scaling, a construction for zero heads divides by zero
    on line 129. *)
Lemma Model_init_zero_heads (get_tensor : string -> vec) (config : Config)
    (prefix : string) (next : nat) :
  truthy (default (PBool false) (speculator_config config !! "scale_input"))
  = false ->
  Model_init get_tensor 0 config prefix next = Raise ZeroDivisionError.
Proof.
  intros Hs. unfold Model_init. unfold cbind at 1.
  destruct (build_lists_returns get_tensor
              (truthy (default (PBool false)
                         (speculator_config config !! "tie_weights")))
              0 config prefix next) as ([[[embs projs] heads] lns] & n1 & ->).
  rewrite Hs. reflexivity.
Qed.

(** Without input scaling and with at least one head, a configuration
    without [inner_dim] raises on line 134. *)
Lemma Model_init_no_inner_dim (get_tensor : string -> vec) (n : nat)
    (config : Config) (prefix : string) (next : nat) :
  truthy (default (PBool false) (speculator_config config !! "scale_input"))
  = false ->
  (1 <= n)%nat ->
  speculator_config config !! "inner_dim" = None ->
  Model_init get_tensor n config prefix next = Raise KeyError.
Proof.
  intros Hs Hn Hin. unfold Model_init. unfold cbind at 1.
  destruct (build_lists_returns get_tensor
              (truthy (default (PBool false)
                         (speculator_config config !! "tie_weights")))
              n config prefix next) as ([[[embs projs] heads] lns] & n1 & ->).
  rewrite Hs.
  destruct n as [|n0]; [lia|].
  unfold cbind at 1. unfold cret at 1.
  unfold cbind at 1. unfold cret at 1.
  unfold cbind at 1.
  pose proof (state_weight_sq_lt_1 (S n0) ltac:(lia)) as [_ Hlt].
  rewrite py_sqrt_nonneg by lra. simpl.
  unfold cbind. rewrite Hin. reflexivity.
Qed.

(** X4: the outcome of a construction is decided by three inputs, in this
    order: a truthy scale_input raises [TypeError]; otherwise zero heads
    raise [ZeroDivisionError]; otherwise a configuration without inner_dim
    raises [KeyError]; otherwise the construction returns a model. *)
Theorem construction_outcome (get_tensor : string -> vec) (n : nat)
    (config : Config) (prefix : string) (next : nat) :
  let sc := speculator_config config in
  let scl := truthy (default (PBool false) (sc !! "scale_input")) in
  (scl = true ->
   Model_init get_tensor n config prefix next = Raise TypeError)
  /\ (scl = false -> n = 0%nat ->
      Model_init get_tensor n config prefix next = Raise ZeroDivisionError)
  /\ (scl = false -> (1 <= n)%nat -> sc !! "inner_dim" = None ->
      Model_init get_tensor n config prefix next = Raise KeyError)
  /\ (scl = false -> (1 <= n)%nat -> is_Some (sc !! "inner_dim") ->
      exists m next',
        Model_init get_tensor n config prefix next = Ok (m, next')).
Proof.
  intros sc scl. split; [|split; [|split]].
  - intros Hs. by apply Model_init_scale_input.
  - intros Hs ->. by apply Model_init_zero_heads.
  - intros Hs Hn Hin. by apply Model_init_no_inner_dim.
  - intros Hs Hn [inner Hin].
    by apply (Model_init_returns get_tensor n config prefix next inner).
Qed.

Lemma construction_outcome_witness :
  Model_init ex_get_tensor 3 cfg_scale_input "speculator" 0%nat
    = Raise TypeError
  /\ Model_init ex_get_tensor 0 cfg_plain "speculator" 0%nat
     = Raise ZeroDivisionError
  /\ Model_init ex_get_tensor 3 cfg_no_inner "speculator" 0%nat
     = Raise KeyError
  /\ exists m next',
       Model_init ex_get_tensor 3 cfg_tied "speculator" 0%nat
       = Ok (m, next').
Proof.
  split; [|split; [|split]].
  - apply (construction_outcome ex_get_tensor 3 cfg_scale_input
             "speculator" 0%nat). reflexivity.
  - apply (construction_outcome ex_get_tensor 0 cfg_plain "speculator"
             0%nat); reflexivity.
  - apply (construction_outcome ex_get_tensor 3 cfg_no_inner "speculator"
             0%nat); [reflexivity | lia | reflexivity].
  - apply (construction_outcome ex_get_tensor 3 cfg_tied "speculator"
             0%nat); [reflexivity | lia | by eexists].
Defined.

(** X5: a model that a construction returns holds one module per head in
    each of its four lists, tied or not, a top-k entry per head, no [ln0],
    the vocabulary size of the configuration, and normalizers that all
    carry affine parameters and eps = 1e-06. *)
Theorem constructed_model_invariant (get_tensor : string -> vec) (n : nat)
    (config : Config) (prefix : string) (next next' : nat) (m : Model) :
  Model_init get_tensor n config prefix next = Ok (m, next') ->
  n_predict m = n
  /\ (1 <= n)%nat
  /\ length (emb m) = n /\ length (proj m) = n
  /\ length (head m) = n /\ length (ln m) = n
  /\ length (top_k_tokens_per_head m) = n
  /\ (forall i, (i < n)%nat -> is_Some (layer_at m i))
  /\ ln0 m = None
  /\ truthy (scale_input m) = false
  /\ vsize m = vocab_size config
  /\ Forall (fun l => LayerNorm.elementwise_scale_and_shift l = true
                      /\ LayerNorm.eps l = 1 / 1000000) (ln m).
Proof.
  intros Hinit.
  apply Model_init_inv in Hinit
    as (embs & projs & heads & lns & inner & Hb & Hscl & Hn & _ & ->).
  cbn [n_predict emb proj head ln top_k_tokens_per_head ln0 scale_input
       vsize].
  assert (Hlens : length embs = n /\ length projs = n /\ length heads = n
                  /\ length lns = n
                  /\ Forall (fun l =>
                       LayerNorm.elementwise_scale_and_shift l = true
                       /\ LayerNorm.eps l = 1 / 1000000) lns).
  { destruct (truthy (default (PBool false)
                        (speculator_config config !! "tie_weights"))).
    - rewrite build_lists_tied in Hb. injection Hb as <- <- <- <- _.
      simpl. rewrite !length_replicate.
      repeat split; try lia.
      apply Forall_forall. intros l Hl.
      by apply elem_of_replicate in Hl as [-> _].
    - rewrite build_lists_untied in Hb. injection Hb as <- <- <- <- _.
      rewrite !length_imap, !length_seq. repeat split.
      apply Forall_forall. intros l Hl.
      apply list_elem_of_lookup in Hl as [j Hj].
      rewrite list_lookup_imap in Hj.
      destruct (seq 0 n !! j) as [i|]; [|discriminate].
      by injection Hj as <-. }
  destruct Hlens as (He & Hp & Hh & Hl & Haff).
  repeat split; try done.
  - apply length_replicate.
  - intros i Hi. unfold layer_at. cbn [emb proj head ln].
    destruct (lookup_lt_is_Some_2 embs i) as [e ->]; [lia|].
    destruct (lookup_lt_is_Some_2 projs i) as [p ->]; [lia|].
    destruct (lookup_lt_is_Some_2 lns i) as [l ->]; [lia|].
    destruct (lookup_lt_is_Some_2 heads i) as [h ->]; [lia|].
    by eexists.
Qed.

Lemma constructed_model_invariant_witness :
  exists m,
    Model_init ex_get_tensor 3 cfg_tied "speculator" 0%nat = Ok (m, 5%nat)
    /\ length (proj m) = 3%nat
    /\ is_Some (layer_at m 2).
Proof.
  destruct cfg_tied_init as (m & Hm & _).
  exists m. split; [exact Hm|].
  destruct (constructed_model_invariant ex_get_tensor 3 cfg_tied
              "speculator" 0%nat 5%nat m Hm)
    as (_ & _ & _ & Hp & _ & _ & _ & Hlayer & _).
  split; [exact Hp | apply Hlayer; lia].
Defined.

(** X6: the checkpoint keys behind head i of a constructed model.  Untied,
    head i reads [prefix.emb.i], [prefix.proj.i], [prefix.head.i] and the
    scale and shift [prefix.ln.i.weight], [prefix.ln.i.bias]; tied, every
    head reads [prefix.emb.0], [prefix.head.0] and [prefix.ln.0], head 0
    reads [prefix.proj.0] and every later head [prefix.proj.1]. *)
Theorem constructed_model_keys (get_tensor : string -> vec) (n : nat)
    (config : Config) (prefix : string) (next next' : nat) (m : Model)
    (i : nat) :
  Model_init get_tensor n config prefix next = Ok (m, next') ->
  (i < n)%nat ->
  exists L,
    layer_at m i = Some L
    /\ (truthy (tie_weights m) = false ->
        emb_prefix (L_emb L) = prefix +:+ ".emb." +:+ pretty i
        /\ lin_prefix (L_proj L) = prefix +:+ ".proj." +:+ pretty i
        /\ lin_prefix (L_head L) = prefix +:+ ".head." +:+ pretty i
        /\ LayerNorm.weight (L_ln L)
           = get_tensor ((prefix +:+ ".ln." +:+ pretty i) +:+ ".weight")
        /\ LayerNorm.bias (L_ln L)
           = get_tensor ((prefix +:+ ".ln." +:+ pretty i) +:+ ".bias"))
    /\ (truthy (tie_weights m) = true ->
        emb_prefix (L_emb L) = prefix +:+ ".emb.0"
        /\ lin_prefix (L_proj L)
           = (if decide (i = 0%nat) then prefix +:+ ".proj.0"
              else prefix +:+ ".proj.1")
        /\ lin_prefix (L_head L) = prefix +:+ ".head.0"
        /\ LayerNorm.weight (L_ln L)
           = get_tensor ((prefix +:+ ".ln.0") +:+ ".weight")
        /\ LayerNorm.bias (L_ln L)
           = get_tensor ((prefix +:+ ".ln.0") +:+ ".bias")).
Proof.
  intros Hinit Hi.
  apply Model_init_inv in Hinit
    as (embs & projs & heads & lns & inner & Hb & _ & _ & _ & ->).
  cbn [tie_weights]. unfold layer_at. cbn [emb proj head ln].
  destruct (truthy (default (PBool false)
                      (speculator_config config !! "tie_weights"))).
  - rewrite build_lists_tied in Hb. injection Hb as <- <- <- <- _.
    rewrite !lookup_replicate_2 by lia.
    destruct i as [|i'].
    + cbn [app lookup list_lookup]. eexists. split; [reflexivity|].
      split; [done|]. intros _. cbn [L_emb L_proj L_head L_ln]. by repeat split.
    + rewrite lookup_cons_ne_0 by lia. cbn [Nat.pred].
      rewrite lookup_replicate_2 by lia.
      eexists. split; [reflexivity|].
      split; [done|]. intros _. cbn [L_emb L_proj L_head L_ln]. by repeat split.
  - rewrite build_lists_untied in Hb. injection Hb as <- <- <- <- _.
    rewrite !list_lookup_imap, lookup_seq_lt by lia. cbn [fmap option_fmap option_map].
    eexists. split; [reflexivity|].
    split; [|done]. intros _. cbn [L_emb L_proj L_head L_ln]. by repeat split.
Qed.

Lemma constructed_model_keys_witness :
  exists m L,
    Model_init ex_get_tensor 3 cfg_tied "speculator" 0%nat = Ok (m, 5%nat)
    /\ layer_at m 2 = Some L
    /\ lin_prefix (L_proj L) = "speculator.proj.1"
    /\ emb_prefix (L_emb L) = "speculator.emb.0".
Proof.
  destruct cfg_tied_init as (m & Hm & Htie).
  destruct (constructed_model_keys ex_get_tensor 3 cfg_tied "speculator"
              0%nat 5%nat m 2 Hm ltac:(lia)) as (L & HL & _ & Htied).
  exists m, L. split; [exact Hm|]. split; [exact HL|].
  destruct (Htied Htie) as (He & Hp & _). split; [exact Hp | exact He].
Defined.

End ConstructionProperties.

(** ** Checkpoint routing (lines 207-218) and [load] (lines 202-222) *)

Section RoutingProperties.
Import Speculator Examples.

Section Files.
Variable path_join : string -> string -> string.
Variable keys_of : string -> list string.

Lemma claimed_same_files (dir : string) (l1 l2 : list string)
    (routing : gmap string string) (k f : string) :
  (forall fname, fname ∈ l1 <-> fname ∈ l2) ->
  Head.claimed path_join keys_of dir l1 routing k f
  <-> Head.claimed path_join keys_of dir l2 routing k f.
Proof.
  intros Hsame. unfold Head.claimed. split.
  - intros [H|(fn & Hin & Hf & Hk)]; [by left|].
    right. exists fn. split; [by apply Hsame | by split].
  - intros [H|(fn & Hin & Hf & Hk)]; [by left|].
    right. exists fn. split; [by apply Hsame | by split].
Qed.

(** X7: the outcome of the routing loop depends on the set of file names
    only: two lists of model paths with the same members, in any order and
    with any repetitions, raise together or return the same table. *)
Theorem routing_depends_on_file_set (dir : string) (l1 l2 : list string)
    (routing : gmap string string) :
  (forall fname, fname ∈ l1 <-> fname ∈ l2) ->
  Head.route path_join keys_of dir l1 routing
  = Head.route path_join keys_of dir l2 routing.
Proof.
  intros Hsame.
  pose proof (route_spec path_join keys_of dir l1 routing) as H1.
  pose proof (route_spec path_join keys_of dir l2 routing) as H2.
  destruct (Head.route path_join keys_of dir l1 routing) as [r1|e1],
           (Head.route path_join keys_of dir l2 routing) as [r2|e2].
  - destruct H1 as [_ H1], H2 as [_ H2]. f_equal.
    apply map_eq. intros k. apply option_eq. intros f.
    by rewrite H1, H2, (claimed_same_files dir l1 l2 routing k f Hsame).
  - destruct H1 as [Hfree _], H2 as [_ (k & f1 & f2 & Hc1 & Hc2 & Hne)].
    destruct Hne. apply (Hfree k);
      by apply (claimed_same_files dir l1 l2 routing k _ Hsame).
  - destruct H2 as [Hfree _], H1 as [_ (k & f1 & f2 & Hc1 & Hc2 & Hne)].
    destruct Hne. apply (Hfree k);
      by apply (claimed_same_files dir l1 l2 routing k _ Hsame).
  - destruct H1 as [-> _], H2 as [-> _]. reflexivity.
Qed.

(** X8: a routing loop that returns keeps every entry of the table it was
    given, sends every key of every listed file to that file, adds no
    entry beyond those, and is settled: running the loop again on the
    table it returned returns that table unchanged. *)
Theorem routing_table_settled (dir : string) (model_paths : list string)
    (routing routing' : gmap string string) :
  Head.route path_join keys_of dir model_paths routing = Ok routing' ->
  routing ⊆ routing'
  /\ (forall fname k,
        fname ∈ model_paths -> k ∈ keys_of (path_join dir fname) ->
        routing' !! k = Some (path_join dir fname))
  /\ (forall k f,
        routing' !! k = Some f ->
        routing !! k = Some f
        \/ exists fname, fname ∈ model_paths
                         /\ f = path_join dir fname /\ k ∈ keys_of f)
  /\ Head.route path_join keys_of dir model_paths routing' = Ok routing'.
Proof.
  intros Hroute.
  pose proof (route_spec path_join keys_of dir model_paths routing) as Hspec.
  rewrite Hroute in Hspec. destruct Hspec as [Hfree Hlook].
  assert (Hfiles : forall fname k,
            fname ∈ model_paths -> k ∈ keys_of (path_join dir fname) ->
            routing' !! k = Some (path_join dir fname)).
  { intros fname k Hin Hk. apply Hlook. right. exists fname. by split. }
  assert (Hback : forall k f,
            Head.claimed path_join keys_of dir model_paths routing' k f ->
            routing' !! k = Some f).
  { intros k f [H|(fn & Hin & -> & Hk)]; [exact H | by apply Hfiles]. }
  split; [|split; [|split]].
  - apply map_subseteq_spec. intros k f Hk. apply Hlook. by left.
  - exact Hfiles.
  - intros k f Hk. by apply Hlook in Hk.
  - pose proof (route_spec path_join keys_of dir model_paths routing')
      as Hspec'.
    destruct (Head.route path_join keys_of dir model_paths routing')
      as [r2|e].
    + destruct Hspec' as [_ Hlook']. f_equal.
      apply map_eq. intros k. apply option_eq. intros f.
      rewrite Hlook'. split; [apply Hback | by left].
    + destruct Hspec' as [_ (k & f1 & f2 & Hc1 & Hc2 & Hne)].
      destruct Hne. apply Hback in Hc1, Hc2. congruence.
Qed.

(** X9: the outcome of [load], in the order its steps are reached: a key
    claimed by two different files raises [RuntimeError]; otherwise a truthy
    scale_input raises [TypeError], zero heads raise [ZeroDivisionError] and
    a configuration without inner_dim raises [KeyError]; otherwise [load]
    returns a head that holds the given LM-head prefix, the table returned
    by the routing loop, and the model constructed under the fixed prefix
    "speculator".  The LM head is kept as its prefix: its loader is not part
    of mlp.py. *)
Theorem load_outcome (get_tensor : string -> vec) (n : nat)
    (config : Config) (dir : string) (model_paths : list string)
    (prefix : string) (routing : gmap string string) (next : nat) :
  let sc := speculator_config config in
  let scl := truthy (default (PBool false) (sc !! "scale_input")) in
  let load := Head.load path_join keys_of get_tensor n config dir model_paths
                prefix routing next in
  let free := forall k f1 f2,
                Head.claimed path_join keys_of dir model_paths routing k f1 ->
                Head.claimed path_join keys_of dir model_paths routing k f2 ->
                f1 = f2 in
  (~ free -> load = Raise RuntimeError)
  /\ (free -> scl = true -> load = Raise TypeError)
  /\ (free -> scl = false -> n = 0%nat -> load = Raise ZeroDivisionError)
  /\ (free -> scl = false -> (1 <= n)%nat -> sc !! "inner_dim" = None ->
      load = Raise KeyError)
  /\ (free -> scl = false -> (1 <= n)%nat -> is_Some (sc !! "inner_dim") ->
      exists h next',
        load = Ok (h, next')
        /\ Head.lm_head_prefix h = prefix
        /\ Head.route path_join keys_of dir model_paths routing
           = Ok (Head.routing_table h)
        /\ Model_init get_tensor n config "speculator" next
           = Ok (Head.speculator h, next')).
Proof.
  intros sc scl load free.
  pose proof (route_spec path_join keys_of dir model_paths routing) as Hspec.
  pose proof (Model_init_scale_input get_tensor n config "speculator" next)
    as Htype.
  pose proof (Model_init_zero_heads get_tensor config "speculator" next)
    as Hzero.
  pose proof (Model_init_no_inner_dim get_tensor n config "speculator" next)
    as Hkey.
  fold sc scl in Htype, Hzero, Hkey.
  unfold load, Head.load.
  destruct (Head.route path_join keys_of dir model_paths routing)
    as [r'|e]; cbn [bind].
  - destruct Hspec as [Hfree _].
    split; [intros Hn; by destruct Hn|].
    split; [intros _ Hs; by rewrite (Htype Hs)|].
    split; [intros _ Hs ->; by rewrite (Hzero Hs)|].
    split; [intros _ Hs Hn Hin; by rewrite (Hkey Hs Hn Hin)|].
    intros _ Hs Hn [inner Hin].
    destruct (Model_init_returns get_tensor n config "speculator" next inner
                Hs Hn Hin) as (m & next' & Hm).
    rewrite Hm. cbn [bind fst snd]. by exists (Head.mk prefix m r'), next'.
  - destruct Hspec as [-> (k & f1 & f2 & H1 & H2 & Hne)].
    split; [done|].
    repeat split; intros Hfree; destruct Hne; by apply (Hfree k).
Qed.

End Files.

Lemma ex_keys_apart_free (l : list string) (k f1 f2 : string) :
  Head.claimed ex_path_join ex_keys_apart "spec" l ∅ k f1 ->
  Head.claimed ex_path_join ex_keys_apart "spec" l ∅ k f2 ->
  f1 = f2.
Proof.
  assert (Hown : forall f,
            Head.claimed ex_path_join ex_keys_apart "spec" l ∅ k f ->
            k = "weight:" +:+ f).
  { intros f [H|(fn & _ & _ & Hk)]; [by rewrite lookup_empty in H|].
    unfold ex_keys_apart in Hk.
    apply elem_of_cons in Hk as [->|Hk]; [done|].
    by apply list_elem_of_singleton in Hk. }
  intros H1 H2.
  pose proof (Hown f1 H1) as E1. pose proof (Hown f2 H2) as E2.
  rewrite E1 in E2. by apply (inj (String.append "weight:")) in E2.
Qed.

Lemma ex_keys_apart_route :
  exists routing',
    Head.route ex_path_join ex_keys_apart "spec"
      ["a.safetensors"; "b.safetensors"] ∅ = Ok routing'.
Proof.
  pose proof (route_spec ex_path_join ex_keys_apart "spec"
                ["a.safetensors"; "b.safetensors"] ∅) as Hspec.
  destruct (Head.route ex_path_join ex_keys_apart "spec"
              ["a.safetensors"; "b.safetensors"] ∅) as [r|e];
    [by exists r|].
  destruct Hspec as [_ (k & f1 & f2 & H1 & H2 & Hne)].
  destruct Hne. exact (ex_keys_apart_free _ k f1 f2 H1 H2).
Qed.

Lemma routing_depends_on_file_set_witness :
  Head.route ex_path_join ex_keys_apart "spec"
    ["a.safetensors"; "b.safetensors"] ∅
  = Head.route ex_path_join ex_keys_apart "spec"
      ["b.safetensors"; "a.safetensors"; "b.safetensors"] ∅.
Proof.
  apply (routing_depends_on_file_set ex_path_join ex_keys_apart "spec"
           ["a.safetensors"; "b.safetensors"]
           ["b.safetensors"; "a.safetensors"; "b.safetensors"] ∅).
  intros fname. rewrite !elem_of_cons, !elem_of_nil. tauto.
Defined.

Lemma routing_table_settled_witness :
  exists routing',
    Head.route ex_path_join ex_keys_apart "spec"
      ["a.safetensors"; "b.safetensors"] ∅ = Ok routing'
    /\ routing' !! "weight:spec/a.safetensors" = Some "spec/a.safetensors"
    /\ Head.route ex_path_join ex_keys_apart "spec"
         ["a.safetensors"; "b.safetensors"] routing' = Ok routing'.
Proof.
  destruct ex_keys_apart_route as [routing' Hroute].
  exists routing'. split; [exact Hroute|].
  destruct (routing_table_settled ex_path_join ex_keys_apart "spec"
              ["a.safetensors"; "b.safetensors"] ∅ routing' Hroute)
    as (_ & Hfiles & _ & Hagain).
  split; [|exact Hagain].
  apply (Hfiles "a.safetensors"); by left.
Defined.

Lemma load_outcome_witness :
  Head.load ex_path_join ex_keys_apart ex_get_tensor 3 cfg_scale_input
    "spec" ["a.safetensors"; "b.safetensors"] "lm_head" ∅ 0%nat
  = Raise TypeError
  /\ exists h next',
       Head.load ex_path_join ex_keys_apart ex_get_tensor 3 cfg_plain
         "spec" ["a.safetensors"; "b.safetensors"] "lm_head" ∅ 0%nat
       = Ok (h, next')
       /\ Head.lm_head_prefix h = "lm_head".
Proof.
  split.
  - apply (load_outcome ex_path_join ex_keys_apart ex_get_tensor 3
             cfg_scale_input "spec" ["a.safetensors"; "b.safetensors"]
             "lm_head" ∅ 0%nat).
    + intros k f1 f2. apply ex_keys_apart_free.
    + reflexivity.
  - destruct (load_outcome ex_path_join ex_keys_apart ex_get_tensor 3
                cfg_plain "spec" ["a.safetensors"; "b.safetensors"]
                "lm_head" ∅ 0%nat) as (_ & _ & _ & _ & Hret).
    destruct Hret as (h & next' & Hload & Hprefix & _).
    + intros k f1 f2. apply ex_keys_apart_free.
    + reflexivity.
    + lia.
    + by eexists.
    + by exists h, next'.
Defined.

End RoutingProperties.

(** ** The forward pass and the per-head top-k list (lines 137-181) *)

Section TopKProperties.
Import Speculator.
Variable embedding : string -> nat -> vec.
Variable linear : string -> vec -> vec.
Variable gelu : R -> R.

Local Abbreviation step := (Speculator.step embedding linear gelu).
Local Abbreviation loop := (Speculator.loop embedding linear gelu).
Local Abbreviation ready := (Speculator.ready embedding linear).
Local Abbreviation forward := (Speculator.forward embedding linear gelu).
Local Abbreviation chain := (Speculator.chain embedding linear gelu).

(** A step reads the top-k list at its own index only. *)
Lemma step_top_k_ext (m : Model) (b : nat) (top_k top_k' : list nat)
    (i : nat) (st : loop_state) :
  top_k !! i = top_k' !! i ->
  step m b top_k i st = step m b top_k' i st.
Proof. intros H. unfold Speculator.step, idx. by rewrite H. Qed.

Lemma loop_top_k_ext (m : Model) (b : nat) (top_k top_k' range : list nat)
    (st : loop_state) :
  (forall i, i ∈ range -> top_k !! i = top_k' !! i) ->
  loop m b top_k range st = loop m b top_k' range st.
Proof.
  revert st. induction range as [|i range IH]; intros st Hext;
    [reflexivity|].
  cbn [Speculator.loop].
  rewrite (step_top_k_ext m b top_k top_k' i st) by (apply Hext; by left).
  destruct (step m b top_k' i st) as [st1|e]; cbn [bind]; [|reflexivity].
  apply IH. intros i' Hi'. apply Hext. by right.
Qed.

(** The distributions a step records do not depend on how many candidates
    it selects. *)
Lemma step_all_probs_free (m : Model) (inner : nat) (c : R) (b i k k' : nat)
    (top_k top_k' : list nat) (st st1' : loop_state) (L : layer) :
  ready m inner c ->
  (1 <= b)%nat ->
  aligned b 1 st ->
  layer_at m i = Some L ->
  top_k !! i = Some k ->
  (k <= vsize m)%nat ->
  top_k' !! i = Some k' ->
  step m b top_k' i st = Ok st1' ->
  exists st1, step m b top_k i st = Ok st1
              /\ all_probs st1 = all_probs st1'.
Proof.
  intros Hr Hb Hal HL Hk Hkv Hk' Hstep'.
  destruct (step_Ok_inv embedding linear gelu m inner c b 1 i k' top_k' st
              st1' L Hr Hb Hal HL Hk' Hstep') as [_ Hkv'].
  destruct (step_ok embedding linear gelu m inner c b i k top_k st L
              Hr Hb Hal HL Hk Hkv) as (lists & _ & Hstep).
  destruct (step_ok embedding linear gelu m inner c b i k' top_k' st L
              Hr Hb Hal HL Hk' Hkv') as (lists' & _ & Hstep2).
  rewrite Hstep2 in Hstep'. injection Hstep' as <-.
  eexists. split; [exact Hstep | reflexivity].
Qed.

(** A loop that returns has selected at most [vsize] candidates at every
    step. *)
Lemma loop_Ok_le (m : Model) (inner : nat) (c : R) (b : nat)
    (top_k : list nat) (len j c0 : nat) (st0 st : loop_state) :
  ready m inner c ->
  (1 <= b)%nat ->
  length top_k = n_predict m ->
  (j + len <= n_predict m)%nat ->
  aligned b c0 st0 ->
  loop m b top_k (seq j len) st0 = Ok st ->
  forall u k, (u < len)%nat -> top_k !! (j + u)%nat = Some k ->
              (k <= vsize m)%nat.
Proof.
  intros Hr Hb Htop. revert j c0 st0.
  induction len as [|len IH]; intros j c0 st0 Hj Hal Hloop u k Hu Hk;
    [lia|].
  cbn [seq Speculator.loop] in Hloop.
  destruct (layer_at_ready embedding linear m inner c j Hr ltac:(lia))
    as [L HL].
  destruct (lookup_lt_is_Some_2 top_k j ltac:(lia)) as [k0 Hk0].
  destruct (step m b top_k j st0) as [st1|e1] eqn:Hstep; [|discriminate].
  cbn [bind] in Hloop.
  destruct (step_Ok_inv embedding linear gelu m inner c b c0 j k0 top_k
              st0 st1 L) as [-> Hkv]; try done.
  destruct u as [|u].
  - rewrite Nat.add_0_r in Hk. congruence.
  - assert (Hal1 : aligned b k0 st1) by by eapply step_ok_aligned.
    apply (IH (S j) k0 st1 ltac:(lia) Hal1 Hloop u k); [lia|].
    by replace (S j + u)%nat with (j + S u)%nat by lia.
Qed.

(** The loop with a single candidate at every step but the last, where any
    number of candidates up to [vsize] may be selected. *)
Lemma loop_single_last (m : Model) (inner : nat) (c : R) (b : nat)
    (top_k : list nat) {X : Type} (xs : list X)
    (len j : nat) (sigma : X -> vec) (tau : X -> nat)
    (alpha : X -> list vec) (d : list nat) :
  ready m inner c ->
  (1 <= b)%nat ->
  (1 <= vsize m)%nat ->
  length xs = b ->
  (j + len <= n_predict m)%nat ->
  (j + len <= length top_k)%nat ->
  (forall u, (S u < len)%nat -> top_k !! (j + u)%nat = Some 1%nat) ->
  (forall u k, (S u = len)%nat -> top_k !! (j + u)%nat = Some k ->
               (k <= vsize m)%nat) ->
  (forall x, x ∈ xs -> length (alpha x) = n_predict m) ->
  d = [1%nat; b] \/ d = [b] ->
  exists st',
    loop m b top_k (seq j len)
      (mkLoop (Tensor.mk d (map sigma xs)) (Tensor.mk [1%nat; b] (map tau xs))
         (map alpha xs))
    = Ok st'
    /\ all_probs st'
       = map (fun x =>
                fill j (chain (state_weight m) c (layers_from m j len)
                          (sigma x) (tau x)) (alpha x)) xs.
Proof.
  intros Hr Hb Hv Hxs Hj Hjt Hones Hlast Halpha Hd.
  set (st0 := mkLoop (Tensor.mk d (map sigma xs))
                (Tensor.mk [1%nat; b] (map tau xs)) (map alpha xs)).
  destruct len as [|l].
  { destruct (loop_single embedding linear gelu m inner c b top_k xs
                Hr Hb Hv Hxs 0 j sigma tau alpha d Hj) as (st' & H1 & H2);
      [intros u Hu; lia | done | done |].
    by exists st'. }
  set (top_k1 := <[(j + l)%nat := 1%nat]> top_k).
  assert (Hsame : forall i, i ∈ seq j l -> top_k !! i = top_k1 !! i).
  { intros i Hi. apply elem_of_seq in Hi. unfold top_k1.
    rewrite list_lookup_insert_ne; [done | lia]. }
  destruct (loop_single embedding linear gelu m inner c b top_k1 xs
              Hr Hb Hv Hxs (S l) j sigma tau alpha d Hj)
    as (stF & HloopF & HapF); [|done|done|].
  { intros u Hu. destruct (decide (u = l)) as [->|Hne].
    - unfold top_k1. apply list_lookup_insert_eq. lia.
    - rewrite <- Hsame by (apply elem_of_seq; lia). apply Hones. lia. }
  fold st0 in HloopF |- *.
  rewrite seq_S, loop_app in HloopF |- *.
  rewrite <- (loop_top_k_ext m b top_k top_k1 (seq j l) st0 Hsame) in HloopF.
  destruct (loop m b top_k (seq j l) st0) as [st'|e] eqn:Hpre;
    [|discriminate].
  cbn [bind Speculator.loop] in HloopF |- *.
  destruct (step m b top_k1 (j + l) st') as [st1'|e] eqn:Hstep1;
    [|discriminate].
  cbn [bind] in HloopF. injection HloopF as ->.
  assert (Hal0 : aligned b 1 st0).
  { unfold aligned, st0.
    cbn [Speculator.ind Speculator.state Speculator.all_probs dims cells].
    rewrite !length_map, Hxs. repeat split; try lia.
    destruct Hd as [->| ->]; [by left | right; by split]. }
  destruct (loop_aligned embedding linear gelu m inner c b top_k l j 1 st0
              st' Hr Hb ltac:(lia) Hal0 Hpre) as [c1 Hal'].
  destruct (layer_at_ready embedding linear m inner c (j + l) Hr ltac:(lia))
    as [L HL].
  assert (Hk1 : top_k1 !! (j + l)%nat = Some 1%nat).
  { unfold top_k1. apply list_lookup_insert_eq. lia. }
  destruct (step_Ok_inv embedding linear gelu m inner c b c1 (j + l) 1
              top_k1 st' stF L Hr Hb Hal' HL Hk1 Hstep1) as [-> _].
  destruct (lookup_lt_is_Some_2 top_k (j + l) ltac:(lia)) as [k Hk].
  destruct (step_all_probs_free m inner c b (j + l) k 1 top_k top_k1 st'
              stF L Hr Hb Hal' HL Hk (Hlast l k eq_refl Hk) Hk1 Hstep1)
    as (st1 & Hstep & Hap).
  rewrite Hstep. cbn [bind]. exists st1. split; [reflexivity|].
  by rewrite Hap.
Qed.

(** With a single candidate at every head but the last, the forward pass
    returns the chain of every batch row. *)
Lemma forward_last_free (m : Model) (inner : nat) (c : R)
    (hidden_states : list vec) (input_ids : list nat) (s0 : tensor vec) :
  ready m inner c ->
  (1 <= length hidden_states)%nat ->
  length input_ids = length hidden_states ->
  (1 <= vsize m)%nat ->
  scaled_input m hidden_states = Ok s0 ->
  length (top_k_tokens_per_head m) = n_predict m ->
  (forall j k, top_k_tokens_per_head m !! j = Some k ->
               (k <= vsize m)%nat /\ ((S j < n_predict m)%nat -> k = 1%nat)) ->
  forward m hidden_states input_ids
  = Ok (zip_with (chain (state_weight m) c (layers_from m 0 (n_predict m)))
          (cells s0) input_ids).
Proof.
  intros Hr Hb Hids Hv Hs0 Hlen Htop.
  destruct (scaled_input_shape m hidden_states s0 Hs0) as [Hd Hl].
  unfold Speculator.forward. rewrite Hs0. cbn [bind].
  rewrite Hlen, Nat.eqb_refl. cbn [negb].
  set (xs := zip (cells s0) input_ids).
  assert (Hxs : length xs = length hidden_states).
  { unfold xs. rewrite length_zip. lia. }
  destruct (loop_single_last m inner c (length hidden_states)
              (top_k_tokens_per_head m) xs (n_predict m) 0 fst snd
              (fun _ => replicate (n_predict m) (replicate (vsize m) 0))
              [length hidden_states] Hr Hb Hv Hxs)
    as (st' & Hloop & Hap).
  - lia.
  - lia.
  - intros u Hu.
    destruct (lookup_lt_is_Some_2 (top_k_tokens_per_head m) u ltac:(lia))
      as [k Hk].
    destruct (Htop u k Hk) as [_ H1]. cbn [Nat.add]. rewrite Hk.
    f_equal. apply H1. exact Hu.
  - intros u k _ Hk. by apply (Htop u k).
  - intros x _. apply length_replicate.
  - by right.
  - assert (Hinit : init_loop m s0 input_ids
              = mkLoop (Tensor.mk [length hidden_states] (map fst xs))
                  (Tensor.mk [1%nat; length hidden_states] (map snd xs))
                  (map (fun _ => replicate (n_predict m)
                                   (replicate (vsize m) 0)) xs)).
    { unfold init_loop, unsqueeze0, size0, xs. cbn [dims cells].
      destruct s0 as [d0 S]. cbn [dims cells] in *. subst d0.
      cbn [hd]. rewrite Hids.
      change (map fst (zip S input_ids)) with (zip S input_ids).*1.
      change (map snd (zip S input_ids)) with (zip S input_ids).*2.
      rewrite fst_zip, snd_zip by lia.
      f_equal. rewrite <- Hxs. unfold xs. cbn [cells].
      generalize (zip S input_ids). intros l.
      induction l as [|x l IH]; simpl; [reflexivity | by rewrite IH]. }
    unfold size0. rewrite Hd. cbn [hd]. rewrite Hinit.
    match goal with
    | |- context [Speculator.loop ?e ?l ?g ?m' ?b' ?k ?r ?s] =>
        replace (Speculator.loop e l g m' b' k r s) with (Ok st')
          by (symmetry; exact Hloop)
    end.
    cbn [bind].
    rewrite Hap. rewrite zip_with_zip. fold xs. f_equal.
    apply list_fmap_ext. intros r [s tok] _. cbn [fst snd uncurry].
    apply fill_all. rewrite length_chain, length_replicate.
    by rewrite (length_layers_from embedding linear m inner c 0 (n_predict m) Hr).
Qed.

(** What a forward pass that returns says about the top-k list. *)
Lemma forward_Ok_inv (m : Model) (inner : nat) (c : R)
    (hidden_states : list vec) (input_ids : list nat)
    (ap : list (list vec)) :
  ready m inner c ->
  (1 <= length hidden_states)%nat ->
  length input_ids = length hidden_states ->
  forward m hidden_states input_ids = Ok ap ->
  length (top_k_tokens_per_head m) = n_predict m
  /\ forall j k, top_k_tokens_per_head m !! j = Some k ->
                 (k <= vsize m)%nat /\ ((S j < n_predict m)%nat -> k = 1%nat).
Proof.
  intros Hr Hb Hids Hfw. unfold Speculator.forward in Hfw.
  destruct (scaled_input m hidden_states) as [s0|e] eqn:Hs0; [|discriminate].
  cbn [bind] in Hfw.
  destruct (scaled_input_shape m hidden_states s0 Hs0) as [Hd Hl].
  pose proof (init_loop_aligned m s0 input_ids _ Hd Hl Hids) as Hal0.
  destruct (length (top_k_tokens_per_head m) =? n_predict m)%nat eqn:Hlen;
    [|discriminate].
  apply Nat.eqb_eq in Hlen. cbn [negb] in Hfw.
  unfold size0 in Hfw. rewrite Hd in Hfw. cbn [hd] in Hfw.
  destruct (Speculator.loop _ _ _ _ _ _ _ _) as [st|e] eqn:Hloop;
    [|discriminate].
  split; [exact Hlen|]. intros j k Hk.
  assert (Hj : (j < n_predict m)%nat).
  { rewrite <- Hlen. by eapply lookup_lt_Some. }
  split.
  - apply (loop_Ok_le m inner c _ _ (n_predict m) 0 1 _ st Hr Hb Hlen
             ltac:(lia) Hal0 Hloop j k Hj Hk).
  - intros HSj.
    destruct (loop_Ok_ones embedding linear gelu m inner c _ _ (n_predict m)
                0 1 _ st Hr Hb Hlen ltac:(lia) Hal0 Hloop) as [_ Hones].
    specialize (Hones j HSj). cbn [Nat.add] in Hones. congruence.
Qed.

Lemma forward_Raise_inv (m : Model) (inner : nat) (c : R)
    (hidden_states : list vec) (input_ids : list nat) (e : exn) :
  ready m inner c ->
  (1 <= length hidden_states)%nat ->
  length input_ids = length hidden_states ->
  is_ok (scaled_input m hidden_states) ->
  length (top_k_tokens_per_head m) = n_predict m ->
  forward m hidden_states input_ids = Raise e ->
  e = RuntimeError.
Proof.
  intros Hr Hb Hids [s0 Hs0] Hlen Hfw. unfold Speculator.forward in Hfw.
  rewrite Hs0 in Hfw. cbn [bind] in Hfw.
  destruct (scaled_input_shape m hidden_states s0 Hs0) as [Hd Hl].
  pose proof (init_loop_aligned m s0 input_ids _ Hd Hl Hids) as Hal0.
  rewrite Hlen, Nat.eqb_refl in Hfw. cbn [negb] in Hfw.
  unfold size0 in Hfw. rewrite Hd in Hfw. cbn [hd] in Hfw.
  destruct (Speculator.loop _ _ _ _ _ _ _ _) as [st|e'] eqn:Hloop;
    [discriminate|].
  cbn [bind] in Hfw. injection Hfw as <-.
  by apply (loop_Raise_inv embedding linear gelu m inner c _ _ (n_predict m)
              0 1 _ e' Hr Hb Hlen ltac:(lia) Hal0 Hloop).
Qed.

Local Abbreviation chain_by := (Speculator.chain_by embedding linear gelu).
Local Abbreviation untied := (Speculator.untied embedding linear gelu).

(** A row with a single largest cell leaves a selection no choice. *)
Lemma strict_argmax_unique (row : vec) (i j : nat) :
  is_strict_argmax row i -> is_argmax row j -> j = i.
Proof.
  intros (x & Hx & Hlt) (y & Hy & Hmax).
  destruct (decide (j = i)) as [->|Hne]; [reflexivity|].
  specialize (Hlt j y Hne Hy). specialize (Hmax i x Hx). lra.
Qed.

Lemma top1_is_argmax (row : vec) : row <> [] -> is_argmax row (top1 row).
Proof.
  intros Hne. destruct (argmax_ok row Hne) as [i Hi].
  pose proof (argmax_is_argmax row i Hi) as Harg.
  replace (top1 row) with i; [exact Harg|].
  unfold argmax in Hi. unfold top1.
  destruct (sort_desc (indexed row)) as [|p l]; [discriminate|].
  by injection Hi as <-.
Qed.

Lemma strict_argmax_top1 (sel : vec -> nat) (row : vec) (i : nat) :
  (forall r, r <> [] -> is_argmax r (sel r)) ->
  is_strict_argmax row i ->
  sel row = top1 row.
Proof.
  intros Hsel Hi.
  assert (Hne : row <> []).
  { destruct Hi as (x & Hx & _). by destruct row. }
  rewrite (strict_argmax_unique row i (sel row) Hi (Hsel row Hne)).
  by rewrite (strict_argmax_unique row i (top1 row) Hi
                (top1_is_argmax row Hne)).
Qed.

(** Without ties, every selection of a most probable token walks the same
    chain. *)
Lemma chain_by_untied (sel : vec -> nat) (sw c : R) (layers : list layer)
    (s : vec) (tok : nat) :
  (forall r, r <> [] -> is_argmax r (sel r)) ->
  untied sw c layers s tok ->
  chain_by sel sw c layers s tok = chain sw c layers s tok.
Proof.
  intros Hsel. revert s tok.
  induction layers as [|L rest IH]; intros s tok Hu; [reflexivity|].
  cbn [Speculator.chain_by Speculator.chain]. f_equal.
  destruct rest as [|L' rest']; [reflexivity|].
  cbn [Speculator.untied] in Hu. destruct Hu as [[i Hi] Hrest].
  rewrite (strict_argmax_top1 sel _ i Hsel Hi).
  by apply IH.
Qed.

Lemma zip_with_lookup_ext {A B C} (f g : A -> B -> C) (l : list A)
    (k : list B) :
  (forall r x y, l !! r = Some x -> k !! r = Some y -> f x y = g x y) ->
  zip_with f l k = zip_with g l k.
Proof.
  revert k. induction l as [|x l IH]; intros [|y k] Hext; try reflexivity.
  cbn [zip_with]. f_equal.
  - by apply (Hext 0%nat).
  - apply IH. intros r x' y' Hx' Hy'. by apply (Hext (S r)).
Qed.

(** X10: when every head but the last selects a single candidate and the
    last head selects at most [vsize] candidates, and no head but the last
    meets a tie for its most probable token, the forward pass returns a
    tensor of shape (b, N, vsize) that holds, for every batch row, the
    distributions of the row's own chain, each summing to 1, whichever
    most probable token the selection returns; the number of candidates
    selected at the last head does not enter the result. *)
Theorem forward_ignores_last_top_k (m : Model) (inner : nat) (c : R)
    (hidden_states : list vec) (input_ids : list nat) (s0 : tensor vec)
    (sel : vec -> nat) :
  ready m inner c ->
  (1 <= length hidden_states)%nat ->
  length input_ids = length hidden_states ->
  (1 <= vsize m)%nat ->
  scaled_input m hidden_states = Ok s0 ->
  length (top_k_tokens_per_head m) = n_predict m ->
  (forall j k, top_k_tokens_per_head m !! j = Some k ->
               (k <= vsize m)%nat /\ ((S j < n_predict m)%nat -> k = 1%nat)) ->
  (forall row, row <> [] -> is_argmax row (sel row)) ->
  (forall r s tok,
     cells s0 !! r = Some s -> input_ids !! r = Some tok ->
     untied (state_weight m) c (layers_from m 0 (n_predict m)) s tok) ->
  let ap := zip_with (chain_by sel (state_weight m) c
                        (layers_from m 0 (n_predict m)))
              (cells s0) input_ids in
  forward m hidden_states input_ids = Ok ap
  /\ length ap = length hidden_states
  /\ Forall (fun heads =>
               length heads = n_predict m
               /\ Forall (fun d => length d = vsize m /\ vsum d = 1) heads)
       ap.
Proof.
  intros Hr Hb Hids Hv Hs0 Hlen Htop Hsel Hun ap.
  destruct (scaled_input_shape m hidden_states s0 Hs0) as [Hd Hl].
  assert (Hap : ap = zip_with (chain (state_weight m) c
                                 (layers_from m 0 (n_predict m)))
                       (cells s0) input_ids).
  { unfold ap. apply zip_with_lookup_ext. intros r s tok Hs Htok.
    apply chain_by_untied; [exact Hsel | by apply (Hun r)]. }
  rewrite Hap. split; [|split].
  - by apply (forward_last_free m inner c).
  - rewrite length_zip_with. lia.
  - apply Forall_zip_with_all. intros s tok _ _. split.
    + rewrite length_chain.
      by rewrite (length_layers_from embedding linear m inner c 0
                    (n_predict m) Hr).
    + by apply (chain_distributions embedding linear gelu m inner c).
Qed.

(** X11: the outcome of the forward pass as a function of the top-k list,
    on a non-empty batch: a list whose length differs from the number of
    heads raises [AssertionError]; a list of the right length returns
    exactly when every entry is at most [vsize] and every entry but the
    last is 1, and raises [RuntimeError] otherwise. *)
Theorem forward_outcome_by_top_k (m : Model) (inner : nat) (c : R)
    (hidden_states : list vec) (input_ids : list nat) :
  let top_k := top_k_tokens_per_head m in
  ready m inner c ->
  (1 <= length hidden_states)%nat ->
  length input_ids = length hidden_states ->
  (1 <= vsize m)%nat ->
  is_ok (scaled_input m hidden_states) ->
  (length top_k <> n_predict m ->
   forward m hidden_states input_ids = Raise AssertionError)
  /\ (length top_k = n_predict m ->
      (is_ok (forward m hidden_states input_ids)
       <-> forall j k, top_k !! j = Some k ->
                       (k <= vsize m)%nat
                       /\ ((S j < n_predict m)%nat -> k = 1%nat))
      /\ (forall e, forward m hidden_states input_ids = Raise e ->
                    e = RuntimeError)).
Proof.
  intros top_k Hr Hb Hids Hv Hs. split.
  - intros Hne. by apply forward_top_k_mismatch.
  - intros Hlen. split; [split|].
    + intros [ap Hap].
      by destruct (forward_Ok_inv m inner c hidden_states input_ids ap
                     Hr Hb Hids Hap) as [_ H].
    + intros Htop. destruct Hs as [s0 Hs0]. eexists.
      by apply (forward_last_free m inner c hidden_states input_ids s0).
    + intros e He.
      by apply (forward_Raise_inv m inner c hidden_states input_ids e).
Qed.

(** X12: the rows of a batch are predicted independently: when the forward
    pass returns on a batch (without input scaling), row r of its result is
    what the forward pass returns on the batch made of row r alone. *)
Theorem forward_rows_independent (m : Model) (inner : nat) (c : R)
    (hidden_states : list vec) (input_ids : list nat)
    (ap : list (list vec)) (r : nat) (h : vec) (t : nat) :
  ready m inner c ->
  length input_ids = length hidden_states ->
  (1 <= vsize m)%nat ->
  truthy (scale_input m) = false ->
  forward m hidden_states input_ids = Ok ap ->
  hidden_states !! r = Some h ->
  input_ids !! r = Some t ->
  exists heads,
    ap !! r = Some heads
    /\ forward m [h] [t] = Ok [heads].
Proof.
  intros Hr Hids Hv Hscl Hfw Hh Ht.
  assert (Hb : (1 <= length hidden_states)%nat).
  { apply lookup_lt_Some in Hh. lia. }
  destruct (forward_Ok_inv m inner c hidden_states input_ids ap
              Hr Hb Hids Hfw) as [Hlen Htop].
  destruct (scaled_input_cases m hidden_states) as [Hs0 _].
  destruct (scaled_input_cases m [h]) as [Hs1 _].
  rewrite (forward_last_free m inner c hidden_states input_ids _
             Hr Hb Hids Hv (Hs0 Hscl) Hlen Htop) in Hfw.
  injection Hfw as <-. cbn [cells].
  exists (chain (state_weight m) c (layers_from m 0 (n_predict m)) h t).
  split.
  - rewrite lookup_zip_with, Hh. cbn [mbind option_bind]. by rewrite Ht.
  - by rewrite (forward_last_free m inner c [h] [t] _ Hr ltac:(simpl; lia)
                  eq_refl Hv (Hs1 Hscl) Hlen Htop).
Qed.

End TopKProperties.

Section TopKExamples.
Import Speculator Examples.

Lemma cfg_plain_top_k (l : list nat) :
  exists m,
    Model_init ex_get_tensor 2 cfg_plain "speculator" 0%nat = Ok (m, 8%nat)
    /\ ready ex_embedding ex_linear (set_top_k l m) 2
         (emb_weight m * sqrt (2 / 2))
    /\ n_predict m = 2%nat
    /\ vsize m = 2%nat
    /\ truthy (scale_input m) = false.
Proof.
  destruct (cfg_plain_init 2 0%nat ltac:(lia)) as (m & Hm & _).
  destruct (cfg_plain_ready 2 0%nat 8%nat m Hm)
    as (Hr & Hn & Hv & _ & Hscl).
  exists m. split; [exact Hm|].
  split; [by apply ready_set_top_k | done].
Qed.

Lemma top_k_entries (l : list nat) (v n : nat) :
  Forall (fun k => (k <= v)%nat) l ->
  Forall (fun k => k = 1%nat) (take (n - 1) l) ->
  length l = n ->
  forall j k, l !! j = Some k -> (k <= v)%nat /\ ((S j < n)%nat -> k = 1%nat).
Proof.
  intros Hle Hone Hlen j k Hk. split.
  - by apply (Forall_lookup_1 _ _ _ _ Hle Hk).
  - intros Hj. apply (Forall_lookup_1 _ (take (n - 1) l) j k Hone).
    rewrite lookup_take_lt by lia. exact Hk.
Qed.

Lemma strict_argmax_pair (x y : R) :
  y < x -> is_strict_argmax (log_softmax [x; y]) 0.
Proof.
  intros Hlt. unfold log_softmax.
  generalize (Rpower.ln (vsum (map exp [x; y]))). intros lse.
  exists (x - lse). split; [reflexivity|].
  intros [|[|j]] z Hj Hz; [done | | done].
  injection Hz as <-. lra.
Qed.

Lemma cfg_plain_untied (m : Model) (a : R) :
  Model_init ex_get_tensor 2 cfg_plain "speculator" 0%nat = Ok (m, 8%nat) ->
  0 < a ->
  untied ex_embedding ex_linear ex_gelu (state_weight m)
    (emb_weight m * sqrt (2 / 2)) (layers_from m 0 (n_predict m)) [a; 0]
    0.
Proof.
  intros Hinit Ha.
  apply Model_init_inv in Hinit
    as (embs & projs & heads & lns & inner & Hb & _ & _ & _ & ->).
  change (truthy (default (PBool false)
                    (speculator_config cfg_plain !! "tie_weights")))
    with false in Hb.
  rewrite build_lists_untied in Hb. injection Hb as <- <- <- <-.
  cbn [n_predict state_weight emb_weight].
  unfold layers_from, layer_at. cbn [emb proj head ln seq omap imap lookup list_lookup list_omap fmap].
  cbn [Speculator.untied]. split; [|exact I]. exists 0%nat.
  unfold row_step, ex_linear, ex_embedding, ex_gelu, ex_get_tensor,
    LayerNorm.spec_row.
  cbn [L_emb L_proj L_ln L_head emb_prefix lin_prefix LayerNorm.weight
       LayerNorm.bias LayerNorm.eps LayerNorm.elementwise_scale_and_shift
       map zip_with nth length].
  apply strict_argmax_pair.
  pose proof (state_weight_pos 2) as Hsw.
  set (sw := Weights.state_weight_of 2) in *.
  set (c' := Weights.emb_weight_of sw * sqrt (2 / 2)).
  match goal with |- context [/ sqrt ?q] => set (Q := q) end.
  assert (HQ : 0 < Q).
  { unfold Q, vsum. cbn [foldr]. simpl INR.
    match goal with
    | |- 0 < (?P * ?P + (?Z * ?Z + 0)) / _ + _ =>
        pose proof (Rle_0_sqr P) as HP; pose proof (Rle_0_sqr Z) as HZ;
        unfold Rsqr in HP, HZ; lra
    end. }
  assert (Hr : 0 < / sqrt Q) by (apply Rinv_0_lt_compat, sqrt_lt_R0, HQ).
  set (r := / sqrt Q) in *. simpl INR.
  assert (H1 : 0 < a * sw) by (apply Rmult_lt_0_compat; lra).
  assert (H2 : 0 < a * sw * r) by (apply Rmult_lt_0_compat; lra).
  lra.
Qed.

Lemma forward_ignores_last_top_k_witness :
  exists m ap,
    Model_init ex_get_tensor 2 cfg_plain "speculator" 0%nat = Ok (m, 8%nat)
    /\ forward ex_embedding ex_linear ex_gelu (set_top_k [1; 2]%nat m)
         [[1; 0]; [2; 0]] [0; 0]%nat = Ok ap
    /\ forward ex_embedding ex_linear ex_gelu (set_top_k [1; 0]%nat m)
         [[1; 0]; [2; 0]] [0; 0]%nat = Ok ap.
Proof.
  destruct (cfg_plain_top_k [1; 2]%nat) as (m & Hm & Hr & Hn & Hv & Hscl).
  destruct (cfg_plain_top_k [1; 0]%nat) as (m' & Hm' & Hr' & _).
  rewrite Hm in Hm'. injection Hm' as <-.
  destruct (scaled_input_cases (set_top_k [1; 2]%nat m) [[1; 0]; [2; 0]])
    as [Hs0 _].
  destruct (scaled_input_cases (set_top_k [1; 0]%nat m) [[1; 0]; [2; 0]])
    as [Hs0' _].
  assert (Hun : forall (r : nat) (s : vec) (tok : nat),
            [[1; 0]; [2; 0]] !! r = Some s ->
            [0; 0]%nat !! r = Some tok ->
            untied ex_embedding ex_linear ex_gelu (state_weight m)
              (emb_weight m * sqrt (2 / 2)) (layers_from m 0 (n_predict m))
              s tok).
  { intros [|[|r]] s tok Hs Htok; [| |done].
    - injection Hs as <-. injection Htok as <-.
      apply (cfg_plain_untied m 1 Hm). lra.
    - injection Hs as <-. injection Htok as <-.
      apply (cfg_plain_untied m 2 Hm). lra. }
  destruct (forward_ignores_last_top_k ex_embedding ex_linear ex_gelu
              (set_top_k [1; 2]%nat m) 2 _ [[1; 0]; [2; 0]] [0; 0]%nat _
              top1 Hr ltac:(simpl; lia) eq_refl
              ltac:(cbn [vsize set_top_k]; lia) (Hs0 Hscl)) as (H2 & _).
  { cbn [top_k_tokens_per_head n_predict set_top_k]. by rewrite Hn. }
  { cbn [top_k_tokens_per_head n_predict vsize set_top_k].
    rewrite Hn, Hv. apply top_k_entries; [| |reflexivity].
    - repeat constructor.
    - by repeat constructor. }
  { apply top1_is_argmax. }
  { exact Hun. }
  destruct (forward_ignores_last_top_k ex_embedding ex_linear ex_gelu
              (set_top_k [1; 0]%nat m) 2 _ [[1; 0]; [2; 0]] [0; 0]%nat _
              top1 Hr' ltac:(simpl; lia) eq_refl
              ltac:(cbn [vsize set_top_k]; lia) (Hs0' Hscl)) as (H0 & _).
  { cbn [top_k_tokens_per_head n_predict set_top_k]. by rewrite Hn. }
  { cbn [top_k_tokens_per_head n_predict vsize set_top_k].
    rewrite Hn, Hv. apply top_k_entries; [| |reflexivity].
    - repeat constructor; lia.
    - by repeat constructor. }
  { apply top1_is_argmax. }
  { exact Hun. }
  exists m. eexists. split; [exact Hm|]. split; [exact H2 | exact H0].
Defined.

Lemma forward_outcome_by_top_k_witness :
  exists m,
    Model_init ex_get_tensor 2 cfg_plain "speculator" 0%nat = Ok (m, 8%nat)
    /\ forward ex_embedding ex_linear ex_gelu (set_top_k [1]%nat m)
         [[1; 0]] [0%nat] = Raise AssertionError
    /\ is_ok (forward ex_embedding ex_linear ex_gelu
                (set_top_k [1; 2]%nat m) [[1; 0]] [0%nat])
    /\ forall e,
         forward ex_embedding ex_linear ex_gelu (set_top_k [1; 3]%nat m)
           [[1; 0]] [0%nat] = Raise e ->
         e = RuntimeError.
Proof.
  destruct (cfg_plain_top_k [1]%nat) as (m & Hm & Hr1 & Hn & Hv & Hscl).
  destruct (cfg_plain_top_k [1; 2]%nat) as (m2 & Hm2 & Hr2 & _).
  rewrite Hm in Hm2. injection Hm2 as <-.
  destruct (cfg_plain_top_k [1; 3]%nat) as (m3 & Hm3 & Hr3 & _).
  rewrite Hm in Hm3. injection Hm3 as <-.
  assert (Hs : forall l, is_ok (scaled_input (set_top_k l m) [[1; 0]])).
  { intros l. destruct (scaled_input_cases (set_top_k l m) [[1; 0]])
      as [Hs0 _]. eexists. exact (Hs0 Hscl). }
  exists m. split; [exact Hm|]. split; [|split].
  - apply (forward_outcome_by_top_k ex_embedding ex_linear ex_gelu
             (set_top_k [1]%nat m) 2 _ [[1; 0]] [0%nat] Hr1);
      [simpl; lia | reflexivity | cbn [vsize set_top_k]; lia | apply Hs |].
    cbn [top_k_tokens_per_head n_predict set_top_k length]. lia.
  - apply (forward_outcome_by_top_k ex_embedding ex_linear ex_gelu
             (set_top_k [1; 2]%nat m) 2 _ [[1; 0]] [0%nat] Hr2);
      [simpl; lia | reflexivity | cbn [vsize set_top_k]; lia | apply Hs
      | cbn [top_k_tokens_per_head n_predict set_top_k length]; lia |].
    cbn [top_k_tokens_per_head n_predict vsize set_top_k].
    rewrite Hn, Hv. apply top_k_entries; [| |reflexivity].
    + repeat constructor.
    + by repeat constructor.
  - apply (forward_outcome_by_top_k ex_embedding ex_linear ex_gelu
             (set_top_k [1; 3]%nat m) 2 _ [[1; 0]] [0%nat] Hr3);
      [simpl; lia | reflexivity | cbn [vsize set_top_k]; lia | apply Hs |].
    cbn [top_k_tokens_per_head n_predict set_top_k length]. lia.
Defined.

Lemma forward_rows_independent_witness :
  exists m ap heads,
    Model_init ex_get_tensor 2 cfg_plain "speculator" 0%nat = Ok (m, 8%nat)
    /\ forward ex_embedding ex_linear ex_gelu m [[1; 0]; [0; 1]] [0; 1]%nat
       = Ok ap
    /\ ap !! 1%nat = Some heads
    /\ forward ex_embedding ex_linear ex_gelu m [[0; 1]] [1%nat]
       = Ok [heads].
Proof.
  destruct (cfg_plain_init 2 0%nat ltac:(lia)) as (m & Hm & _).
  destruct (cfg_plain_ready 2 0%nat 8%nat m Hm)
    as (Hr & Hn & Hv & Htop & Hscl).
  destruct (scaled_input_cases m [[1; 0]; [0; 1]]) as [Hs0 _].
  destruct (forward_single_candidate ex_embedding ex_linear ex_gelu m 2 _
              [[1; 0]; [0; 1]] [0; 1]%nat _ Hr ltac:(simpl; lia) eq_refl
              ltac:(lia) (Hs0 Hscl) ltac:(by rewrite Htop, Hn))
    as (Hfw & _).
  destruct (forward_rows_independent ex_embedding ex_linear ex_gelu m 2 _
              [[1; 0]; [0; 1]] [0; 1]%nat _ 1 [0; 1] 1%nat Hr eq_refl
              ltac:(lia) Hscl Hfw eq_refl eq_refl) as (heads & Hrow & Hone).
  exists m. eexists. exists heads.
  split; [exact Hm|]. split; [exact Hfw|]. split; [exact Hrow | exact Hone].
Defined.

End TopKExamples.

(** ** Batch shapes: the empty batch, ids of another length, and the head
    wrapper end to end (lines 137-200) *)

Section BatchProperties.
Import Speculator.
Variable embedding : string -> nat -> vec.
Variable linear : string -> vec -> vec.
Variable gelu : R -> R.

Local Abbreviation step := (Speculator.step embedding linear gelu).
Local Abbreviation loop := (Speculator.loop embedding linear gelu).
Local Abbreviation ready := (Speculator.ready embedding linear).
Local Abbreviation forward := (Speculator.forward embedding linear gelu).
Local Abbreviation chain := (Speculator.chain embedding linear gelu).

Lemma forward_first_step_raises (m : Model) (hidden_states : list vec)
    (input_ids : list nat) (s0 : tensor vec) (e : exn) :
  (1 <= n_predict m)%nat ->
  length (top_k_tokens_per_head m) = n_predict m ->
  scaled_input m hidden_states = Ok s0 ->
  step m (size0 s0) (top_k_tokens_per_head m) 0 (init_loop m s0 input_ids)
    = Raise e ->
  forward m hidden_states input_ids = Raise e.
Proof.
  intros HN Hlen Hs0 Hstep. unfold Speculator.forward.
  rewrite Hs0. cbn [bind]. rewrite Hlen, Nat.eqb_refl. cbn [negb].
  destruct (n_predict m) as [|n'] eqn:HNe; [lia|].
  cbn [seq Speculator.loop]. rewrite Hstep. reflexivity.
Qed.

(** X13: an empty batch makes the forward pass of a model with at least
    one head raise [RuntimeError] (the reshape to (-1, 0, d) at the end of
    the first step), and so does the head wrapper, which passes the empty
    batch on to the speculator after the LM head. *)
Theorem empty_batch_raises (lm_head : vec -> vec) (m : Model) (inner : nat)
    (c : R) :
  ready m inner c ->
  (1 <= n_predict m)%nat ->
  length (top_k_tokens_per_head m) = n_predict m ->
  is_ok (scaled_input m []) ->
  forward m [] [] = Raise RuntimeError
  /\ Head.forward lm_head (forward m) []
     = ([Head.CallLmHead; Head.CallSpeculator], Raise RuntimeError).
Proof.
  intros Hr HN Hlen [s0 Hs0].
  assert (Hfw : forward m [] [] = Raise RuntimeError).
  { apply (forward_first_step_raises m [] [] s0 RuntimeError HN Hlen Hs0).
    destruct (scaled_input_shape m [] s0 Hs0) as [Hd Hl].
    destruct s0 as [d0 S]. cbn [dims cells] in Hd, Hl. subst d0.
    destruct S as [|row S]; [|discriminate].
    pose proof (init_loop_aligned m (Tensor.mk [0%nat] []) [] 0 eq_refl
                  eq_refl eq_refl) as Hal.
    destruct (layer_at_ready embedding linear m inner c 0 Hr ltac:(lia))
      as [L HL].
    pose proof (layer_at_Some _ _ _ HL) as (_ & _ & _ & Hh).
    destruct (lookup_lt_is_Some_2 (top_k_tokens_per_head m) 0 ltac:(lia))
      as [k Hk].
    unfold Speculator.step. cbn [length].
    rewrite (mix_spec embedding linear gelu m inner c 0 1 0 _ L Hr Hal HL).
    cbn [bind].
    rewrite (predict_spec linear m 0 _ (L_head L) Hh).
    cbn [bind]. rewrite (idx_Some _ _ _ Hk). cbn [bind].
    reflexivity. }
  split; [exact Hfw|].
  unfold Head.forward, Head.lm_head_forward. cbn [map length Nat.ltb Nat.leb mapM bind].
  by rewrite Hfw.
Qed.

(** X14: ids whose number is neither 1 nor the batch size (itself
    different from 1) cannot be broadcast against the projected state: the
    forward pass of a model with at least one head raises
    [RuntimeError] in the first step. *)
Theorem forward_ids_length_mismatch (m : Model) (inner : nat) (c : R)
    (hidden_states : list vec) (input_ids : list nat) :
  ready m inner c ->
  (1 <= n_predict m)%nat ->
  length (top_k_tokens_per_head m) = n_predict m ->
  is_ok (scaled_input m hidden_states) ->
  length hidden_states <> 1%nat ->
  length input_ids <> 1%nat ->
  length input_ids <> length hidden_states ->
  forward m hidden_states input_ids = Raise RuntimeError.
Proof.
  intros Hr HN Hlen [s0 Hs0] Hb1 Hi1 Hne.
  apply (forward_first_step_raises m hidden_states input_ids s0 RuntimeError
           HN Hlen Hs0).
  destruct (scaled_input_shape m hidden_states s0 Hs0) as [Hd _].
  destruct (layer_at_ready embedding linear m inner c 0 Hr ltac:(lia))
    as [L HL].
  pose proof (layer_at_Some _ _ _ HL) as (He & Hp & _ & _).
  unfold Speculator.step, mix.
  rewrite (idx_Some _ _ _ He). cbn [bind].
  rewrite (ready_scale _ _ _ _ _ Hr). cbn [bind].
  rewrite (idx_Some _ _ _ Hp). cbn [bind].
  unfold broadcast2, broadcast_shape, scale, Linear_forward,
    Embedding_forward, tmap, init_loop, unsqueeze0.
  cbn [dims cells Speculator.state Speculator.ind]. rewrite Hd.
  unfold pad_to. cbn [length Nat.max Nat.sub replicate app bdims].
  apply Nat.eqb_neq in Hb1, Hi1.
  assert (Hne' : (length hidden_states =? length input_ids)%nat = false).
  { apply Nat.eqb_neq. congruence. }
  rewrite Hne', Hb1, Hi1. reflexivity.
Qed.

(** X15: the head wrapper end to end on a batch of 1 to 128 rows, with the
    top-k list of ones that the construction sets and no tie for the most
    probable token at a head that hands a token on: the LM head is called,
    then the speculator on the arg-max of every row of logits, and the
    result pairs the logits with a tensor of shape (B, N, vsize) holding,
    for every input row, the distributions of the chain started from that
    row and its arg-max token, whichever most probable token the selection
    returns. *)
Theorem head_forward_end_to_end (lm_head : vec -> vec) (m : Model)
    (inner : nat) (c : R) (input : list vec) (sel : vec -> nat) :
  ready m inner c ->
  (1 <= length input)%nat ->
  (length input <= 128)%nat ->
  (forall row, row ∈ input -> lm_head row <> []) ->
  (1 <= vsize m)%nat ->
  truthy (scale_input m) = false ->
  top_k_tokens_per_head m = replicate (n_predict m) 1%nat ->
  (forall row, row <> [] -> is_argmax row (sel row)) ->
  (forall r row id,
     input !! r = Some row -> argmax (lm_head row) = Ok id ->
     Speculator.untied embedding linear gelu (state_weight m) c
       (layers_from m 0 (n_predict m)) row id) ->
  exists input_ids,
    Forall2 is_argmax (map lm_head input) input_ids
    /\ let ap := zip_with (Speculator.chain_by embedding linear gelu sel
                             (state_weight m) c
                             (layers_from m 0 (n_predict m)))
                   input input_ids in
       Head.forward lm_head (forward m) input
       = ([Head.CallLmHead; Head.CallSpeculator],
          Ok (map lm_head input, Some ap))
       /\ length ap = length input
       /\ Forall (fun heads =>
                    length heads = n_predict m
                    /\ Forall (fun d => length d = vsize m /\ vsum d = 1)
                         heads) ap.
Proof.
  intros Hr Hb HB Hne Hv Hscl Htop Hsel Hun.
  destruct (mapM_argmax (map lm_head input)) as (ids & Hids & Harg).
  { intros row Hrow. apply list_elem_of_fmap in Hrow as (x & -> & Hx).
    by apply Hne. }
  assert (Hlen : length ids = length input).
  { apply length_mapM in Hids. by rewrite length_map in Hids. }
  destruct (scaled_input_cases m input) as [Hs0 _].
  destruct (forward_single_candidate embedding linear gelu m inner c input
              ids _ Hr Hb Hlen Hv (Hs0 Hscl) Htop) as (Hfw & Hshape & Hdist).
  cbn [cells] in Hfw, Hshape, Hdist.
  assert (Hap : zip_with (Speculator.chain_by embedding linear gelu sel
                            (state_weight m) c
                            (layers_from m 0 (n_predict m))) input ids
                = zip_with (chain (state_weight m) c
                              (layers_from m 0 (n_predict m))) input ids).
  { apply zip_with_lookup_ext. intros r row id Hrow Hid.
    apply chain_by_untied; [exact Hsel|]. apply (Hun r); [exact Hrow|].
    apply mapM_Ok in Hids.
    assert (Hl : map lm_head input !! r = Some (lm_head row)).
    { change (map lm_head input) with (lm_head <$> input).
      by rewrite list_lookup_fmap, Hrow. }
    exact (Forall2_lookup_lr _ _ _ _ _ _ Hids Hl Hid). }
  exists ids. split; [exact Harg|]. cbn zeta. rewrite Hap.
  split; [|split; [exact Hshape | exact Hdist]].
  unfold Head.forward, Head.lm_head_forward.
  apply Nat.ltb_ge in HB. rewrite HB, Hids.
  f_equal.
  match goal with
  | |- context [Speculator.forward ?e ?l ?g ?m' ?x ?y] =>
      replace (Speculator.forward e l g m' x y) with
        (Ok (zip_with (chain (state_weight m) c
                         (layers_from m 0 (n_predict m))) input ids))
        by (symmetry; exact Hfw)
  end.
  reflexivity.
Qed.

End BatchProperties.

Section BatchExamples.
Import Speculator Examples.

Lemma empty_batch_raises_witness :
  exists m,
    Model_init ex_get_tensor 2 cfg_plain "speculator" 0%nat = Ok (m, 8%nat)
    /\ forward ex_embedding ex_linear ex_gelu m [] [] = Raise RuntimeError
    /\ Head.forward (ex_linear "lm_head")
         (forward ex_embedding ex_linear ex_gelu m) []
       = ([Head.CallLmHead; Head.CallSpeculator], Raise RuntimeError).
Proof.
  destruct (cfg_plain_init 2 0%nat ltac:(lia)) as (m & Hm & _).
  destruct (cfg_plain_ready 2 0%nat 8%nat m Hm)
    as (Hr & Hn & Hv & Htop & Hscl).
  destruct (scaled_input_cases m []) as [Hs0 _].
  exists m. split; [exact Hm|].
  apply (empty_batch_raises ex_embedding ex_linear ex_gelu
           (ex_linear "lm_head") m 2 _ Hr).
  - lia.
  - rewrite Htop, length_replicate. lia.
  - eexists. exact (Hs0 Hscl).
Defined.

Lemma forward_ids_length_mismatch_witness :
  exists m,
    Model_init ex_get_tensor 2 cfg_plain "speculator" 0%nat = Ok (m, 8%nat)
    /\ forward ex_embedding ex_linear ex_gelu m [[1; 0]; [0; 1]]
         [0; 1; 0]%nat
       = Raise RuntimeError.
Proof.
  destruct (cfg_plain_init 2 0%nat ltac:(lia)) as (m & Hm & _).
  destruct (cfg_plain_ready 2 0%nat 8%nat m Hm)
    as (Hr & Hn & Hv & Htop & Hscl).
  destruct (scaled_input_cases m [[1; 0]; [0; 1]]) as [Hs0 _].
  exists m. split; [exact Hm|].
  apply (forward_ids_length_mismatch ex_embedding ex_linear ex_gelu m 2 _
           [[1; 0]; [0; 1]] [0; 1; 0]%nat Hr).
  - lia.
  - rewrite Htop, length_replicate. lia.
  - eexists. exact (Hs0 Hscl).
  - simpl. lia.
  - simpl. lia.
  - simpl. lia.
Defined.

Lemma head_forward_end_to_end_witness :
  exists m input_ids ap,
    Model_init ex_get_tensor 2 cfg_plain "speculator" 0%nat = Ok (m, 8%nat)
    /\ Forall2 is_argmax (map (ex_linear "lm_head") [[1; 0]; [2; 0]])
         input_ids
    /\ Head.forward (ex_linear "lm_head")
         (forward ex_embedding ex_linear ex_gelu m) [[1; 0]; [2; 0]]
       = ([Head.CallLmHead; Head.CallSpeculator],
          Ok (map (ex_linear "lm_head") [[1; 0]; [2; 0]], Some ap))
    /\ length ap = 2%nat.
Proof.
  destruct (cfg_plain_init 2 0%nat ltac:(lia)) as (m & Hm & _).
  destruct (cfg_plain_ready 2 0%nat 8%nat m Hm)
    as (Hr & Hn & Hv & Htop & Hscl).
  assert (Hid : forall a id, 0 < a -> argmax [a; 0] = Ok id -> id = 0%nat).
  { intros a id Ha Harg. apply argmax_is_argmax in Harg.
    apply (strict_argmax_unique [a; 0] 0 id); [|exact Harg].
    exists a. split; [reflexivity|].
    intros [|[|j]] y Hj Hy; [done | | done].
    injection Hy as <-. exact Ha. }
  destruct (head_forward_end_to_end ex_embedding ex_linear ex_gelu
              (ex_linear "lm_head") m 2 _ [[1; 0]; [2; 0]] top1 Hr)
    as (ids & Harg & Hfw & Hlen & _).
  - simpl. lia.
  - simpl. lia.
  - intros row _. discriminate.
  - lia.
  - exact Hscl.
  - by rewrite Htop, Hn.
  - apply top1_is_argmax.
  - intros [|[|r]] row id Hrow Harg; [| |done].
    + injection Hrow as <-.
      rewrite (Hid 1 id ltac:(lra) Harg).
      apply (cfg_plain_untied m 1 Hm). lra.
    + injection Hrow as <-.
      rewrite (Hid 2 id ltac:(lra) Harg).
      apply (cfg_plain_untied m 2 Hm). lra.
  - exists m, ids. eexists.
    split; [exact Hm|]. split; [exact Harg|]. split; [exact Hfw | exact Hlen].
Defined.

End BatchExamples.

(** ** From the constructor to the forward pass (lines 56-181) *)

Section ConstructedForward.
Import Speculator Examples.

(** The modules behind the lists of a constructed model. *)
Lemma Model_init_modules (get_tensor : string -> vec) (n : nat)
    (config : Config) (prefix : string) (next next' : nat) (m : Model) :
  Model_init get_tensor n config prefix next = Ok (m, next') ->
  length (emb m) = n /\ length (proj m) = n
  /\ length (head m) = n /\ length (ln m) = n
  /\ (forall p, p ∈ proj m ->
        exists i : nat, lin_prefix p = prefix +:+ ".proj." +:+ pretty i)
  /\ (forall h, h ∈ head m ->
        exists i : nat, lin_prefix h = prefix +:+ ".head." +:+ pretty i)
  /\ (forall l, l ∈ ln m ->
        exists key, LayerNorm.weight l = get_tensor (key +:+ ".weight")
                    /\ LayerNorm.bias l = get_tensor (key +:+ ".bias")).
Proof.
  intros Hinit.
  apply Model_init_inv in Hinit
    as (embs & projs & heads & lns & inner & Hb & _ & Hn & _ & ->).
  cbn [emb proj head ln].
  destruct (truthy (default (PBool false)
                      (speculator_config config !! "tie_weights"))).
  - rewrite build_lists_tied in Hb. injection Hb as <- <- <- <- _.
    simpl. rewrite !length_replicate.
    split; [done|]. split; [lia|]. split; [done|]. split; [done|].
    split; [|split].
    + intros p Hp. apply elem_of_cons in Hp as [->|Hp].
      * by exists 0%nat.
      * apply elem_of_replicate in Hp as [-> _]. by exists 1%nat.
    + intros h Hh. apply elem_of_replicate in Hh as [-> _]. by exists 0%nat.
    + intros l Hl. apply elem_of_replicate in Hl as [-> _]. by eexists.
  - rewrite build_lists_untied in Hb. injection Hb as <- <- <- <- _.
    rewrite !length_imap, !length_seq.
    do 4 (split; [done|]).
    split; [|split].
    + intros p Hp. apply list_elem_of_lookup in Hp as [j Hj].
      rewrite list_lookup_imap in Hj.
      destruct (seq 0 n !! j) as [i|]; [|discriminate].
      injection Hj as <-. by exists i.
    + intros h Hh. apply list_elem_of_lookup in Hh as [j Hj].
      rewrite list_lookup_imap in Hj.
      destruct (seq 0 n !! j) as [i|]; [|discriminate].
      injection Hj as <-. by exists i.
    + intros l Hl. apply list_elem_of_lookup in Hl as [j Hj].
      rewrite list_lookup_imap in Hj.
      destruct (seq 0 n !! j) as [i|]; [|discriminate].
      injection Hj as <-. by eexists.
Qed.

(** X16: the forward pass of a freshly constructed model returns.  When
    the checkpoint holds embedding tables, state projections and normalizer
    parameters of width inner_dim and output projections of width
    vocab_size, every model the constructor returns, tied or not, maps a
    non-empty batch with one id per row to a tensor of shape
    (b, N, vocab_size) whose rows are distributions. *)
Theorem constructed_model_forward_returns (get_tensor : string -> vec)
    (embedding : string -> nat -> vec) (linear : string -> vec -> vec)
    (gelu : R -> R) (n : nat) (config : Config) (prefix : string)
    (next next' : nat) (m : Model) (inner : nat)
    (hidden_states : list vec) (input_ids : list nat) :
  Model_init get_tensor n config prefix next = Ok (m, next') ->
  speculator_config config !! "inner_dim" = Some (PInt (Z.of_nat inner)) ->
  (1 <= inner)%nat ->
  (1 <= vocab_size config)%nat ->
  (forall key tok, length (embedding key tok) = inner) ->
  (forall (i : nat) row,
     length (linear (prefix +:+ ".proj." +:+ pretty i) row) = inner) ->
  (forall (i : nat) row,
     length (linear (prefix +:+ ".head." +:+ pretty i) row)
     = vocab_size config) ->
  (forall key, length (get_tensor key) = inner) ->
  (1 <= length hidden_states)%nat ->
  length input_ids = length hidden_states ->
  exists ap,
    forward embedding linear gelu m hidden_states input_ids = Ok ap
    /\ length ap = length hidden_states
    /\ Forall (fun heads =>
                 length heads = n
                 /\ Forall (fun d => length d = vocab_size config
                                     /\ vsum d = 1) heads) ap.
Proof.
  intros Hinit Hin Hinner Hvocab Hemb Hproj Hhead Hln Hb Hids.
  destruct (Model_init_modules get_tensor n config prefix next next' m Hinit)
    as (Le & Lp & Lh & Ll & Mp & Mh & Ml).
  apply Model_init_inv in Hinit
    as (embs & projs & heads & lns & inner' & _ & Hscl & Hn & Hin' & Hm).
  rewrite Hin in Hin'. injection Hin' as <-.
  assert (HN : n_predict m = n) by by subst m.
  assert (HV : vsize m = vocab_size config) by by subst m.
  assert (HS : truthy (scale_input m) = false) by by subst m.
  assert (HT : top_k_tokens_per_head m = replicate (n_predict m) 1%nat)
    by by subst m.
  assert (HI : inner_dim m = PInt (Z.of_nat inner)) by by subst m.
  clear Hm.
  assert (Hr : ready embedding linear m inner
                 (emb_weight m * sqrt (IZR (Z.of_nat inner) / 2))).
  { constructor; try (rewrite HN; assumption); try assumption.
    - intros e tok _. apply Hemb.
    - intros p row Hp. destruct (Mp p Hp) as [i ->]. apply Hproj.
    - intros h row Hh. destruct (Mh h Hh) as [i ->]. rewrite HV. apply Hhead.
    - intros l Hl _. destruct (Ml l Hl) as (key & -> & ->).
      by rewrite !Hln.
    - unfold emb_scale. rewrite HI. cbn [as_float bind].
      rewrite py_sqrt_nonneg; [reflexivity|].
      assert (0 <= IZR (Z.of_nat inner)) by (apply IZR_le; lia). lra. }
  destruct (scaled_input_cases m hidden_states) as [Hs0 _].
  destruct (forward_single_candidate embedding linear gelu m inner _
              hidden_states input_ids _ Hr Hb Hids ltac:(lia) (Hs0 HS) HT)
    as (Hfw & Hshape & Hdist).
  eexists. split; [exact Hfw|]. split; [exact Hshape|].
  by rewrite <- HN, <- HV.
Qed.

Lemma constructed_model_forward_returns_witness :
  exists m ap,
    Model_init ex_get_tensor 3 cfg_tied "speculator" 0%nat = Ok (m, 5%nat)
    /\ forward ex_embedding ex_linear ex_gelu m [[1; 0]; [0; 1]] [0; 1]%nat
       = Ok ap
    /\ length ap = 2%nat.
Proof.
  destruct cfg_tied_init as (m & Hm & _).
  destruct (constructed_model_forward_returns ex_get_tensor ex_embedding
              ex_linear ex_gelu 3 cfg_tied "speculator" 0%nat 5%nat m 2
              [[1; 0]; [0; 1]] [0; 1]%nat Hm)
    as (ap & Hfw & Hlen & _).
  - reflexivity.
  - lia.
  - simpl. lia.
  - reflexivity.
  - reflexivity.
  - reflexivity.
  - reflexivity.
  - simpl. lia.
  - reflexivity.
  - exists m, ap. split; [exact Hm|]. split; [exact Hfw | exact Hlen].
Defined.

End ConstructedForward.

(** ** A single input id (lines 152 and 161-163) *)

Section SingleId.
Import Speculator.
Variable embedding : string -> nat -> vec.
Variable linear : string -> vec -> vec.
Variable gelu : R -> R.

Local Abbreviation mix := (Speculator.mix embedding linear gelu).
Local Abbreviation step := (Speculator.step embedding linear gelu).
Local Abbreviation forward := (Speculator.forward embedding linear gelu).

Lemma concat_replicate_singleton {A} (b : nat) (y : A) :
  concat (replicate b [y]) = replicate b y.
Proof. induction b as [|b IH]; simpl; [reflexivity | by rewrite IH]. Qed.

Lemma map_replicate {A B} (f : A -> B) (b : nat) (y : A) :
  map f (replicate b y) = replicate b (f y).
Proof. induction b as [|b IH]; simpl; [reflexivity | by rewrite IH]. Qed.

Lemma expand_to_single_cell {A} (b : nat) (y : A) :
  expand_to [1%nat; 1%nat] [1%nat; b] [y] = replicate b y.
Proof.
  destruct b as [|[|b']]; [reflexivity | reflexivity |].
  cbn [expand_to Nat.eqb numel foldr Nat.mul Nat.add chunks take drop map
       concat].
  rewrite app_nil_r. apply concat_replicate_singleton.
Qed.

(** A tensor of shape (1, 1, ...) is read against a tensor of shape
    (b, ...) as [b] copies of its only cell. *)
Lemma broadcast2_single_cell {A B C} (f : A -> B -> result C)
    (t1 : tensor A) (y : B) (b : nat) :
  dims t1 = [b] ->
  length (cells t1) = b ->
  broadcast2 f t1 (Tensor.mk [1%nat; 1%nat] [y])
  = broadcast2 f t1 (Tensor.mk [1%nat; b] (replicate b y)).
Proof.
  intros Hd Hl.
  rewrite (broadcast2_padded f t1 (Tensor.mk [1%nat; b] (replicate b y)));
    cbn [dims cells].
  2:{ by rewrite Hd. }
  2:{ rewrite Hd. simpl. lia. }
  2:{ rewrite Hl. simpl. lia. }
  2:{ rewrite length_replicate. simpl. lia. }
  unfold broadcast2, broadcast_shape. cbn [dims cells]. rewrite Hd.
  unfold pad_to. cbn [length Nat.max Nat.sub replicate app bdims].
  assert (Hs : (if (b =? 1)%nat then Some [b]
                else if (b =? 1)%nat then Some [1%nat]
                     else if (1 =? 1)%nat then Some [b] else None)
               = Some [b]).
  { by destruct (b =? 1)%nat. }
  rewrite Hs. cbn [Nat.eqb length Nat.sub replicate app].
  rewrite (expand_to_same [1%nat; b]) by (rewrite Hl; simpl; lia).
  by rewrite expand_to_single_cell.
Qed.

Lemma mix_single_id (m : Model) (i : nat) (s0 : tensor vec) (t b : nat) :
  dims s0 = [b] ->
  length (cells s0) = b ->
  mix m i s0 (Tensor.mk [1%nat; 1%nat] [t])
  = mix m i s0 (Tensor.mk [1%nat; b] (replicate b t)).
Proof.
  intros Hd Hl. unfold Speculator.mix.
  destruct (idx (emb m) i) as [e|]; cbn [bind]; [|reflexivity].
  destruct (emb_scale m) as [c|]; cbn [bind]; [|reflexivity].
  destruct (idx (proj m) i) as [p|]; cbn [bind]; [|reflexivity].
  unfold scale, Embedding_forward, Linear_forward, tmap. cbn [dims cells].
  rewrite !map_replicate. cbn [map].
  rewrite (broadcast2_single_cell _ _ _ b); cbn [dims cells].
  - reflexivity.
  - exact Hd.
  - by rewrite !length_map.
Qed.

(** X18: a single input id is broadcast over the batch: the forward pass
    on any batch with the one id t is the forward pass on that batch with t
    repeated for every row, whether it returns or raises. *)
Theorem forward_single_id_broadcast (m : Model) (hidden_states : list vec)
    (t : nat) :
  forward m hidden_states [t]
  = forward m hidden_states (replicate (length hidden_states) t).
Proof.
  unfold Speculator.forward.
  destruct (scaled_input m hidden_states) as [s0|e] eqn:Hs0; cbn [bind];
    [|reflexivity].
  destruct (scaled_input_shape m hidden_states s0 Hs0) as [Hd Hl].
  destruct (negb _); [reflexivity|].
  assert (Hb : size0 s0 = length hidden_states).
  { unfold size0. by rewrite Hd. }
  destruct (n_predict m) as [|n'] eqn:HN; [reflexivity|].
  cbn [seq Speculator.loop].
  assert (Hstep :
    step m (size0 s0) (top_k_tokens_per_head m) 0 (init_loop m s0 [t])
    = step m (size0 s0) (top_k_tokens_per_head m) 0
        (init_loop m s0 (replicate (length hidden_states) t))).
  { unfold Speculator.step, init_loop, unsqueeze0.
    cbn [Speculator.state Speculator.ind Speculator.all_probs dims cells
         length].
    rewrite length_replicate.
    by rewrite (mix_single_id m 0 s0 t (length hidden_states) Hd Hl). }
  by rewrite Hstep.
Qed.

End SingleId.
